(** * Daydicated: the calendar cache, the date helpers and the export formats

    A shallow embedding of [calendar.js], [auth.js] and [export.js].

    - JavaScript strings are sequences of UTF-16 code units ([list N]).
    - Numbers are NaN, the Numbers whose value is an integer ([JInt z];
      [JInt 0] is +0), -0 and the two infinities; Numbers with a fraction
      are not modelled.  An integer becomes a Number by rounding to the
      nearest double.  Printing is positional below 2^53 and left to the
      host (a section variable) above it.
    - The object [currentEntries] is modelled by its own properties.
    - The module-level variables of [calendar.js] and [auth.js] are fields of
      explicit state records; the Firestore collection is a finite map from
      document ids to documents, and every backend call takes the answer of
      the backend ([None]: it resolves, [Some e]: it rejects with [e]). *)

From Stdlib Require Import ZArith NArith List String Ascii Lia.
From Stdlib Require Import Floats.SpecFloat.
From stdpp Require Import base option list sorting gmap.

Local Open Scope Z_scope.
Set Default Proof Using "Type".

(** ** JavaScript strings *)

Abbreviation JsString := (list N).

(** A string literal of the source, as code units. *)
Definition js (s : string) : JsString :=
  List.map N_of_ascii (list_ascii_of_string s).

(** ** Scalar values *)

(** What the getters of a Date return: NaN, or the Number whose value is
    the integer [z] ([JInt 0] is +0). *)
Inductive JsNum : Type :=
| JNaN
| JInt (z : Z).

(** The Numbers of the model: the former, -0 and the infinities. *)
Inductive JsDouble : Type :=
| DNum (n : JsNum)
| DNegZero
| DInf (negative : bool).

Coercion DNum : JsNum >-> JsDouble.

Inductive JsVal : Type :=
| VUndefined
| VNull
| VBool (b : bool)
| VNum (n : JsDouble)
| VStr (s : JsString).

#[global] Instance JsNum_eq_dec : EqDecision JsNum.
Proof. solve_decision. Defined.

#[global] Instance JsDouble_eq_dec : EqDecision JsDouble.
Proof. solve_decision. Defined.

#[global] Instance JsVal_eq_dec : EqDecision JsVal.
Proof. solve_decision. Defined.

(** ToBoolean: [undefined], [null], [false], [0], [-0], [NaN] and [''] are
    falsy. *)
Definition ToBoolean (v : JsVal) : bool :=
  match v with
  | VUndefined | VNull => false
  | VBool b => b
  | VNum (DNum JNaN) => false
  | VNum (DNum (JInt z)) => negb (z =? 0)
  | VNum DNegZero => false
  | VNum (DInf _) => true
  | VStr s => match s with [] => false | _ :: _ => true end
  end.

(** ** Integers as Numbers *)

(** The double nearest to the integer [m >= 1], ties to the even
    significand; [None] when that is beyond the largest double, where the
    Number is an infinity.  Below 2^53 every integer is a double. *)
Definition round_to_double (m : Z) : option Z :=
  if m <? 2 ^ 53 then Some m
  else
    let e := Z.log2 m - 52 in
    let q := m / 2 ^ e in
    let r := m mod 2 ^ e in
    let half := 2 ^ (e - 1) in
    let q' := if (half <? r) || ((r =? half) && Z.odd q) then q + 1 else q in
    let v := q' * 2 ^ e in
    if v <? 2 ^ 1024 then Some v else None.

(** The Number for [sign * m], where [sign] is 1 or -1 and [m >= 0] is the
    value of the digits read: a zero keeps the sign. *)
Definition Number_of_signed (sign m : Z) : JsDouble :=
  if m =? 0 then (if sign <? 0 then DNegZero else JInt 0)
  else
    match round_to_double m with
    | Some v => JInt (sign * v)
    | None => DInf (sign <? 0)
    end.

(** The integer value of a binary64 datum of the Standard Library. *)
Definition spec_float_value (f : spec_float) : option Z :=
  match f with
  | S754_zero _ => Some 0
  | S754_finite s m e => Some ((if s then -1 else 1) * Z.shiftl (Zpos m) e)
  | _ => None
  end.

(** Integers on which the rounding is compared with the binary64 rounding of
    the Standard Library: around 2^53, ties, many digits, and around the
    largest double. *)
Definition rounding_samples : list Z :=
  [1; 2 ^ 53 - 1; 2 ^ 53; 2 ^ 53 + 1; 2 ^ 53 + 2; 2 ^ 53 + 3; 2 ^ 54 + 2;
   2 ^ 54 + 5; 2 ^ 54 + 6; 2 ^ 54 + 7; 10 ^ 21; 10 ^ 22 + 1; 10 ^ 30 + 12345;
   123456789012345678901234567890; 3 * 2 ^ 100 + 2 ^ 47; 3 * 2 ^ 100 + 2 ^ 48;
   2 ^ 1023 + 2 ^ 970; 2 ^ 1023 + 2 ^ 970 + 1; (2 ^ 53 - 1) * 2 ^ 971;
   2 ^ 1024 - 2 ^ 970 - 1; 2 ^ 1024 - 2 ^ 970; 2 ^ 1024 - 1; 2 ^ 1024; 10 ^ 400].

Definition rounding_agrees (m : Z) : bool :=
  match round_to_double m, spec_float_value (binary_normalize 53 1024 m 0 false) with
  | Some a, Some b => a =? b
  | None, None => true
  | _, _ => false
  end.

(** [a || b] on values. *)
Definition js_or (a b : JsVal) : JsVal := if ToBoolean a then a else b.

(** ** Decimal digits *)

Definition digit_char (d : N) : N := (48 + d)%N.

Fixpoint digits_aux (fuel : nat) (n : N) (acc : JsString) : JsString :=
  match fuel with
  | O => acc
  | S fuel' =>
      let acc' := digit_char (n mod 10) :: acc in
      if (n / 10 =? 0)%N then acc' else digits_aux fuel' (n / 10) acc'
  end.

(** The decimal numeral of a natural number, most significant digit first. *)
Definition decimal_N (n : N) : JsString := digits_aux (S (N.to_nat (N.log2 n))) n [].

Definition decimal_Z (z : Z) : JsString :=
  match z with
  | Z0 => js "0"
  | Zpos p => decimal_N (Npos p)
  | Zneg p => js "-" ++ decimal_N (Npos p)
  end.

(** ** Thrown values *)

(** What the Firestore SDK rejects a call with. *)
Inductive FirestoreError : Type :=
| FirestoreFailure (code : JsString).

(** What an operation throws: [new Error(message)], the TypeError of a call
    of a method that the receiver does not have, or the rejection of a
    backend call; the [catch] blocks rethrow it unchanged. *)
Inductive Thrown : Type :=
| JsError (message : JsString)
| TypeError
| Rejected (e : FirestoreError).

Inductive Outcome (A : Type) : Type :=
| Returned (a : A)
| Threw (t : Thrown).

Arguments Returned {A} a.
Arguments Threw {A} t.

(** ** Structured values *)

(** Arrays and plain objects over the scalars; an object is the list of its
    own properties in creation order. *)
#[warnings="-register-all"]
Inductive JsData : Type :=
| DVal (v : JsVal)
| DArr (items : list JsData)
| DObj (props : list (JsString * JsData)).

(** What reading a text yields: a value and the unread rest, a SyntaxError,
    or a text outside the numerals modelled here (fractions and exponents). *)
Inductive ParseResult (A : Type) : Type :=
| Parsed (a : A) (rest : JsString)
| SyntaxError
| NotModelled.

Arguments Parsed {A} a rest.
Arguments SyntaxError {A}.
Arguments NotModelled {A}.

(** A decidable fact, by evaluation. *)
Ltac by_decide := apply (bool_decide_unpack _); vm_compute; exact I.

(** ** Conversions that depend on the host *)

Section Host.

(** Number::toString for integers of magnitude 2^53 and above (shortest
    round-trip digits, exponent notation from 10^21): supplied by the host. *)
Variable big_number_to_string : Z -> JsString.

Definition Number_toString (n : JsNum) : JsString :=
  match n with
  | JNaN => js "NaN"
  | JInt z => if Z.abs z <? 2 ^ 53 then decimal_Z z else big_number_to_string z
  end.

Definition Double_toString (n : JsDouble) : JsString :=
  match n with
  | DNum n' => Number_toString n'
  | DNegZero => js "0"
  | DInf false => js "Infinity"
  | DInf true => js "-Infinity"
  end.

(** ToString, as applied by template literals and by [parseInt]. *)
Definition ToString (v : JsVal) : JsString :=
  match v with
  | VUndefined => js "undefined"
  | VNull => js "null"
  | VBool true => js "true"
  | VBool false => js "false"
  | VNum n => Double_toString n
  | VStr s => s
  end.

(** WhiteSpace and LineTerminator code units, as trimmed by [parseInt]. *)
Definition is_white_space (c : N) : bool :=
  ((9 <=? c) && (c <=? 13) || (c =? 32) || (c =? 160) || (c =? 5760)
   || (8192 <=? c) && (c <=? 8202) || (c =? 8232) || (c =? 8233)
   || (c =? 8239) || (c =? 8287) || (c =? 12288) || (c =? 65279))%N.

Fixpoint trim_start (s : JsString) : JsString :=
  match s with
  | c :: s' => if is_white_space c then trim_start s' else s
  | [] => []
  end.

(** The value of a code unit as a digit of the given radix, if it is one. *)
Definition digit_value (radix c : N) : option N :=
  let v := (if (48 <=? c) && (c <=? 57) then Some (c - 48)
            else if (97 <=? c) && (c <=? 122) then Some (c - 87)
            else if (65 <=? c) && (c <=? 90) then Some (c - 55)
            else None)%N in
  match v with
  | Some d => if (d <? radix)%N then Some d else None
  | None => None
  end.

(** The longest prefix of radix digits, as digit values. *)
Fixpoint take_digits (radix : N) (s : JsString) : list N :=
  match s with
  | c :: s' =>
      match digit_value radix c with
      | Some d => d :: take_digits radix s'
      | None => []
      end
  | [] => []
  end.

Definition radix_value (radix : N) (ds : list N) : N :=
  fold_left (fun acc d => (acc * radix + d)%N) ds 0%N.

Definition digits_value (ds : list N) : N := radix_value 10 ds.

(** A leading sign is removed and remembered. *)
Definition strip_sign (s : JsString) : Z * JsString :=
  match s with
  | c :: rest =>
      if (c =? 45)%N then (-1, rest)
      else if (c =? 43)%N then (1, rest)
      else (1, s)
  | [] => (1, s)
  end.

(** A leading [0x] or [0X] selects radix 16, otherwise the radix is 10. *)
Definition strip_radix_prefix (s : JsString) : N * JsString :=
  match s with
  | c0 :: c1 :: rest =>
      if ((c0 =? 48) && ((c1 =? 120) || (c1 =? 88)))%N then (16%N, rest)
      else (10%N, s)
  | _ => (10%N, s)
  end.

(** [parseInt(v)] with no radix argument: the Number for the signed value
    of the digits.  Every digit counts, as the engines have it (the
    standard would let an implementation read the decimal digits after the
    twentieth as zeros). *)
Definition parseInt (v : JsVal) : JsDouble :=
  let '(sign, s1) := strip_sign (trim_start (ToString v)) in
  let '(radix, s2) := strip_radix_prefix s1 in
  match take_digits radix s2 with
  | [] => JNaN
  | ds => Number_of_signed sign (Z.of_N (radix_value radix ds))
  end.

(** ** auth.js *)

Record User : Type := { uid : JsString; email : JsString }.

(** [currentUser] is the module variable, [sdk_currentUser] is
    [auth.currentUser] of the SDK; [None] is [null]. *)
Record Auth : Type := {
  currentUser : option User;
  sdk_currentUser : option User
}.

(** [currentUser || auth.currentUser]: a user object is always truthy. *)
Definition getCurrentUser (a : Auth) : option User :=
  match currentUser a with
  | Some u => Some u
  | None => sdk_currentUser a
  end.

(** ** The Firestore collection 'entries' *)

Record DocData : Type := {
  userId : JsString;
  date : JsString;
  rating : JsVal;
  note : JsVal
}.

Abbreviation Collection := (gmap JsString DocData).

Fixpoint str_compare (a b : JsString) : comparison :=
  match a, b with
  | [], [] => Eq
  | [], _ :: _ => Lt
  | _ :: _, [] => Gt
  | x :: a', y :: b' =>
      match (x ?= y)%N with
      | Eq => str_compare a' b'
      | c => c
      end
  end.

(** [orderBy('date')]: ascending by date, ties by document id. *)
Definition doc_leb (x y : JsString * DocData) : bool :=
  match str_compare (date x.2) (date y.2) with
  | Lt => true
  | Gt => false
  | Eq => match str_compare x.1 y.1 with Gt => false | _ => true end
  end.

Definition doc_le (x y : JsString * DocData) : Prop := Is_true (doc_leb x y).

(** [getDocs(query(entriesRef, where('userId', '==', u), orderBy('date')))]
    when [owner] is [Some u], and without the [where] filter when it is
    [None]: the snapshot, or the rejection. *)
Definition getDocs (owner : option JsString) (resp : option FirestoreError)
    (col : Collection) : FirestoreError + list (JsString * DocData) :=
  match resp with
  | Some e => inl e
  | None =>
      let matching :=
        match owner with
        | Some u => filter (fun x => userId x.2 = u) (map_to_list col)
        | None => map_to_list col
        end in
      inr (merge_sort doc_le matching)
  end.

(** [setDoc(doc(db, 'entries', docId), data)]: a rejected write is not applied. *)
Definition setDoc (docId : JsString) (data : DocData) (resp : option FirestoreError)
    (col : Collection) : FirestoreError + Collection :=
  match resp with
  | Some e => inl e
  | None => inr (<[docId := data]> col)
  end.

(** ** calendar.js: the entry cache

    The object [currentEntries] is the finite map of its own properties,
    from date strings to entries.  The map is the object at every key but
    [__proto__]: an assignment at that key sets the prototype of the object
    and adds no property. *)

Record CacheEntry : Type := {
  id : JsString;
  c_rating : JsVal;
  c_note : JsVal
}.

(** The module variables [currentEntries] and [viewingUserId], the module
    variables of [auth.js] and the backend collection. *)
Record App : Type := {
  auth : Auth;
  firestore : Collection;
  currentEntries : gmap JsString CacheEntry;
  viewingUserId : option JsString
}.

Definition getViewingUserId (st : App) : option JsString := viewingUserId st.

Definition getCurrentEntries (st : App) : gmap JsString CacheEntry := currentEntries st.

(** The body of the [snapshot.forEach] of [loadUserEntries]. *)
Definition add_entry (entries : gmap JsString CacheEntry) (d : JsString * DocData)
    : gmap JsString CacheEntry :=
  <[date d.2 := {| id := d.1; c_rating := rating d.2; c_note := note d.2 |}]> entries.

Definition loadUserEntries (owner : JsString) (resp : option FirestoreError) (st : App)
    : Outcome (gmap JsString CacheEntry) * App :=
  match getDocs (Some owner) resp (firestore st) with
  | inr snapshot =>
      let entries := foldl add_entry ∅ snapshot in
      (Returned entries,
       {| auth := auth st; firestore := firestore st;
          currentEntries := entries; viewingUserId := Some owner |})
  | inl e => (Threw (Rejected e), st)
  end.

(** The template [`${user.uid}_${date}`]. *)
Definition docKey (u d : JsString) : JsString := u ++ js "_" ++ d.

Definition saveEntry (d : JsString) (r n : JsVal) (resp : option FirestoreError) (st : App)
    : Outcome unit * App :=
  match getCurrentUser (auth st) with
  | None => (Threw (JsError (js "Must be logged in to save entries")), st)
  | Some user =>
      let docId := docKey (uid user) d in
      let data := {| userId := uid user; date := d;
                     rating := VNum (parseInt r); note := js_or n (VStr []) |} in
      match setDoc docId data resp (firestore st) with
      | inr col =>
          (Returned tt,
           {| auth := auth st; firestore := col;
              currentEntries :=
                <[d := {| id := docId; c_rating := VNum (parseInt r);
                          c_note := js_or n (VStr []) |}]> (currentEntries st);
              viewingUserId := viewingUserId st |})
      | inl e => (Threw (Rejected e), st)
      end
  end.

(** [saveEntry] around its await.  The actor is read and the document is
    built before [await setDoc]; the cache is written after it, into the
    object that [currentEntries] names by then. *)
Record PendingSave : Type := {
  p_docId : JsString;
  p_data : DocData;
  p_date : JsString;
  p_entry : CacheEntry
}.

(** [saveEntry] up to the await: what it throws, or the write it awaits. *)
Definition saveEntry_begin (d : JsString) (r n : JsVal) (st : App) : Thrown + PendingSave :=
  match getCurrentUser (auth st) with
  | None => inl (JsError (js "Must be logged in to save entries"))
  | Some user =>
      inr {| p_docId := docKey (uid user) d;
             p_data := {| userId := uid user; date := d;
                          rating := VNum (parseInt r); note := js_or n (VStr []) |};
             p_date := d;
             p_entry := {| id := docKey (uid user) d; c_rating := VNum (parseInt r);
                           c_note := js_or n (VStr []) |} |}
  end.

(** [saveEntry] from the moment the await settles, in the state of that
    moment; the write is taken to reach the store then. *)
Definition saveEntry_end (p : PendingSave) (resp : option FirestoreError) (st : App)
    : Outcome unit * App :=
  match setDoc (p_docId p) (p_data p) resp (firestore st) with
  | inr col =>
      (Returned tt,
       {| auth := auth st; firestore := col;
          currentEntries := <[p_date p := p_entry p]> (currentEntries st);
          viewingUserId := viewingUserId st |})
  | inl e => (Threw (Rejected e), st)
  end.

(** ** Date: time values and local time

    A time value is a number of milliseconds since 1970-01-01T00:00:00Z, or
    NaN ([None]).  The year, month and date arguments are integers, on which
    the arithmetic of the Date algorithms is exact. *)

Definition msPerDay : Z := 86400000.
Definition msPerHour : Z := 3600000.
Definition msPerMinute : Z := 60000.
Definition msPerSecond : Z := 1000.

Definition Day (t : Z) : Z := t / msPerDay.

Definition DaysInYear (y : Z) : Z :=
  if negb (y mod 4 =? 0) then 365
  else if negb (y mod 100 =? 0) then 366
  else if negb (y mod 400 =? 0) then 365
  else 366.

Definition DayFromYear (y : Z) : Z :=
  365 * (y - 1970) + (y - 1969) / 4 - (y - 1901) / 100 + (y - 1601) / 400.

Definition TimeFromYear (y : Z) : Z := msPerDay * DayFromYear y.

(** The largest [y] with [TimeFromYear y <= t]: an estimate from the mean
    length of a year, corrected by at most one year either way. *)
Definition YearFromTime (t : Z) : Z :=
  let y0 := 1970 + (Day t * 400) / 146097 in
  if t <? TimeFromYear y0 then y0 - 1
  else if TimeFromYear (y0 + 1) <=? t then y0 + 1
  else y0.

Definition InLeapYear (t : Z) : Z :=
  if DaysInYear (YearFromTime t) =? 366 then 1 else 0.

Definition DayWithinYear (t : Z) : Z := Day t - DayFromYear (YearFromTime t).

Definition MonthFromTime (t : Z) : Z :=
  let d := DayWithinYear t in
  let l := InLeapYear t in
  if d <? 31 then 0
  else if d <? 59 + l then 1
  else if d <? 90 + l then 2
  else if d <? 120 + l then 3
  else if d <? 151 + l then 4
  else if d <? 181 + l then 5
  else if d <? 212 + l then 6
  else if d <? 243 + l then 7
  else if d <? 273 + l then 8
  else if d <? 304 + l then 9
  else if d <? 334 + l then 10
  else 11.

Definition DateFromTime (t : Z) : Z :=
  let d := DayWithinYear t in
  let l := InLeapYear t in
  match MonthFromTime t with
  | 0 => d + 1
  | 1 => d - 30
  | 2 => d - 58 - l
  | 3 => d - 89 - l
  | 4 => d - 119 - l
  | 5 => d - 150 - l
  | 6 => d - 180 - l
  | 7 => d - 211 - l
  | 8 => d - 242 - l
  | 9 => d - 272 - l
  | 10 => d - 303 - l
  | _ => d - 333 - l
  end.

Definition WeekDay (t : Z) : Z := (Day t + 4) mod 7.

(** The day within its year on which month [mn] begins. *)
Definition month_start (mn : Z) (leap : Z) : Z :=
  match mn with
  | 0 => 0
  | 1 => 31
  | 2 => 59 + leap
  | 3 => 90 + leap
  | 4 => 120 + leap
  | 5 => 151 + leap
  | 6 => 181 + leap
  | 7 => 212 + leap
  | 8 => 243 + leap
  | 9 => 273 + leap
  | 10 => 304 + leap
  | _ => 334 + leap
  end.

Definition maxTime : Z := 8640000000000000.

Definition MakeTime (hour min sec ms : Z) : Z :=
  hour * msPerHour + min * msPerMinute + sec * msPerSecond + ms.

(** MakeDay: the time value [t] of day 1 of month [mn] of year [ym] is found
    from the year and month tables; NaN when it is not a time value. *)
Definition MakeDay (year month dt : Z) : option Z :=
  let ym := year + month / 12 in
  let mn := month mod 12 in
  let t := TimeFromYear ym
           + msPerDay * month_start mn (if DaysInYear ym =? 366 then 1 else 0) in
  if Z.abs t <=? maxTime then Some (Day t + dt - 1) else None.

Definition MakeDate (day : option Z) (time : Z) : option Z :=
  match day with
  | Some d => Some (d * msPerDay + time)
  | None => None
  end.

Definition MakeFullYear (year : Z) : Z :=
  if (0 <=? year) && (year <=? 99) then 1900 + year else year.

Definition TimeClip (time : option Z) : option Z :=
  match time with
  | Some t => if Z.abs t <=? maxTime then Some t else None
  | None => None
  end.

(** The offset of local time from UTC, in milliseconds, at a time value
    ([true]) or at a local time ([false]): supplied by the host. *)
Variable LocalTZA : Z -> bool -> Z.

Definition LocalTime (t : Z) : Z := t + LocalTZA t true.

Definition UTC (t : Z) : Z := t - LocalTZA t false.

(** [new Date(year, month, date)]: the time value of the new object. *)
Definition new_Date (year month date : Z) : option Z :=
  TimeClip (option_map UTC
    (MakeDate (MakeDay (MakeFullYear year) month date) (MakeTime 0 0 0 0))).

Definition Date_getDate (tv : option Z) : JsNum :=
  match tv with
  | Some t => JInt (DateFromTime (LocalTime t))
  | None => JNaN
  end.

Definition Date_getDay (tv : option Z) : JsNum :=
  match tv with
  | Some t => JInt (WeekDay (LocalTime t))
  | None => JNaN
  end.

(** ** calendar.js: the date helpers *)

Definition getDaysInMonth (month year : Z) : JsNum :=
  Date_getDate (new_Date year (month + 1) 0).

Definition getFirstDayOfMonth (month year : Z) : JsNum :=
  Date_getDay (new_Date year month 1).

(** The empty cells that [renderMonth] puts before day 1: one for each turn
    of [for (let i = 0; i < firstDay; i++)]. *)
Definition leading_blanks (firstDay : JsNum) : nat :=
  match firstDay with
  | JInt z => Z.to_nat z
  | JNaN => O
  end.

(** ** calendar.js: all entries, for export *)

Definition getAllEntries (resp : option FirestoreError) (col : Collection)
    : Outcome (list DocData) :=
  match getDocs None resp col with
  | inr snapshot =>
      Returned (List.map (fun x => {| userId := userId x.2; date := date x.2;
                                      rating := rating x.2; note := note x.2 |})
                         snapshot)
  | inl e => Threw (Rejected e)
  end.

(** ** export.js *)

Definition comma : N := 44.
Definition dquote : N := 34.
Definition newline : N := 10.

Fixpoint starts_with (pat s : JsString) : bool :=
  match pat, s with
  | [], _ => true
  | p :: pat', c :: s' => (p =? c)%N && starts_with pat' s'
  | _ :: _, [] => false
  end.

(** [s.includes(pat)]. *)
Fixpoint includes (s pat : JsString) : bool :=
  starts_with pat s
  || match s with
     | [] => false
     | _ :: s' => includes s' pat
     end.

(** [s.replace(/c/g, rep)] for a pattern of one literal character and a
    replacement without [$]. *)
Fixpoint replace_char_global (c : N) (rep : JsString) (s : JsString) : JsString :=
  match s with
  | [] => []
  | x :: s' =>
      if (x =? c)%N then rep ++ replace_char_global c rep s'
      else x :: replace_char_global c rep s'
  end.

(** [rows.join(sep)] on an array of strings. *)
Fixpoint join (sep : JsString) (rows : list JsString) : JsString :=
  match rows with
  | [] => []
  | [r] => r
  | r :: rows' => r ++ sep ++ join sep rows'
  end.

(** The body of the [entries.map] of [exportCSV]; [includes] is a method of
    strings only. *)
Definition csv_row (entry : DocData) : Outcome JsString :=
  match js_or (note entry) (VStr []) with
  | VStr n =>
      let escapedNote :=
        if includes n [comma] || includes n [dquote]
        then [dquote] ++ replace_char_global dquote [dquote; dquote] n ++ [dquote]
        else n in
      Returned (userId entry ++ [comma] ++ date entry ++ [comma]
                ++ ToString (rating entry) ++ [comma] ++ escapedNote)
  | _ => Threw TypeError
  end.

(** [entries.map(f)] for a callback that may throw. *)
Fixpoint map_outcome {A B : Type} (f : A -> Outcome B) (l : list A) : Outcome (list B) :=
  match l with
  | [] => Returned []
  | x :: l' =>
      match f x with
      | Returned y =>
          match map_outcome f l' with
          | Returned ys => Returned (y :: ys)
          | Threw t => Threw t
          end
      | Threw t => Threw t
      end
  end.

(** The text that [exportCSV] builds from the fetched entries. *)
Definition formatCSV (entries : list DocData) : Outcome JsString :=
  match map_outcome csv_row entries with
  | Returned rows => Returned (join [newline] (js "userId,date,rating,note" :: rows))
  | Threw t => Threw t
  end.

(** What [downloadFile] hands to the browser. *)
Record Download : Type := {
  content : JsString;
  filename : JsString;
  mimeType : JsString
}.

Definition exportCSV (resp : option FirestoreError) (col : Collection) : Outcome Download :=
  match getAllEntries resp col with
  | Returned entries =>
      match formatCSV entries with
      | Returned csv =>
          Returned {| content := csv; filename := js "daydicated-2026.csv";
                      mimeType := js "text/csv" |}
      | Threw t => Threw t
      end
  | Threw t => Threw t
  end.

(** ** JSON.stringify(value, null, 2) *)

Definition hex_digit (n : N) : N :=
  (if n <? 10 then 48 + n else 87 + n)%N.

(** [\uXXXX] with lower-case hexadecimal digits. *)
Definition unicode_escape (c : N) : JsString :=
  [92; 117; hex_digit (c / 4096 mod 16); hex_digit (c / 256 mod 16);
   hex_digit (c / 16 mod 16); hex_digit (c mod 16)]%N.

Definition is_leading_surrogate (c : N) : bool := ((55296 <=? c) && (c <=? 56319))%N.
Definition is_trailing_surrogate (c : N) : bool := ((56320 <=? c) && (c <=? 57343))%N.

(** The characters of QuoteJSONString between the quotes: the two-character
    escapes, [\uXXXX] for other control characters and for surrogates that
    are not paired, everything else as it is. *)
Fixpoint quote_chars (s : JsString) : JsString :=
  match s with
  | [] => []
  | c :: s' =>
      if (c =? 8)%N then 92%N :: 98%N :: quote_chars s'
      else if (c =? 9)%N then 92%N :: 116%N :: quote_chars s'
      else if (c =? 10)%N then 92%N :: 110%N :: quote_chars s'
      else if (c =? 12)%N then 92%N :: 102%N :: quote_chars s'
      else if (c =? 13)%N then 92%N :: 114%N :: quote_chars s'
      else if (c =? 34)%N then 92%N :: 34%N :: quote_chars s'
      else if (c =? 92)%N then 92%N :: 92%N :: quote_chars s'
      else if (c <? 32)%N then unicode_escape c ++ quote_chars s'
      else if is_leading_surrogate c then
        match s' with
        | d :: s'' =>
            if is_trailing_surrogate d then c :: d :: quote_chars s''
            else unicode_escape c ++ quote_chars s'
        | [] => unicode_escape c
        end
      else if is_trailing_surrogate c then unicode_escape c ++ quote_chars s'
      else c :: quote_chars s'
  end.

Definition QuoteJSONString (s : JsString) : JsString :=
  [dquote] ++ quote_chars s ++ [dquote].

(** The [gap] of an indentation of 2. *)
Definition gap : JsString := js "  ".

(** SerializeJSONProperty on scalars; [None] is [undefined]. *)
Definition serialize_scalar (v : JsVal) : option JsString :=
  match v with
  | VUndefined => None
  | VNull => Some (js "null")
  | VBool true => Some (js "true")
  | VBool false => Some (js "false")
  | VNum (DNum JNaN) => Some (js "null")
  | VNum (DNum (JInt z)) => Some (Number_toString (JInt z))
  | VNum DNegZero => Some (js "0")
  | VNum (DInf _) => Some (js "null")
  | VStr s => Some (QuoteJSONString s)
  end.

(** The text between the brackets of a non-empty array or object. *)
Definition wrap_items (open close : N) (stepback indent : JsString)
    (partial : list JsString) : JsString :=
  [open] ++ [newline] ++ indent ++ join (comma :: newline :: indent) partial
  ++ [newline] ++ stepback ++ [close].

(** SerializeJSONProperty with SerializeJSONArray and SerializeJSONObject:
    an [undefined] element becomes [null], an [undefined] property is left
    out. *)
Fixpoint SerializeJSONProperty (indent : JsString) (v : JsData) : option JsString :=
  match v with
  | DVal x => serialize_scalar x
  | DArr items =>
      let stepback := indent in
      let indent := indent ++ gap in
      let partial :=
        List.map (fun it => match SerializeJSONProperty indent it with
                            | Some str => str
                            | None => js "null"
                            end) items in
      Some (match partial with
            | [] => js "[]"
            | _ => wrap_items 91 93 stepback indent partial
            end)
  | DObj props =>
      let stepback := indent in
      let indent := indent ++ gap in
      let partial :=
        List.flat_map (fun kv => match kv with
                                 | (k, x) =>
                                     match SerializeJSONProperty indent x with
                                     | Some str => [QuoteJSONString k ++ js ": " ++ str]
                                     | None => []
                                     end
                                 end) props in
      Some (match partial with
            | [] => js "{}"
            | _ => wrap_items 123 125 stepback indent partial
            end)
  end.

Definition JSON_stringify (v : JsData) : option JsString :=
  SerializeJSONProperty [] v.

(** The object that [getAllEntries] builds for an entry. *)
Definition entry_object (e : DocData) : JsData :=
  DObj [ (js "userId", DVal (VStr (userId e))); (js "date", DVal (VStr (date e)));
         (js "rating", DVal (rating e)); (js "note", DVal (note e)) ].

(** The text that [exportJSON] builds from the fetched entries; a Blob part
    that is [undefined] reads [undefined]. *)
Definition formatJSON (entries : list DocData) : JsString :=
  match JSON_stringify (DArr (List.map entry_object entries)) with
  | Some json => json
  | None => js "undefined"
  end.

Definition exportJSON (resp : option FirestoreError) (col : Collection) : Outcome Download :=
  match getAllEntries resp col with
  | Returned entries =>
      Returned {| content := formatJSON entries; filename := js "daydicated-2026.json";
                  mimeType := js "application/json" |}
  | Threw t => Threw t
  end.

(** ** JSON.parse(text) *)

Definition is_json_ws (c : N) : bool :=
  ((c =? 9) || (c =? 10) || (c =? 13) || (c =? 32))%N.

Fixpoint skip_ws (s : JsString) : JsString :=
  match s with
  | c :: s' => if is_json_ws c then skip_ws s' else s
  | [] => []
  end.

Definition hex4 (a b c d : N) : option N :=
  match digit_value 16 a, digit_value 16 b, digit_value 16 c, digit_value 16 d with
  | Some x, Some y, Some z, Some w => Some (((x * 16 + y) * 16 + z) * 16 + w)%N
  | _, _, _, _ => None
  end.

Definition simple_escape (e : N) : option N :=
  (if e =? 34 then Some 34
   else if e =? 92 then Some 92
   else if e =? 47 then Some 47
   else if e =? 98 then Some 8
   else if e =? 102 then Some 12
   else if e =? 110 then Some 10
   else if e =? 114 then Some 13
   else if e =? 116 then Some 9
   else None)%N.

Definition prepend (c : N) (r : ParseResult JsString) : ParseResult JsString :=
  match r with
  | Parsed a rest => Parsed (c :: a) rest
  | SyntaxError => SyntaxError
  | NotModelled => NotModelled
  end.

(** The characters of a string after its opening quote, up to and with the
    closing quote. *)
Fixpoint parse_string_chars (s : JsString) : ParseResult JsString :=
  match s with
  | [] => SyntaxError
  | c :: s' =>
      if (c =? 34)%N then Parsed [] s'
      else if (c =? 92)%N then
        match s' with
        | [] => SyntaxError
        | e :: s'' =>
            if (e =? 117)%N then
              match s'' with
              | h1 :: h2 :: h3 :: h4 :: s4 =>
                  match hex4 h1 h2 h3 h4 with
                  | Some u => prepend u (parse_string_chars s4)
                  | None => SyntaxError
                  end
              | _ => SyntaxError
              end
            else
              match simple_escape e with
              | Some x => prepend x (parse_string_chars s'')
              | None => SyntaxError
              end
        end
      else if (c <? 32)%N then SyntaxError
      else prepend c (parse_string_chars s')
  end.

Definition strip_minus (s : JsString) : Z * JsString :=
  match s with
  | c :: r => if (c =? 45)%N then (-1, r) else (1, s)
  | [] => (1, s)
  end.

(** The digits of an integer numeral: no leading zero; a fraction or an
    exponent after them is not modelled. *)
Definition parse_digits (sign : Z) (s : JsString) : ParseResult JsDouble :=
  let ds := take_digits 10 s in
  let rest := drop (length ds) s in
  match ds with
  | [] => SyntaxError
  | d :: ds' =>
      if (d =? 0)%N && negb (bool_decide (ds' = [])) then SyntaxError
      else
        match rest with
        | c :: _ =>
            if ((c =? 46) || (c =? 101) || (c =? 69))%N then NotModelled
            else Parsed (Number_of_signed sign (Z.of_N (radix_value 10 ds))) rest
        | [] => Parsed (Number_of_signed sign (Z.of_N (radix_value 10 ds))) rest
        end
  end.

(** An integer numeral: an optional minus sign and the digits. *)
Definition parse_number (s : JsString) : ParseResult JsDouble :=
  let '(sign, s1) := strip_minus s in parse_digits sign s1.

(** CreateDataProperty on the property list: a repeated key keeps its place
    and takes the new value. *)
Fixpoint set_prop (props : list (JsString * JsData)) (k : JsString) (v : JsData)
    : list (JsString * JsData) :=
  match props with
  | [] => [(k, v)]
  | (k', v') :: props' =>
      if decide (k' = k) then (k, v) :: props'
      else (k', v') :: set_prop props' k v
  end.

(** The elements of an array after the first bracket, read with [pv]. *)
Fixpoint parse_elements (pv : JsString -> ParseResult JsData) (n : nat)
    (s : JsString) (acc : list JsData) : ParseResult JsData :=
  match n with
  | O => NotModelled
  | S n' =>
      match pv s with
      | Parsed v r =>
          match skip_ws r with
          | c :: r' =>
              if (c =? 44)%N then parse_elements pv n' r' (acc ++ [v])
              else if (c =? 93)%N then Parsed (DArr (acc ++ [v])) r'
              else SyntaxError
          | [] => SyntaxError
          end
      | SyntaxError => SyntaxError
      | NotModelled => NotModelled
      end
  end.

(** The members of an object after the first brace, read with [pv]. *)
Fixpoint parse_members (pv : JsString -> ParseResult JsData) (n : nat)
    (s : JsString) (acc : list (JsString * JsData)) : ParseResult JsData :=
  match n with
  | O => NotModelled
  | S n' =>
      match skip_ws s with
      | c :: s1 =>
          if (c =? 34)%N then
            match parse_string_chars s1 with
            | Parsed k r =>
                match skip_ws r with
                | c1 :: r1 =>
                    if (c1 =? 58)%N then
                      match pv r1 with
                      | Parsed v r2 =>
                          match skip_ws r2 with
                          | c2 :: r3 =>
                              if (c2 =? 44)%N then parse_members pv n' r3 (set_prop acc k v)
                              else if (c2 =? 125)%N then Parsed (DObj (set_prop acc k v)) r3
                              else SyntaxError
                          | [] => SyntaxError
                          end
                      | SyntaxError => SyntaxError
                      | NotModelled => NotModelled
                      end
                    else SyntaxError
                | [] => SyntaxError
                end
            | SyntaxError => SyntaxError
            | NotModelled => NotModelled
            end
          else SyntaxError
      | [] => SyntaxError
      end
  end.

Definition is_digit (c : N) : bool := ((48 <=? c) && (c <=? 57))%N.

(** A JSON value, with [fuel] bounding the nesting and the number of
    elements of each array and object. *)
Fixpoint parse_value (fuel : nat) (s : JsString) : ParseResult JsData :=
  match fuel with
  | O => NotModelled
  | S fuel' =>
      match skip_ws s with
      | [] => SyntaxError
      | c :: s' =>
          if (c =? 123)%N then
            match skip_ws s' with
            | c1 :: r =>
                if (c1 =? 125)%N then Parsed (DObj []) r
                else parse_members (parse_value fuel') fuel' (c1 :: r) []
            | [] => SyntaxError
            end
          else if (c =? 91)%N then
            match skip_ws s' with
            | c1 :: r =>
                if (c1 =? 93)%N then Parsed (DArr []) r
                else parse_elements (parse_value fuel') fuel' (c1 :: r) []
            | [] => SyntaxError
            end
          else if (c =? 34)%N then
            match parse_string_chars s' with
            | Parsed str r => Parsed (DVal (VStr str)) r
            | SyntaxError => SyntaxError
            | NotModelled => NotModelled
            end
          else if (c =? 45)%N || is_digit c then
            match parse_number (c :: s') with
            | Parsed n r => Parsed (DVal (VNum n)) r
            | SyntaxError => SyntaxError
            | NotModelled => NotModelled
            end
          else if starts_with (js "true") (c :: s') then
            Parsed (DVal (VBool true)) (drop 4 (c :: s'))
          else if starts_with (js "false") (c :: s') then
            Parsed (DVal (VBool false)) (drop 5 (c :: s'))
          else if starts_with (js "null") (c :: s') then
            Parsed (DVal VNull) (drop 4 (c :: s'))
          else SyntaxError
      end
  end.

(** [JSON.parse(text)]: one value and nothing but white space after it. *)
Definition JSON_parse (text : JsString) : ParseResult JsData :=
  match parse_value (S (length text)) text with
  | Parsed v rest =>
      match skip_ws rest with
      | [] => Parsed v []
      | _ :: _ => SyntaxError
      end
  | SyntaxError => SyntaxError
  | NotModelled => NotModelled
  end.

(** ** Notions used by the statements *)

(** The cache entry that [loadUserEntries] builds from a document. *)
Definition cache_entry_of (x : JsString * DocData) : CacheEntry :=
  {| id := x.1; c_rating := rating x.2; c_note := note x.2 |}.

(** Every document is stored under the key of its owner and date, as
    [saveEntry] writes it. *)
Definition keyed_store (col : Collection) : Prop :=
  forall k doc, col !! k = Some doc -> k = docKey (userId doc) (date doc).

(** What [login], [logout] and the auth-state callback do to the state of
    [auth.js]: the actor changes, nothing else. *)
Definition set_auth (a : Auth) (st : App) : App :=
  {| auth := a; firestore := firestore st;
     currentEntries := currentEntries st; viewingUserId := viewingUserId st |}.

(** The state of the modules when they are loaded. *)
Definition initial (st : App) : Prop :=
  currentEntries st = ∅ /\ viewingUserId st = None.

(** One operation that succeeds: a load, a save, or a change of actor.
    Each operation runs from its call to the end of its await before the
    next one starts. *)
Inductive step : App -> App -> Prop :=
| step_load st owner :
    step st (loadUserEntries owner None st).2
| step_save st d r n :
    (saveEntry d r n None st).1 = Returned tt ->
    step st (saveEntry d r n None st).2
| step_auth st a :
    step st (set_auth a st).

(** The actor is the owner whose calendar is shown: the condition under
    which the controller makes the calendar editable. *)
Definition actor_is_viewed (st : App) : Prop :=
  exists user, getCurrentUser (auth st) = Some user
               /\ viewingUserId st = Some (uid user).

(** The operations as the controller issues them, one after another: a
    save only while the actor views their own calendar. *)
Inductive gated_step : App -> App -> Prop :=
| gated_load st owner :
    gated_step st (loadUserEntries owner None st).2
| gated_save st d r n :
    actor_is_viewed st ->
    (saveEntry d r n None st).1 = Returned tt ->
    gated_step st (saveEntry d r n None st).2
| gated_auth st a :
    gated_step st (set_auth a st).

(** Every cache entry carries the document id of the viewed owner and of
    the date it is stored at. *)
Definition cache_owned (st : App) : Prop :=
  forall d e, currentEntries st !! d = Some e ->
    exists owner, viewingUserId st = Some owner /\ id e = docKey owner d.

(** The Gregorian rule for leap years. *)
Definition is_leap_year (y : Z) : bool :=
  (y mod 4 =? 0) && (negb (y mod 100 =? 0) || (y mod 400 =? 0)).

(** The Gregorian length of month [m] (0 is January) of year [y]. *)
Definition gregorian_days_in_month (y m : Z) : Z :=
  match m with
  | 1 => if is_leap_year y then 29 else 28
  | 3 | 5 | 8 | 10 => 30
  | _ => 31
  end.

(** Zeller's congruence for the Gregorian calendar, for day [q] of month [m]
    (0 is January) of year [y], turned so that 0 is Sunday. *)
Definition zeller_weekday (y m q : Z) : Z :=
  let mz := if m <? 2 then m + 13 else m + 1 in
  let yz := if m <? 2 then y - 1 else y in
  let K := yz mod 100 in
  let J := yz / 100 in
  (q + (13 * (mz + 1)) / 5 + K + K / 4 + J / 4 + 5 * J + 6) mod 7.

(** What the date helpers need of the host's time zone: offsets are shorter
    than a day, and local midnight of every day is an instant of that day
    (no day is skipped, no change of offset swallows midnight into another
    day). *)
Definition timezone_regular : Prop :=
  (forall t b, Z.abs (LocalTZA t b) < msPerDay)
  /\ (forall d, Day (LocalTime (UTC (d * msPerDay))) = d).

(** The number of the day that [new Date(y, m, dt)] names. *)
Definition day_number (y m dt : Z) : Z :=
  DayFromYear (y + m / 12)
  + month_start (m mod 12) (if DaysInYear (y + m / 12) =? 366 then 1 else 0)
  + dt - 1.

(** The weekday of the first day of month [m] of year [y], from the day
    count of the Date algorithms. *)
Definition first_weekday (y m : Z) : Z :=
  (DayFromYear y + month_start m (if DaysInYear y =? 366 then 1 else 0) + 4) mod 7.

(** The day count and Zeller's congruence agree on every month of one cycle
    of 400 years. *)
Definition weekday_cycle_agrees : bool :=
  forallb (fun y => forallb (fun m => first_weekday y m =? zeller_weekday y m 1)
                            (seqZ 0 12))
          (seqZ 0 400).

(** [field] is the note [n] as a CSV field: wrapped in double quotes, with
    every double quote of the note doubled, exactly when the note has a
    comma or a double quote, and the note itself otherwise; in both cases
    the characters other than double quotes, line breaks among them, are
    those of the note, in order. *)
Definition csv_field_of (n field : JsString) : Prop :=
  (comma ∈ n \/ dquote ∈ n ->
     field = [dquote] ++ (n ≫= fun c => if decide (c = dquote) then [c; c] else [c])
             ++ [dquote])
  /\ (comma ∉ n -> dquote ∉ n -> field = n)
  /\ filter (fun c => c <> dquote) field = filter (fun c => c <> dquote) n.

(** [row] is the CSV row of [entry]. *)
Definition csv_row_of (entry : DocData) (row : JsString) : Prop :=
  exists n field,
    note entry = VStr n
    /\ row = userId entry ++ [comma] ++ date entry ++ [comma]
             ++ ToString (rating entry) ++ [comma] ++ field
    /\ csv_field_of n field.

(** What follows a value in the text that [JSON.stringify] writes with an
    indentation: a comma or a line break. *)
Definition separator (c : N) : Prop := c = comma \/ c = newline.

(** The scalars that JSON text represents as they are: [null], booleans,
    strings, and the integers that print in positional notation. *)
Definition json_faithful (v : JsVal) : Prop :=
  match v with
  | VUndefined => False
  | VNum (DNum JNaN) | VNum DNegZero | VNum (DInf _) => False
  | VNum (DNum (JInt z)) => Z.abs z < 2 ^ 53
  | VNull | VBool _ | VStr _ => True
  end.

(** The text of a member of an object: the quoted key, a colon, a space and
    the text of the value. *)
Definition member_text (k text : JsString) : JsString :=
  QuoteJSONString k ++ js ": " ++ text.

(** An entry whose rating and note are scalars that JSON represents. *)
Definition entry_faithful (e : DocData) : Prop :=
  json_faithful (rating e) /\ json_faithful (note e).

(** The text of an element of an array. *)
Definition element_text (indent : JsString) (v : JsData) : JsString :=
  match SerializeJSONProperty indent v with
  | Some str => str
  | None => js "null"
  end.

(** A run of JSON white space. *)
Definition blank (w : JsString) : Prop := Forall (fun c => is_json_ws c = true) w.

(** A member with its key, its value and the text of the value. *)
Definition member_ok (m : JsString * JsVal * JsString) : Prop :=
  json_faithful m.1.2 /\ serialize_scalar m.1.2 = Some m.2.

Definition member_texts (ms : list (JsString * JsVal * JsString)) : list JsString :=
  List.map (fun m => member_text m.1.1 m.2) ms.

Definition add_members (acc : list (JsString * JsData))
    (ms : list (JsString * JsVal * JsString)) : list (JsString * JsData) :=
  foldl (fun a m => set_prop a m.1.1 (DVal m.1.2)) acc ms.

(** The members of the object of an entry, with the texts of the values. *)
Definition entry_members (e : DocData) (tr tn : JsString)
    : list (JsString * JsVal * JsString) :=
  [ (js "userId", VStr (userId e), QuoteJSONString (userId e));
    (js "date", VStr (date e), QuoteJSONString (date e));
    (js "rating", rating e, tr);
    (js "note", note e, tn) ].

(** The key at which an assignment sets the prototype of an object. *)
Definition proto_key : JsString := js "__proto__".

(** The code units of WhiteSpace and LineTerminator, one by one: tab, line
    feed, vertical tab, form feed, carriage return, space, no-break space,
    the space separators of Unicode, line and paragraph separator, and the
    byte order mark. *)
Definition white_space_code_units : list N :=
  [9; 10; 11; 12; 13; 32; 160; 5760; 8192; 8193; 8194; 8195; 8196; 8197; 8198;
   8199; 8200; 8201; 8202; 8232; 8233; 8239; 8287; 12288; 65279]%N.

(** The falsy values: [undefined], [null], [false], the two zeros, [NaN] and
    the empty string. *)
Definition falsy_values : list JsVal :=
  [VUndefined; VNull; VBool false; VNum (JInt 0); VNum DNegZero; VNum JNaN; VStr []].

(** The signs that a rating text can carry. *)
Definition sign_texts : list JsString := [[]; js "+"; js "-"].

(** The integer that a sign and decimal digits denote, for digits with a
    value below 2^53. *)
Definition integer_read (sign : JsString) (ds : list N) : JsDouble :=
  let v := Z.of_N (digits_value ds) in
  if bool_decide (sign = js "-")
  then (if v =? 0 then DNegZero else JInt (- v))
  else JInt v.

(** What may follow the digits of a decimal numeral: nothing, or a
    character that is no decimal digit and that does not make a [0x]
    prefix of a single zero. *)
Definition numeral_ends (ds : list N) (rest : JsString) : Prop :=
  match rest with
  | [] => True
  | c :: _ => ~ (48 <= c <= 57)%N /\ (ds = [0%N] -> c <> 120%N /\ c <> 88%N)
  end.

(** A text that has no numeral after the blanks and the sign: it is over,
    or goes on with a character that is no digit, and after no sign with
    one that is no blank and no sign either. *)
Definition no_numeral (sign rest : JsString) : Prop :=
  match rest with
  | [] => True
  | c :: _ =>
      ~ (48 <= c <= 57)%N
      /\ (sign = [] -> (c ∉ white_space_code_units) /\ c <> 43%N /\ c <> 45%N)
  end.

(** ** Concrete hosts, actors and states *)

(** A host that prints every large number as [1e+21]. *)
Definition example_big_number_to_string (z : Z) : JsString := js "1e+21".

(** A host two hours east of Greenwich all year round. *)
Definition example_LocalTZA (t : Z) (isUTC : bool) : Z := 7200000.


Definition u1 : User := {| uid := js "u1"; email := js "u1@example.org" |}.

(** The state right after [u1] has logged in. *)
Definition u1_logged_in : App :=
  {| auth := {| currentUser := Some u1; sdk_currentUser := Some u1 |};
     firestore := ∅; currentEntries := ∅; viewingUserId := None |}.

(** A store with one document of [u1] and one of [u2], and [u1] logged in. *)
Definition two_owner_store : Collection :=
  <[docKey (js "u1") (js "2026-01-01") :=
      {| userId := js "u1"; date := js "2026-01-01";
         rating := VNum (JInt 5); note := VStr [] |}]>
    (<[docKey (js "u2") (js "2026-01-02") :=
         {| userId := js "u2"; date := js "2026-01-02";
            rating := VNum (JInt 3); note := VStr (js "ok, fine") |}]> ∅).

Definition u1_over_two_owners : App :=
  {| auth := {| currentUser := Some u1; sdk_currentUser := Some u1 |};
     firestore := two_owner_store; currentEntries := ∅; viewingUserId := None |}.

(** The two entries of the export scenario. *)
Definition export_scenario : list DocData :=
  [ {| userId := js "u1"; date := js "2026-01-01";
       rating := VNum (JInt 5); note := VStr [] |};
    {| userId := js "u2"; date := js "2026-01-02";
       rating := VNum (JInt 3); note := VStr (js "ok, fine") |} ].

(** An entry saved with a rating that has no digits. *)
Definition nan_entry : DocData :=
  {| userId := js "u1"; date := js "2026-01-01"; rating := VNum JNaN; note := VStr [] |}.

(** * The rest of the modules *)

(** ** calendar.js: date strings *)

Definition Date_getFullYear (tv : option Z) : JsNum :=
  match tv with
  | Some t => JInt (YearFromTime (LocalTime t))
  | None => JNaN
  end.

Definition Date_getMonth (tv : option Z) : JsNum :=
  match tv with
  | Some t => JInt (MonthFromTime (LocalTime t))
  | None => JNaN
  end.

(** [n + 1] on numbers. *)
Definition js_succ (n : JsNum) : JsNum :=
  match n with
  | JInt z => JInt (z + 1)
  | JNaN => JNaN
  end.

(** [s.padStart(targetLength, fill)]: the fill is repeated and cut to the
    missing length. *)
Definition padStart (targetLength : nat) (fill s : JsString) : JsString :=
  if (targetLength <=? length s)%nat then s
  else
    match fill with
    | [] => s
    | _ :: _ =>
        take (targetLength - length s) (concat (replicate (targetLength - length s) fill))
        ++ s
    end.

Definition formatDate (date : option Z) : JsString :=
  let year := Date_getFullYear date in
  let month := padStart 2 (js "0") (Number_toString (js_succ (Date_getMonth date))) in
  let day := padStart 2 (js "0") (Number_toString (Date_getDate date)) in
  Number_toString year ++ js "-" ++ month ++ js "-" ++ day.

(** Two decimal digits. *)
Definition two_digits (n : Z) : JsString :=
  [digit_char (Z.to_N (n / 10)); digit_char (Z.to_N (n mod 10))].

(** The date string of day [d] of month [m] (0 is January) of year [y]. *)
Definition iso_date (y m d : Z) : JsString :=
  decimal_Z y ++ js "-" ++ two_digits (m + 1) ++ js "-" ++ two_digits d.

(** Equality of strings, decided by comparison. *)
Definition str_eqb (a b : JsString) : bool :=
  match str_compare a b with
  | Eq => true
  | _ => false
  end.

(** ** calendar.js: the calendar grid

    An element is its class tokens, the properties assigned to it (in the
    order of the assignments, under the names the source uses), the
    arguments that its click listener passes to [onDayClick], and its
    children. *)

Definition YEAR : Z := 2026.

Definition MONTH_NAMES : list JsString :=
  [js "January"; js "February"; js "March"; js "April"; js "May"; js "June";
   js "July"; js "August"; js "September"; js "October"; js "November";
   js "December"].

Definition DAY_NAMES : list JsString :=
  [js "Sun"; js "Mon"; js "Tue"; js "Wed"; js "Thu"; js "Fri"; js "Sat"].

#[warnings="-register-all"]
Inductive Elem : Type :=
| Div (classes : list JsString)
      (props : list (JsString * JsString))
      (click : option (JsString * option CacheEntry))
      (children : list Elem).

Definition el_classes (e : Elem) : list JsString := match e with Div c _ _ _ => c end.
Definition el_props (e : Elem) : list (JsString * JsString) := match e with Div _ p _ _ => p end.
Definition el_click (e : Elem) : option (JsString * option CacheEntry) :=
  match e with Div _ _ k _ => k end.
Definition el_children (e : Elem) : list Elem := match e with Div _ _ _ ch => ch end.

(** What building the grid can throw. *)
Inductive RenderThrown : Type :=
| RangeError
| DOMSyntaxError
| InvalidCharacterError
| NotAFunction.

(** ToIntegerOrInfinity(StringToNumber(s)) with [None] for an infinity, and
    the longest string the engine makes: supplied by the host. *)
Variable StringToIntegerOrInfinity : JsString -> option Z.
Variable max_string_length : Z.

(** ToIntegerOrInfinity(ToNumber(v)); [None] is an infinity. *)
Definition ToIntegerOrInfinity (v : JsVal) : option Z :=
  match v with
  | VUndefined | VNull => Some 0
  | VBool b => Some (if b then 1 else 0)
  | VNum (DNum JNaN) => Some 0
  | VNum (DNum (JInt z)) => Some z
  | VNum DNegZero => Some 0
  | VNum (DInf _) => None
  | VStr s => StringToIntegerOrInfinity s
  end.

(** [s.repeat(count)]. *)
Definition String_repeat (s : JsString) (count : JsVal) : RenderThrown + JsString :=
  match ToIntegerOrInfinity count with
  | None => inl RangeError
  | Some n =>
      if n <? 0 then inl RangeError
      else if max_string_length <? n * Z.of_nat (length s) then inl RangeError
      else inr (concat (replicate (Z.to_nat n) s))
  end.

Definition is_ascii_whitespace (c : N) : bool :=
  ((c =? 9) || (c =? 10) || (c =? 12) || (c =? 13) || (c =? 32))%N.

(** [element.classList.add(token)] on the class tokens. *)
Definition classList_add (classes : list JsString) (token : JsString)
    : RenderThrown + list JsString :=
  match token with
  | [] => inl DOMSyntaxError
  | _ :: _ =>
      if existsb is_ascii_whitespace token then inl InvalidCharacterError
      else if bool_decide (token ∈ classes) then inr classes
      else inr (classes ++ [token])
  end.

(** The star of the source file, as its characters are stored in it. *)
Definition star_glyph : JsString := [226; 732; 8230]%N.

Definition render_bind {A B : Type} (x : RenderThrown + A) (k : A -> RenderThrown + B)
    : RenderThrown + B :=
  match x with
  | inl e => inl e
  | inr a => k a
  end.

(** One turn of the loop over the days of [renderMonth], up to
    [currentWeek.appendChild(dayCell)]: the cell of a day. *)
Definition day_cell (month day : Z) (isEditable : bool) (st : App) : RenderThrown + Elem :=
  let dateStr := formatDate (new_Date YEAR month day) in
  let entry := currentEntries st !! dateStr in
  let classes0 := [js "day-cell"; js "p-1"; js "border"; js "rounded"; js "text-center"] in
  render_bind
    (match entry with
     | Some e =>
         if ToBoolean (c_rating e)
         then classList_add classes0 (js "rating-" ++ ToString (c_rating e))
         else inr classes0
     | None => inr classes0
     end)
    (fun classes1 =>
  render_bind
    (if isEditable then classList_add classes1 (js "editable") else inr classes1)
    (fun classes2 =>
  let props := (js "dataset.date", dateStr)
               :: (if isEditable then [(js "style.cursor", js "pointer")] else []) in
  let click := if isEditable then Some (dateStr, entry) else None in
  let dayNum := Div [js "fw-bold"; js "small"]
                    [(js "textContent", Number_toString (JInt day))] None [] in
  render_bind
    (match entry with
     | Some e =>
         if ToBoolean (c_rating e)
         then render_bind (String_repeat star_glyph (c_rating e))
                (fun stars =>
                   inr [Div [js "rating-stars"; js "small"]
                            [(js "textContent", stars)] None []])
         else inr []
     | None => inr []
     end)
    (fun ratingDisplay =>
  render_bind
    (match entry with
     | Some e =>
         if ToBoolean (c_note e)
         then match c_note e with
              | VStr s =>
                  inr [Div [js "text-muted"; js "small"; js "text-truncate"]
                           [(js "style.fontSize", js "0.65rem");
                            (js "textContent", take 10 s);
                            (js "title", s)] None []]
              | _ => inl NotAFunction
              end
         else inr []
     | None => inr []
     end)
    (fun notePreview =>
  inr (Div [js "col"] [] None
           [Div classes2 props click (dayNum :: ratingDisplay ++ notePreview)]))))).

Definition week_row (cells : list Elem) : Elem :=
  Div [js "row"; js "g-1"; js "mb-1"] [] None cells.

Definition empty_cell : Elem := Div [js "col"] [] None [].

(** [(firstDay + day) % 7 === 0 && day < daysInMonth]. *)
Definition starts_new_week (firstDay daysInMonth : JsNum) (day : Z) : bool :=
  match firstDay, daysInMonth with
  | JInt f, JInt n => (Z.rem (f + day) 7 =? 0) && (day <? n)
  | _, _ => false
  end.

(** The loop over the days: [weeks] are the rows appended to the body so
    far, [cur] the cells of [currentWeek]. *)
Fixpoint days_loop (cell : Z -> RenderThrown + Elem) (firstDay daysInMonth : JsNum)
    (days : list Z) (weeks cur : list Elem) : RenderThrown + (list Elem * list Elem) :=
  match days with
  | [] => inr (weeks, cur)
  | day :: days' =>
      match cell day with
      | inl e => inl e
      | inr c =>
          if starts_new_week firstDay daysInMonth day
          then days_loop cell firstDay daysInMonth days' (weeks ++ [week_row (cur ++ [c])]) []
          else days_loop cell firstDay daysInMonth days' weeks (cur ++ [c])
      end
  end.

(** The values of [day] for which [day <= daysInMonth], from 1. *)
Definition days_upto (daysInMonth : JsNum) : list Z :=
  match daysInMonth with
  | JInt n => seqZ 1 n
  | JNaN => []
  end.

(** [MONTH_NAMES[month]] in a template. *)
Definition month_name (month : Z) : JsString :=
  if month <? 0 then js "undefined"
  else match MONTH_NAMES !! Z.to_nat month with
       | Some name => name
       | None => js "undefined"
       end.

(** [renderMonth(month, container, isEditable, onDayClick)]: the card that
    is appended to the container. *)
Definition renderMonth (month : Z) (isEditable : bool) (st : App) : RenderThrown + Elem :=
  let daysInMonth := getDaysInMonth month YEAR in
  let firstDay := getFirstDayOfMonth month YEAR in
  let header :=
    Div [js "card-header"; js "bg-primary"; js "text-white"]
        [(js "innerHTML",
          js "<h5 class=" ++ [dquote] ++ js "mb-0" ++ [dquote] ++ js ">"
          ++ month_name month ++ js " " ++ Number_toString (JInt YEAR) ++ js "</h5>")]
        None [] in
  let dayNamesRow :=
    Div [js "row"; js "g-1"; js "mb-1"] [] None
        (List.map (fun day => Div [js "col"; js "text-center"; js "fw-bold"; js "small"]
                                  [(js "textContent", day)] None [])
                  DAY_NAMES) in
  render_bind
    (days_loop (fun day => day_cell month day isEditable st) firstDay daysInMonth
       (days_upto daysInMonth) [] (replicate (leading_blanks firstDay) empty_cell))
    (fun '(weeks, cur) =>
       let remainingCells := 7 - Z.of_nat (length cur) in
       let cur' := cur ++ (if remainingCells <? 7
                           then replicate (Z.to_nat remainingCells) empty_cell
                           else []) in
       let weeks' := if (0 <? Z.of_nat (length cur')) then weeks ++ [week_row cur'] else weeks in
       inr (Div [js "card"; js "mb-4"] [] None
                [header; Div [js "card-body"; js "p-2"] [] None (dayNamesRow :: weeks')])).

(** The loop over the months of [renderCalendar]. *)
Fixpoint months_loop (months : list Z) (isEditable : bool) (st : App) (cols : list Elem)
    : RenderThrown + list Elem :=
  match months with
  | [] => inr cols
  | month :: months' =>
      match renderMonth month isEditable st with
      | inl e => inl e
      | inr card =>
          months_loop months' isEditable st
            (cols ++ [Div [js "col-12"; js "col-md-6"; js "col-lg-4"] [] None [card]])
      end
  end.

(** [renderCalendar(container, isEditable, onDayClick)]: what it throws, if
    it does, and the children of the container afterwards; the container is
    emptied first and gets the row of the months last. *)
Definition renderCalendar (isEditable : bool) (st : App)
    : option RenderThrown * list Elem :=
  match months_loop (seqZ 0 12) isEditable st [] with
  | inl e => (Some e, [])
  | inr cols => (None, [Div [js "row"] [] None cols])
  end.


(** ** Notions used in the statements about the grid *)

(** The arguments that the click listeners of an element and of the
    elements below it pass to [onDayClick], in document order. *)
Fixpoint listeners (e : Elem) : list (JsString * option CacheEntry) :=
  match e with
  | Div _ _ click children =>
      match click with Some a => [a] | None => [] end
      ++ concat (List.map listeners children)
  end.

(** A row of the grid with seven cells. *)
Definition full_week (w : Elem) : Prop :=
  w = week_row (el_children w) /\ length (el_children w) = 7%nat.

(** An entry that a day cell can show: the rating is falsy or a positive
    integer whose stars fit in a string, the note is falsy or a string. *)
Definition presentable (e : CacheEntry) : Prop :=
  (ToBoolean (c_rating e) = false
   \/ exists z, c_rating e = VNum (JInt z) /\ 0 < z < 2 ^ 53
                /\ z * 3 <= max_string_length)
  /\ (ToBoolean (c_note e) = false \/ exists s, c_note e = VStr s).

(** The days of [YEAR] in order, each with its date string and the cached
    entry of that date. *)
Definition day_listeners (st : App) : list (JsString * option CacheEntry) :=
  concat (List.map
            (fun m => List.map (fun d => (iso_date YEAR m d,
                                          currentEntries st !! iso_date YEAR m d))
                               (seqZ 1 (gregorian_days_in_month YEAR m)))
            (seqZ 0 12)).

(** ** calendar.js: the owners *)

Definition id_leb (x y : JsString * DocData) : bool :=
  match str_compare x.1 y.1 with
  | Gt => false
  | _ => true
  end.

Definition id_le (x y : JsString * DocData) : Prop := Is_true (id_leb x y).

(** [getDocs(entriesRef)], a query without a filter or an order: the
    documents come in the order of their ids. *)
Definition getDocs_collection (resp : option FirestoreError) (col : Collection)
    : FirestoreError + list (JsString * DocData) :=
  match resp with
  | Some e => inl e
  | None => inr (merge_sort id_le (map_to_list col))
  end.

(** [userIds.add(v)]: a Set keeps its values in the order of their first
    insertion, and [Array.from] lists them in that order. *)
Definition Set_add (s : list JsString) (v : JsString) : list JsString :=
  if bool_decide (v ∈ s) then s else s ++ [v].

Definition getAllUsers (resp : option FirestoreError) (col : Collection)
    : Outcome (list JsString) :=
  match getDocs_collection resp col with
  | inr snapshot => Returned (foldl (fun s x => Set_add s (userId x.2)) [] snapshot)
  | inl e => Threw (Rejected e)
  end.

(** ** auth.js *)

(** What the Authentication SDK rejects a call with. *)
Inductive AuthError : Type :=
| AuthFailure (code : JsString).

(** [login(email, password)]: [resp] is what [signInWithEmailAndPassword]
    settles with, [sdk] is [auth.currentUser] of the SDK afterwards. The
    result is the user, or what is thrown. *)
Definition login (resp : AuthError + User) (sdk : option User) (a : Auth)
    : (AuthError + User) * Auth :=
  match resp with
  | inr user => (inr user, {| currentUser := Some user; sdk_currentUser := sdk |})
  | inl e => (inl e, {| currentUser := currentUser a; sdk_currentUser := sdk |})
  end.

(** [logout()]: [resp] is the rejection of [signOut], if it rejects. *)
Definition logout (resp : option AuthError) (sdk : option User) (a : Auth)
    : option AuthError * Auth :=
  match resp with
  | None => (None, {| currentUser := None; sdk_currentUser := sdk |})
  | Some e => (Some e, {| currentUser := currentUser a; sdk_currentUser := sdk |})
  end.

(** The observer that [onAuthChange] registers, called with [user]. *)
Definition auth_state_changed (user sdk : option User) (a : Auth) : Auth :=
  {| currentUser := user; sdk_currentUser := sdk |}.

Definition isLoggedIn (a : Auth) : bool :=
  match getCurrentUser a with
  | Some _ => true
  | None => false
  end.

(** ** app.js: the controller

    The handlers are modelled without other handlers running between their
    awaits. *)

(** [s.trim()]. *)
Definition trim (s : JsString) : JsString := rev (trim_start (rev (trim_start s))).

(** What a handler catches: the error of a module, or one of the grid. *)
Abbreviation Caught := (Thrown + RenderThrown)%type.

(** [displayCalendar(userId)]: what it throws, if it does, the state of the
    modules and the children of [calendarContainer] afterwards. *)
Definition displayCalendar (userId : JsString) (resp : option FirestoreError)
    (st : App) (container : list Elem) : option Caught * App * list Elem :=
  match loadUserEntries userId resp st with
  | (Threw t, st') => (Some (inl t), st', container)
  | (Returned _, st') =>
      let isEditable :=
        match getCurrentUser (auth st') with
        | Some currentUser => bool_decide (uid currentUser = userId)
        | None => false
        end in
      match renderCalendar isEditable st' with
      | (Some e, children) => (Some (inr e), st', children)
      | (None, children) => (None, st', children)
      end
  end.

(** [handleEditSubmit(e)] with the date of the modal and the values of the
    two inputs: what the [catch] block gets, if anything, the state and the
    children of [calendarContainer] afterwards. *)
Definition handleEditSubmit (date ratingValue noteValue : JsString)
    (resp_save resp_load : option FirestoreError)
    (st : App) (container : list Elem) : option Caught * App * list Elem :=
  match saveEntry date (VStr ratingValue) (VStr (trim noteValue)) resp_save st with
  | (Threw t, st') => (Some (inl t), st', container)
  | (Returned _, st') =>
      match getCurrentUser (auth st') with
      | Some currentUser => displayCalendar (uid currentUser) resp_load st' container
      | None => (Some (inl TypeError), st', container)
      end
  end.

(** An option of the user selector: its value, its text, and whether the
    code has set [selected]. *)
Record SelectOption : Type := {
  o_value : JsString;
  o_text : JsString;
  o_selected : bool
}.

(** [loadUserSelector()]: the options of [userSelector] afterwards. A
    rejection is logged and not rethrown. *)
Definition loadUserSelector (resp : option FirestoreError) (st : App)
    (options : list SelectOption) : list SelectOption :=
  match getAllUsers resp (firestore st) with
  | Threw _ => options
  | Returned users =>
      let currentUser := getCurrentUser (auth st) in
      {| o_value := []; o_text := js "Select a user..."; o_selected := false |}
      :: match currentUser with
         | Some u => [{| o_value := uid u; o_text := email u ++ js " (You)";
                         o_selected := true |}]
         | None => []
         end
      ++ concat (List.map
           (fun userObj : JsString =>
              let uid' := userObj in
              let differs := match currentUser with
                             | Some u => negb (bool_decide (uid' = uid u))
                             | None => true
                             end in
              if differs
              then [{| o_value := uid'; o_text := take 8 uid' ++ js "...";
                       o_selected := false |}]
              else [])
           users)
  end.

(** [handleAuthStateChange(user)]: the state, the children of
    [calendarContainer] and the options of [userSelector] afterwards. What
    the awaits throw is logged and reported, not rethrown. *)
Definition handleAuthStateChange (user : option User)
    (resp_users resp_load : option FirestoreError)
    (st : App) (container : list Elem) (options : list SelectOption)
    : App * list Elem * list SelectOption :=
  match user with
  | Some u =>
      let options' := loadUserSelector resp_users st options in
      let '(_, st', tree) := displayCalendar (uid u) resp_load st container in
      (st', tree, options')
  | None => (st, [], options)
  end.

(** The observer that [init] registers with [onAuthChange], called by the
    SDK with [user]: the module variable is set, then the handler runs. *)
Definition on_auth_state (user sdk : option User)
    (resp_users resp_load : option FirestoreError)
    (st : App) (container : list Elem) (options : list SelectOption)
    : App * list Elem * list SelectOption :=
  handleAuthStateChange user resp_users resp_load
    (set_auth (auth_state_changed user sdk (auth st)) st) container options.

(** ** Notions used in the statements about the modules together *)

(** The cache is what a load of the viewed owner would fetch. *)
Definition cache_synced (st : App) : Prop :=
  exists owner, viewingUserId st = Some owner
    /\ currentEntries st = currentEntries (loadUserEntries owner None st).2.

(** The order of the export: by date. *)
Definition date_le (a b : DocData) : Prop := str_compare (date a) (date b) <> Gt.

(** The owners of the documents of a collection. *)
Definition is_owner (col : Collection) (u : JsString) : Prop :=
  exists k doc, col !! k = Some doc /\ userId doc = u.

(** ** Hosts and states for the instances of the grid *)

Definition example_StringToIntegerOrInfinity (s : JsString) : option Z := None.

Definition example_max_string_length : Z := 1000.

(** [u1] viewing their own calendar, with three stars on 14 February. *)
Definition u1_with_entry : App :=
  {| auth := {| currentUser := Some u1; sdk_currentUser := Some u1 |};
     firestore :=
       <[docKey (js "u1") (js "2026-02-14") :=
           {| userId := js "u1"; date := js "2026-02-14";
              rating := VNum (JInt 3); note := VStr (js "a long walk by the sea") |}]> ∅;
     currentEntries :=
       <[js "2026-02-14" :=
           {| id := js "u1_2026-02-14"; c_rating := VNum (JInt 3);
              c_note := VStr (js "a long walk by the sea") |}]> ∅;
     viewingUserId := Some (js "u1") |}.

Definition underscore : N := 95.

(** A note that is neither falsy nor a string: it has no [includes]. *)
Definition note_without_includes (v : JsVal) : Prop :=
  ToBoolean v = true /\ forall s, v <> VStr s.
(** * Properties *)

(** The host is irrelevant to pure arithmetic. *)
Ltac forget_host := try clear big_number_to_string; try clear LocalTZA.

(** Linear arithmetic with the quotients and remainders of the goal named. *)
Ltac div_lia := forget_host; Z.div_mod_to_equations; lia.

(** ** The entry cache *)

Lemma saveEntry_no_actor d r n resp st :
  getCurrentUser (auth st) = None ->
  saveEntry d r n resp st
  = (Threw (JsError (js "Must be logged in to save entries")), st).
Proof. intros H. unfold saveEntry. by rewrite H. Qed.

Lemma saveEntry_rejected d r n e st user :
  getCurrentUser (auth st) = Some user ->
  saveEntry d r n (Some e) st = (Threw (Rejected e), st).
Proof. intros H. unfold saveEntry. by rewrite H. Qed.

Lemma saveEntry_resolved d r n st user :
  getCurrentUser (auth st) = Some user ->
  saveEntry d r n None st
  = (Returned tt,
     {| auth := auth st;
        firestore :=
          <[docKey (uid user) d :=
              {| userId := uid user; date := d;
                 rating := VNum (parseInt r); note := js_or n (VStr []) |}]>
            (firestore st);
        currentEntries :=
          <[d := {| id := docKey (uid user) d; c_rating := VNum (parseInt r);
                    c_note := js_or n (VStr []) |}]> (currentEntries st);
        viewingUserId := viewingUserId st |}).
Proof. intros H. unfold saveEntry. by rewrite H. Qed.

(** A call of [saveEntry] returns exactly when there is an actor and the
    write resolves. *)
Lemma saveEntry_returns_iff d r n resp st :
  (saveEntry d r n resp st).1 = Returned tt
  <-> is_Some (getCurrentUser (auth st)) /\ resp = None.
Proof.
  unfold saveEntry.
  destruct (getCurrentUser (auth st)) as [u|]; destruct resp as [e|]; cbn;
    split; try done; intros [[? ?] ?]; done.
Qed.


(** ** Decimal numerals are read back *)

Lemma log2_div10_lt n : (10 <= n)%N -> (N.log2 (n / 10) < N.log2 n)%N.
Proof.
  intros Hn.
  assert (0 < n / 10)%N by (apply N.div_str_pos; lia).
  apply N.log2_lt_pow2; [done|].
  assert (Hlt : (n < 2 ^ N.succ (N.log2 n))%N) by (apply N.log2_spec; lia).
  rewrite N.pow_succ_r' in Hlt.
  apply N.Div0.div_lt_upper_bound. lia.
Qed.

Lemma digits_value_snoc ds d : digits_value (ds ++ [d]) = (digits_value ds * 10 + d)%N.
Proof. unfold digits_value, radix_value. by rewrite fold_left_app. Qed.

(** The numeral of [n] is a non-empty list of decimal digits with value [n],
    whose first digit is zero only for [n = 0]. *)
Lemma digits_aux_spec fuel : forall n acc,
  (N.log2 n < N.of_nat fuel)%N ->
  exists d ds,
    digits_aux fuel n acc = List.map digit_char (d :: ds) ++ acc
    /\ Forall (fun x => (x < 10)%N) (d :: ds)
    /\ digits_value (d :: ds) = n
    /\ (d = 0%N -> n = 0%N).
Proof.
  induction fuel as [|fuel IH]; intros n acc Hf; [lia|].
  cbn [digits_aux].
  destruct (N.eqb_spec (n / 10) 0) as [Hq|Hq].
  - assert (n < 10)%N by (apply N.div_small_iff in Hq; lia).
    exists n, []. rewrite N.mod_small by done.
    split; [done|]. split; [repeat constructor; done|]. split; [|done].
    unfold digits_value, radix_value. cbn. lia.
  - assert (Hn : (10 <= n)%N).
    { destruct (N.lt_ge_cases n 10) as [Hlt|]; [|done].
      apply N.div_small in Hlt. done. }
    destruct (IH (n / 10)%N (digit_char (n mod 10) :: acc)) as (d & ds & Heq & Hds & Hv & Hz).
    { pose proof (log2_div10_lt n Hn). lia. }
    exists d, (ds ++ [(n mod 10)%N]). rewrite Heq.
    split; [|split; [|split]].
    + cbn [List.map]. rewrite List.map_app. cbn. by rewrite <- app_assoc.
    + rewrite app_comm_cons. apply Forall_app. split; [done|].
      repeat constructor. apply N.mod_lt. done.
    + rewrite app_comm_cons, digits_value_snoc, Hv.
      pose proof (N.div_mod n 10). lia.
    + intros Hd. apply Hz in Hd. done.
Qed.

Lemma decimal_N_spec n :
  exists d ds,
    decimal_N n = List.map digit_char (d :: ds)
    /\ Forall (fun x => (x < 10)%N) (d :: ds)
    /\ digits_value (d :: ds) = n
    /\ (d = 0%N -> n = 0%N).
Proof.
  destruct (digits_aux_spec (S (N.to_nat (N.log2 n))) n []) as (d & ds & H & ?).
  { lia. }
  exists d, ds. unfold decimal_N. rewrite H, app_nil_r. done.
Qed.

Lemma digit_value_digit_char d : (d < 10)%N -> digit_value 10 (digit_char d) = Some d.
Proof.
  intros Hd. unfold digit_value, digit_char.
  assert (H1 : (48 <=? 48 + d)%N = true) by (apply N.leb_le; lia).
  assert (H2 : (48 + d <=? 57)%N = true) by (apply N.leb_le; lia).
  rewrite H1, H2. cbn [andb].
  replace (48 + d - 48)%N with d by lia.
  assert (H3 : (d <? 10)%N = true) by (apply N.ltb_lt; lia).
  by rewrite H3.
Qed.

Lemma take_digits_numeral ds rest :
  Forall (fun x => (x < 10)%N) ds ->
  take_digits 10 (List.map digit_char ds ++ rest) = ds ++ take_digits 10 rest.
Proof.
  induction 1 as [|d ds Hd _ IH]; [done|].
  cbn [List.map app take_digits]. rewrite digit_value_digit_char by done.
  by rewrite IH.
Qed.

Lemma is_white_space_digit_char d : (d < 10)%N -> is_white_space (digit_char d) = false.
Proof.
  intros Hd. unfold is_white_space, digit_char.
  repeat match goal with
  | |- context [(?a <=? ?b)%N] =>
      first [ replace (a <=? b)%N with true by (symmetry; apply N.leb_le; lia)
            | replace (a <=? b)%N with false by (symmetry; apply N.leb_gt; lia) ]
  | |- context [(?a =? ?b)%N] =>
      replace (a =? b)%N with false by (symmetry; apply N.eqb_neq; lia)
  end.
  reflexivity.
Qed.

Lemma strip_radix_prefix_numeral d ds :
  Forall (fun x => (x < 10)%N) (d :: ds) ->
  strip_radix_prefix (List.map digit_char (d :: ds))
  = (10%N, List.map digit_char (d :: ds)).
Proof.
  intros Hds. destruct ds as [|d1 ds']; [done|].
  assert (Hd1 : (d1 < 10)%N) by (inversion Hds as [|? ? ? Ht]; by inversion Ht).
  cbn [List.map strip_radix_prefix].
  assert (H1 : (digit_char d1 =? 120)%N = false) by (apply N.eqb_neq; unfold digit_char; lia).
  assert (H2 : (digit_char d1 =? 88)%N = false) by (apply N.eqb_neq; unfold digit_char; lia).
  rewrite H1, H2. cbn [orb]. by rewrite andb_false_r.
Qed.

Lemma strip_sign_numeral d ds :
  (d < 10)%N ->
  strip_sign (List.map digit_char (d :: ds)) = (1, List.map digit_char (d :: ds)).
Proof.
  intros Hd. cbn [List.map strip_sign].
  assert (H45 : (digit_char d =? 45)%N = false) by (apply N.eqb_neq; unfold digit_char; lia).
  assert (H43 : (digit_char d =? 43)%N = false) by (apply N.eqb_neq; unfold digit_char; lia).
  by rewrite H45, H43.
Qed.

(** ** Integers as Numbers *)

Lemma round_to_double_small m : m < 2 ^ 53 -> round_to_double m = Some m.
Proof.
  intros Hm. unfold round_to_double.
  by replace (m <? 2 ^ 53) with true by (symmetry; by apply Z.ltb_lt).
Qed.

Lemma Number_of_signed_small sign m :
  0 < m < 2 ^ 53 -> Number_of_signed sign m = JInt (sign * m).
Proof.
  intros Hm. unfold Number_of_signed.
  replace (m =? 0) with false by (symmetry; apply Z.eqb_neq; lia).
  by rewrite round_to_double_small by lia.
Qed.

(** ** The blanks that [parseInt] skips *)

Lemma is_white_space_listed c : is_white_space c = true <-> c ∈ white_space_code_units.
Proof.
  split.
  - unfold is_white_space. rewrite !orb_true_iff, !andb_true_iff, !N.leb_le, !N.eqb_eq.
    intros H.
    assert (Hc : In c white_space_code_units); [|by apply list_elem_of_In].
    unfold white_space_code_units. cbn [In]. forget_host. lia.
  - intros H. apply list_elem_of_In in H.
    pose proof (proj1 (forallb_forall is_white_space white_space_code_units) eq_refl) as Hall.
    by apply Hall.
Qed.

Lemma trim_start_blanks ws s :
  Forall (fun c => c ∈ white_space_code_units) ws -> trim_start (ws ++ s) = trim_start s.
Proof.
  induction 1 as [|c ws Hc _ IH]; [done|].
  cbn [app trim_start]. apply is_white_space_listed in Hc. by rewrite Hc.
Qed.

Lemma trim_start_stops c s : c ∉ white_space_code_units -> trim_start (c :: s) = c :: s.
Proof.
  intros Hc. cbn [trim_start].
  destruct (is_white_space c) eqn:E; [|done].
  by apply is_white_space_listed in E.
Qed.

Lemma digit_char_not_blank d : (d < 10)%N -> digit_char d ∉ white_space_code_units.
Proof.
  intros Hd Hin. apply is_white_space_listed in Hin.
  by rewrite is_white_space_digit_char in Hin.
Qed.

(** ** Reading a numeral *)

Lemma digit_value_no_digit c : ~ (48 <= c <= 57)%N -> digit_value 10 c = None.
Proof.
  intros Hc. unfold digit_value.
  destruct ((48 <=? c) && (c <=? 57))%N eqn:E1.
  { apply andb_true_iff in E1 as [H1 H2]. apply N.leb_le in H1, H2. lia. }
  destruct ((97 <=? c) && (c <=? 122))%N eqn:E2.
  { apply andb_true_iff in E2 as [H1 H2]. apply N.leb_le in H1, H2.
    by replace (c - 87 <? 10)%N with false by (symmetry; apply N.ltb_ge; lia). }
  destruct ((65 <=? c) && (c <=? 90))%N eqn:E3; [|done].
  apply andb_true_iff in E3 as [H1 H2]. apply N.leb_le in H1, H2.
  by replace (c - 55 <? 10)%N with false by (symmetry; apply N.ltb_ge; lia).
Qed.

Lemma digit_value_decimal c : digit_value 10 c = None -> ~ (48 <= c <= 57)%N.
Proof.
  unfold digit_value. intros H Hc.
  replace ((48 <=? c) && (c <=? 57))%N with true in H
    by (symmetry; apply andb_true_iff; split; apply N.leb_le; lia).
  by replace (c - 48 <? 10)%N with true in H by (symmetry; apply N.ltb_lt; lia).
Qed.

Lemma take_digits_end rest :
  match rest with [] => True | c :: _ => ~ (48 <= c <= 57)%N end ->
  take_digits 10 rest = [].
Proof.
  destruct rest as [|c rest]; [done|]. intros Hc. cbn [take_digits].
  by rewrite digit_value_no_digit.
Qed.

Lemma strip_sign_digits d ds rest :
  (d < 10)%N ->
  strip_sign (List.map digit_char (d :: ds) ++ rest)
  = (1, List.map digit_char (d :: ds) ++ rest).
Proof.
  intros Hd. cbn [List.map app strip_sign].
  assert (H45 : (digit_char d =? 45)%N = false) by (apply N.eqb_neq; unfold digit_char; lia).
  assert (H43 : (digit_char d =? 43)%N = false) by (apply N.eqb_neq; unfold digit_char; lia).
  by rewrite H45, H43.
Qed.

Lemma strip_radix_prefix_digits d ds rest :
  Forall (fun x => (x < 10)%N) (d :: ds) ->
  numeral_ends (d :: ds) rest ->
  strip_radix_prefix (List.map digit_char (d :: ds) ++ rest)
  = (10%N, List.map digit_char (d :: ds) ++ rest).
Proof.
  intros Hds Hend. destruct ds as [|d1 ds'].
  - destruct rest as [|c rest]; [done|]. destruct Hend as [_ Hx].
    cbn [List.map app strip_radix_prefix].
    destruct (N.eqb_spec (digit_char d) 48) as [H0|H0]; [|done].
    assert (d = 0%N) as -> by (unfold digit_char in H0; lia).
    destruct (Hx eq_refl) as [H120 H88].
    replace (c =? 120)%N with false by (symmetry; by apply N.eqb_neq).
    by replace (c =? 88)%N with false by (symmetry; by apply N.eqb_neq).
  - assert (Hd1 : (d1 < 10)%N) by (inversion Hds as [|? ? ? Ht]; by inversion Ht).
    cbn [List.map app strip_radix_prefix].
    assert (H1 : (digit_char d1 =? 120)%N = false) by (apply N.eqb_neq; unfold digit_char; lia).
    assert (H2 : (digit_char d1 =? 88)%N = false) by (apply N.eqb_neq; unfold digit_char; lia).
    rewrite H1, H2. cbn [orb]. by rewrite andb_false_r.
Qed.

(** The digits, once the blanks and the sign are gone. *)
Lemma read_digits sign ds rest :
  ds <> [] -> Forall (fun x => (x < 10)%N) ds ->
  Z.of_N (digits_value ds) < 2 ^ 53 ->
  numeral_ends ds rest ->
  (let '(radix, s2) := strip_radix_prefix (List.map digit_char ds ++ rest) in
   match take_digits radix s2 with
   | [] => DNum JNaN
   | ds' => Number_of_signed sign (Z.of_N (radix_value radix ds'))
   end)
  = Number_of_signed sign (Z.of_N (digits_value ds)).
Proof.
  intros Hne Hds Hv Hend. destruct ds as [|d ds]; [done|].
  rewrite strip_radix_prefix_digits by done.
  rewrite take_digits_numeral by done.
  rewrite take_digits_end, app_nil_r; [done|].
  destruct rest as [|c rest]; [done|]. by destruct Hend.
Qed.

(** [parseInt] on a text made of blanks, a sign, decimal digits with a value
    below 2^53 and a rest that ends the numeral. *)
Lemma parseInt_numeral ws sign ds rest :
  Forall (fun c => c ∈ white_space_code_units) ws ->
  sign ∈ sign_texts ->
  ds <> [] -> Forall (fun x => (x < 10)%N) ds ->
  Z.of_N (digits_value ds) < 2 ^ 53 ->
  numeral_ends ds rest ->
  parseInt (VStr (ws ++ sign ++ List.map digit_char ds ++ rest)) = integer_read sign ds.
Proof.
  intros Hws Hsign Hne Hds Hv Hend.
  unfold parseInt. cbn [ToString]. rewrite trim_start_blanks by done.
  pose proof (read_digits) as Hread.
  assert (H0 : 0 <= Z.of_N (digits_value ds)) by lia.
  destruct ds as [|d ds]; [done|].
  pose proof (Forall_inv Hds) as Hd. cbn beta in Hd.
  unfold sign_texts in Hsign.
  apply elem_of_cons in Hsign as [-> |Hsign];
    [|apply elem_of_cons in Hsign as [-> |Hsign];
      [|apply list_elem_of_singleton in Hsign as ->]].
  - cbn [app]. change (List.map digit_char (d :: ds) ++ rest)
      with (digit_char d :: (List.map digit_char ds ++ rest)).
    rewrite trim_start_stops by (by apply digit_char_not_blank).
    change (digit_char d :: (List.map digit_char ds ++ rest))
      with (List.map digit_char (d :: ds) ++ rest).
    rewrite strip_sign_digits by done.
    rewrite (Hread 1) by done.
    unfold integer_read, Number_of_signed. cbn [bool_decide decide_rel].
    rewrite bool_decide_eq_false_2 by done.
    destruct (Z.eqb_spec (Z.of_N (digits_value (d :: ds))) 0) as [->|Hnz]; [done|].
    rewrite round_to_double_small by done. repeat f_equal; try lia.
  - change (js "+") with [43%N]. cbn [app].
    rewrite trim_start_stops by by_decide.
    cbn [strip_sign]. change (43 =? 45)%N with false. change (43 =? 43)%N with true.
    cbn iota. rewrite (Hread 1) by done.
    unfold integer_read, Number_of_signed.
    rewrite bool_decide_eq_false_2 by done.
    destruct (Z.eqb_spec (Z.of_N (digits_value (d :: ds))) 0) as [->|Hnz]; [done|].
    rewrite round_to_double_small by done. repeat f_equal; try lia.
  - change (js "-") with [45%N]. cbn [app].
    rewrite trim_start_stops by by_decide.
    cbn [strip_sign]. change (45 =? 45)%N with true.
    cbn iota. rewrite (Hread (-1)) by done.
    unfold integer_read, Number_of_signed.
    rewrite bool_decide_eq_true_2 by done.
    destruct (Z.eqb_spec (Z.of_N (digits_value (d :: ds))) 0) as [Hz|Hnz]; [done|].
    rewrite round_to_double_small by done. repeat f_equal; try lia.
Qed.

(** [parseInt] on a text that has no numeral after the blanks and the
    sign. *)
Lemma parseInt_no_numeral ws sign rest :
  Forall (fun c => c ∈ white_space_code_units) ws ->
  sign ∈ sign_texts ->
  no_numeral sign rest ->
  parseInt (VStr (ws ++ sign ++ rest)) = JNaN.
Proof.
  intros Hws Hsign Hrest.
  unfold parseInt. cbn [ToString]. rewrite trim_start_blanks by done.
  assert (Hdigits : forall s,
            match s with [] => True | c :: _ => ~ (48 <= c <= 57)%N end ->
            (let '(radix, s2) := strip_radix_prefix s in
             match take_digits radix s2 with
             | [] => DNum JNaN
             | ds' => Number_of_signed 1 (Z.of_N (radix_value radix ds'))
             end) = JNaN
            /\ (let '(radix, s2) := strip_radix_prefix s in
                match take_digits radix s2 with
                | [] => DNum JNaN
                | ds' => Number_of_signed (-1) (Z.of_N (radix_value radix ds'))
                end) = JNaN).
  { intros [|c s] Hc; [done|].
    assert (Hp : strip_radix_prefix (c :: s) = (10%N, c :: s)).
    { cbn [strip_radix_prefix]. destruct s as [|c1 s]; [done|].
      by replace (c =? 48)%N with false by (symmetry; apply N.eqb_neq; lia). }
    rewrite Hp. cbn [take_digits]. by rewrite digit_value_no_digit. }
  assert (Hfirst : match rest with [] => True | c :: _ => ~ (48 <= c <= 57)%N end).
  { destruct rest as [|c rest]; [done|]. by destruct Hrest. }
  unfold sign_texts in Hsign.
  apply elem_of_cons in Hsign as [-> |Hsign];
    [|apply elem_of_cons in Hsign as [-> |Hsign];
      [|apply list_elem_of_singleton in Hsign as ->]].
  - cbn [app]. destruct rest as [|c rest]; [done|].
    destruct Hrest as [Hc Hs]. destruct (Hs eq_refl) as (Hblank & H43 & H45).
    rewrite trim_start_stops by done. cbn [strip_sign].
    replace (c =? 45)%N with false by (symmetry; by apply N.eqb_neq).
    replace (c =? 43)%N with false by (symmetry; by apply N.eqb_neq).
    by apply (Hdigits (c :: rest)).
  - change (js "+") with [43%N]. cbn [app].
    rewrite trim_start_stops by by_decide.
    cbn [strip_sign]. change (43 =? 45)%N with false. change (43 =? 43)%N with true.
    cbn iota. by apply (Hdigits rest).
  - change (js "-") with [45%N]. cbn [app].
    rewrite trim_start_stops by by_decide.
    cbn [strip_sign]. change (45 =? 45)%N with true.
    cbn iota. by apply (Hdigits rest).
Qed.

(** The decimal numeral of an integer is a sign and digits. *)
Lemma decimal_Z_digits z :
  exists sign ds,
    decimal_Z z = sign ++ List.map digit_char ds
    /\ sign ∈ sign_texts /\ ds <> [] /\ Forall (fun x => (x < 10)%N) ds
    /\ Z.of_N (digits_value ds) = Z.abs z
    /\ (sign = js "-" <-> z < 0)
    /\ (ds = [0%N] -> z = 0).
Proof.
  destruct z as [|p|p].
  - exists [], [0%N]. split; [done|]. split; [apply list_elem_of_here|].
    split; [done|]. split; [by repeat constructor|]. split; [done|]. split; [|done].
    split; [done|lia].
  - destruct (decimal_N_spec (Npos p)) as (d & ds & Heq & Hds & Hv & Hz).
    exists [], (d :: ds). cbn [decimal_Z app]. split; [done|].
    split; [apply list_elem_of_here|]. split; [done|]. split; [done|].
    split; [rewrite Hv; done|]. split; [split; [done|lia]|].
    intros [= -> ->]. by specialize (Hz eq_refl).
  - destruct (decimal_N_spec (Npos p)) as (d & ds & Heq & Hds & Hv & Hz).
    exists (js "-"), (d :: ds). cbn [decimal_Z]. rewrite Heq. split; [done|].
    split; [by_decide|]. split; [done|]. split; [done|].
    split; [rewrite Hv; done|]. split; [split; [lia|done]|].
    intros [= -> ->]. by specialize (Hz eq_refl).
Qed.

Lemma integer_read_decimal sign ds z :
  Z.of_N (digits_value ds) = Z.abs z -> (sign = js "-" <-> z < 0) ->
  integer_read sign ds = JInt z.
Proof.
  intros Hv Hs. unfold integer_read. rewrite Hv.
  destruct (bool_decide_reflect (sign = js "-")) as [Hm|Hm].
  - apply Hs in Hm. replace (Z.abs z =? 0) with false by (symmetry; apply Z.eqb_neq; lia).
    f_equal. f_equal. lia.
  - assert (0 <= z). { destruct (Z.lt_ge_cases z 0) as [Hneg|]; [|done]. by apply Hs in Hneg. }
    f_equal. f_equal. lia.
Qed.

(** [parseInt] reads the decimal numeral of an integer below 2^53 in
    magnitude back, whatever follows it from a character that ends it. *)
Lemma parseInt_decimal_then z rest :
  Z.abs z < 2 ^ 53 ->
  match rest with
  | [] => True
  | c :: _ => ~ (48 <= c <= 57)%N /\ c <> 120%N /\ c <> 88%N
  end ->
  parseInt (VStr (decimal_Z z ++ rest)) = JInt z.
Proof.
  intros Hz Hrest.
  destruct (decimal_Z_digits z) as (sign & ds & -> & Hsign & Hne & Hds & Hv & Hs & _).
  rewrite <- app_assoc.
  change (sign ++ List.map digit_char ds ++ rest)
    with ([] ++ sign ++ List.map digit_char ds ++ rest).
  rewrite parseInt_numeral; [by apply integer_read_decimal|constructor|done..| |].
  - lia.
  - destruct rest as [|c rest]; [done|]. destruct Hrest as (? & ? & ?). by split.
Qed.

Lemma parseInt_decimal_Z z : Z.abs z < 2 ^ 53 -> parseInt (VStr (decimal_Z z)) = JInt z.
Proof.
  intros Hz. rewrite <- (app_nil_r (decimal_Z z)). by apply parseInt_decimal_then.
Qed.

(** A rating that is a Number with an integer value below 2^53 is stored as
    it is. *)
Lemma parseInt_integer z : Z.abs z < 2 ^ 53 -> parseInt (VNum (JInt z)) = JInt z.
Proof.
  intros Hz. generalize (parseInt_decimal_Z z Hz). unfold parseInt. cbn [ToString].
  unfold Double_toString, Number_toString.
  by replace (Z.abs z <? 2 ^ 53) with true by (symmetry; by apply Z.ltb_lt).
Qed.

(** ** Falsy values *)

Lemma ToBoolean_falsy v : ToBoolean v = false <-> v ∈ falsy_values.
Proof.
  split.
  - destruct v as [| |[|]|[[|z]| |neg]|[|c s]]; cbn [ToBoolean]; intros H;
      try discriminate H; try by_decide.
    apply negb_false_iff, Z.eqb_eq in H. subst z. by_decide.
  - unfold falsy_values. rewrite !elem_of_cons, elem_of_nil.
    intros [-> |[-> |[-> |[-> |[-> |[-> |[-> |[]]]]]]]]; reflexivity.
Qed.

Lemma js_or_falsy n :
  js_or n (VStr []) = if bool_decide (n ∈ falsy_values) then VStr [] else n.
Proof.
  unfold js_or. destruct (ToBoolean n) eqn:E.
  - rewrite bool_decide_eq_false_2; [done|]. intros H. apply ToBoolean_falsy in H. congruence.
  - rewrite bool_decide_eq_true_2; [done|]. by apply ToBoolean_falsy.
Qed.

(** ** Writing an entry *)

(** C3. With an actor present and a write that resolves, [saveEntry] returns
    and the cache holds at the key [d], without a load, the document id of
    the actor and the date, the rating as [parseInt] coerces it and the
    note, or the empty string when the note is one of the falsy values.
    The coercion of the rating: a text of blanks, a sign and decimal digits
    with a value below 2^53, followed by anything that ends the numeral, is
    stored as the integer of the sign and the digits, inside 1..5 or not; a
    Number with an integer value below 2^53 is stored as it is; a text with
    no numeral after the blanks and the sign is stored as NaN. *)
Theorem saveEntry_reflected_in_cache d r n st user :
  getCurrentUser (auth st) = Some user ->
  (saveEntry d r n None st).1 = Returned tt
  /\ getCurrentEntries (saveEntry d r n None st).2 !! d
     = Some {| id := docKey (uid user) d;
               c_rating := VNum (parseInt r);
               c_note := if bool_decide (n ∈ falsy_values) then VStr [] else n |}
  /\ (forall ws sign ds rest,
        Forall (fun c => c ∈ white_space_code_units) ws ->
        sign ∈ sign_texts ->
        ds <> [] -> Forall (fun x => (x < 10)%N) ds ->
        Z.of_N (digits_value ds) < 2 ^ 53 ->
        numeral_ends ds rest ->
        r = VStr (ws ++ sign ++ List.map digit_char ds ++ rest) ->
        parseInt r = integer_read sign ds)
  /\ (forall z, Z.abs z < 2 ^ 53 -> r = VNum (JInt z) -> parseInt r = JInt z)
  /\ (forall ws sign rest,
        Forall (fun c => c ∈ white_space_code_units) ws ->
        sign ∈ sign_texts ->
        no_numeral sign rest ->
        r = VStr (ws ++ sign ++ rest) ->
        parseInt r = JNaN).
Proof.
  intros Hu. rewrite (saveEntry_resolved _ _ _ _ _ Hu). cbn [fst snd getCurrentEntries currentEntries].
  split; [done|]. split; [by rewrite lookup_insert_eq, js_or_falsy|]. split; [|split].
  - intros ws sign ds rest Hws Hsign Hne Hds Hv Hend ->. by apply parseInt_numeral.
  - intros z Hz ->. by apply parseInt_integer.
  - intros ws sign rest Hws Hsign Hrest ->. by apply parseInt_no_numeral.
Qed.

(** C6. [saveEntry] throws the not-logged-in error exactly when there is no
    actor, and the rejection of the write exactly when there is an actor and
    the write is rejected; whenever it throws, the cache, the viewed owner
    and the rest of the state are as before the call. *)
Theorem saveEntry_failures d r n resp st :
  ((saveEntry d r n resp st).1
     = Threw (JsError (js "Must be logged in to save entries"))
   <-> getCurrentUser (auth st) = None)
  /\ (forall e, (saveEntry d r n resp st).1 = Threw (Rejected e)
               <-> is_Some (getCurrentUser (auth st)) /\ resp = Some e)
  /\ (forall t, (saveEntry d r n resp st).1 = Threw t ->
               (saveEntry d r n resp st).2 = st).
Proof.
  unfold saveEntry.
  destruct (getCurrentUser (auth st)) as [u|]; destruct resp as [e0|]; cbn.
  - split; [split; done|]. split; [|done].
    intros e. split.
    + intros [= ->]. split; [by eexists|done].
    + intros [_ [= ->]]. done.
  - split; [split; done|]. split; [|done].
    intros e. split; [done|]. intros [_ ?]. done.
  - split; [done|]. split; [|done].
    intros e. split; [done|]. intros [[? ?] _]. done.
  - split; [done|]. split; [|done].
    intros e. split; [done|]. intros [[? ?] _]. done.
Qed.

(** C10. A call of [saveEntry] that returns, for a date [d] (any key but
    [__proto__], at which an assignment adds no property), leaves the cache
    entry of every other date and the viewed owner as they were. *)
Theorem saveEntry_frame d r n resp st :
  d <> proto_key ->
  (saveEntry d r n resp st).1 = Returned tt ->
  (forall d', d' <> d ->
     getCurrentEntries (saveEntry d r n resp st).2 !! d'
     = getCurrentEntries st !! d')
  /\ getViewingUserId (saveEntry d r n resp st).2 = getViewingUserId st.
Proof.
  intros _ Hret. apply saveEntry_returns_iff in Hret as [[u Hu] ->].
  rewrite (saveEntry_resolved _ _ _ _ _ Hu). cbn. split; [|done].
  intros d' Hne. by rewrite lookup_insert_ne.
Qed.

(** [saveEntry] is its two parts with nothing in between. *)
Lemma saveEntry_phases d r n resp st :
  saveEntry d r n resp st
  = match saveEntry_begin d r n st with
    | inl t => (Threw t, st)
    | inr p => saveEntry_end p resp st
    end.
Proof.
  unfold saveEntry, saveEntry_begin, saveEntry_end.
  destruct (getCurrentUser (auth st)) as [user|]; [|done].
  by destruct resp.
Qed.

(** ** Loading the entries of an owner *)

Lemma foldl_add_entry_lookup (l : list (JsString * DocData)) :
  NoDup ((fun x => date x.2) <$> l) ->
  forall (acc : gmap JsString CacheEntry) d e,
    foldl add_entry acc l !! d = Some e
    <-> (exists x, x ∈ l /\ date x.2 = d /\ e = cache_entry_of x)
        \/ ((forall x, x ∈ l -> date x.2 <> d) /\ acc !! d = Some e).
Proof.
  induction l as [|x l IH]; intros Hnd acc d e; cbn [foldl].
  - split.
    + intros H. right. split; [|done]. intros x Hx. by apply elem_of_nil in Hx.
    + intros [(x & Hx & _)|[_ H]]; [by apply elem_of_nil in Hx|done].
  - rewrite fmap_cons in Hnd. apply NoDup_cons in Hnd as [Hx Hnd].
    rewrite (IH Hnd). unfold add_entry at 1. split.
    + intros [(y & Hy & Hd & He)|[Hall Hacc]].
      * left. exists y. split; [by apply elem_of_cons; right|done].
      * destruct (decide (date x.2 = d)) as [Heq|Hne].
        -- left. exists x. split; [by apply elem_of_cons; left|].
           split; [done|]. rewrite Heq, lookup_insert_eq in Hacc. by injection Hacc.
        -- right. rewrite lookup_insert_ne in Hacc by done. split; [|done].
           intros y Hy. apply elem_of_cons in Hy as [->|Hy]; [done|by apply Hall].
    + intros [(y & Hy & Hd & He)|[Hall Hacc]].
      * apply elem_of_cons in Hy as [->|Hy].
        -- right. split.
           ++ intros z Hz Hzd. apply Hx. apply list_elem_of_fmap.
              exists z. split; [congruence|done].
           ++ rewrite <- Hd, lookup_insert_eq. by rewrite He.
        -- left. by exists y.
      * right. split.
        -- intros y Hy. apply Hall. by apply elem_of_cons; right.
        -- rewrite lookup_insert_ne; [done|]. apply Hall. by apply elem_of_cons; left.
Qed.

Lemma getDocs_resolved (owner : JsString) (col : Collection) :
  exists snapshot,
    getDocs (Some owner) None col = inr snapshot
    /\ snapshot ≡ₚ filter (fun x => userId x.2 = owner) (map_to_list col).
Proof. eexists. split; [done|]. apply merge_sort_Permutation. Qed.

Lemma owner_dates_NoDup (owner : JsString) (col : Collection) :
  keyed_store col ->
  NoDup ((fun x => date x.2) <$> filter (fun x => userId x.2 = owner) (map_to_list col)).
Proof.
  intros Hk. apply NoDup_fmap_2_strong.
  - intros [k1 d1] [k2 d2] H1 H2 Hd. cbn in Hd.
    apply list_elem_of_filter in H1 as [Hu1 H1], H2 as [Hu2 H2]. cbn in Hu1, Hu2.
    apply elem_of_map_to_list in H1, H2.
    pose proof (Hk _ _ H1) as E1. pose proof (Hk _ _ H2) as E2.
    assert (Hkk : k1 = k2) by (rewrite E1, E2, Hu1, Hu2, Hd; done).
    rewrite Hkk in H1. rewrite H1 in H2. injection H2 as ->. by rewrite Hkk.
  - apply NoDup_filter, NoDup_map_to_list.
Qed.

(** The cache that a load builds holds, at each date, exactly the entry of
    the stored document of the owner for that date. *)
Lemma loadUserEntries_lookup (owner : JsString) st d e :
  keyed_store (firestore st) ->
  currentEntries (loadUserEntries owner None st).2 !! d = Some e
  <-> exists k doc,
        firestore st !! k = Some doc /\ userId doc = owner /\ date doc = d
        /\ e = {| id := k; c_rating := rating doc; c_note := note doc |}.
Proof.
  intros Hk. unfold loadUserEntries.
  destruct (getDocs_resolved owner (firestore st)) as (snap & -> & Hperm). cbn.
  rewrite foldl_add_entry_lookup.
  - split.
    + intros [(x & Hx & Hd & He)|[_ Hemp]]; [|by rewrite lookup_empty in Hemp].
      rewrite Hperm in Hx. apply list_elem_of_filter in Hx as [Hu Hx].
      destruct x as [k doc]. apply elem_of_map_to_list in Hx.
      exists k, doc. done.
    + intros (k & doc & Hl & Hu & Hd & He). left. exists (k, doc).
      split; [|done]. rewrite Hperm. apply list_elem_of_filter.
      split; [done|]. by apply elem_of_map_to_list.
  - rewrite Hperm. by apply owner_dates_NoDup.
Qed.

(** C2. When the fetch resolves and the store is keyed by owner and date,
    [loadUserEntries owner] returns the new cache, the viewed owner is
    [owner], and the cache holds at a date exactly the entry of the stored
    document of [owner] for that date: nothing of another owner, nothing
    missing. *)
Theorem loadUserEntries_owner_entries (owner : JsString) st :
  keyed_store (firestore st) ->
  (loadUserEntries owner None st).1
    = Returned (getCurrentEntries (loadUserEntries owner None st).2)
  /\ getViewingUserId (loadUserEntries owner None st).2 = Some owner
  /\ (forall d e,
        getCurrentEntries (loadUserEntries owner None st).2 !! d = Some e
        <-> exists k doc,
              firestore st !! k = Some doc /\ userId doc = owner /\ date doc = d
              /\ e = {| id := k; c_rating := rating doc; c_note := note doc |}).
Proof.
  intros Hk. split; [done|]. split; [done|].
  intros d e. by apply loadUserEntries_lookup.
Qed.

(** C7. [loadUserEntries] throws exactly when the fetch is rejected, and it
    throws that rejection; the cache, the viewed owner and the rest of the
    state are then as before the call. *)
Theorem loadUserEntries_failure owner resp st :
  (forall t, (loadUserEntries owner resp st).1 = Threw t
             <-> exists e, resp = Some e /\ t = Rejected e)
  /\ (forall t, (loadUserEntries owner resp st).1 = Threw t ->
               (loadUserEntries owner resp st).2 = st).
Proof.
  unfold loadUserEntries. destruct resp as [e0|]; cbn.
  - split; [|done]. intros t. split.
    + intros [= <-]. by exists e0.
    + intros (e & [= <-] & ->). done.
  - split; [|done]. intros t. split; [done|]. intros (e & ? & _). done.
Qed.

(** ** Ownership of the cache *)

Lemma keyed_store_load (owner : JsString) resp st :
  keyed_store (firestore st) ->
  keyed_store (firestore (loadUserEntries owner resp st).2).
Proof.
  unfold loadUserEntries.
  destruct (getDocs (Some owner) resp (firestore st)); done.
Qed.

Lemma keyed_store_save d r n resp st :
  keyed_store (firestore st) ->
  keyed_store (firestore (saveEntry d r n resp st).2).
Proof.
  intros Hk. unfold saveEntry.
  destruct (getCurrentUser (auth st)) as [u|]; [|done].
  destruct resp as [e|]; cbn; [done|].
  intros k doc Hl. destruct (decide (docKey (uid u) d = k)) as [<-|Hne].
  - rewrite lookup_insert_eq in Hl. by injection Hl as <-.
  - rewrite lookup_insert_ne in Hl by done. by apply Hk.
Qed.

Lemma keyed_store_step st st' :
  step st st' -> keyed_store (firestore st) -> keyed_store (firestore st').
Proof.
  destruct 1; intros Hk;
    [by apply keyed_store_load|by apply keyed_store_save|done].
Qed.

Lemma gated_step_step st st' : gated_step st st' -> step st st'.
Proof. destruct 1; by constructor. Qed.

Lemma keyed_store_reachable st st' :
  rtc step st st' -> keyed_store (firestore st) -> keyed_store (firestore st').
Proof. induction 1; eauto using keyed_store_step. Qed.

(** After a load that resolves the cache is owned by the loaded owner,
    whatever it held before. *)
Lemma cache_owned_load (owner : JsString) st :
  keyed_store (firestore st) ->
  cache_owned (loadUserEntries owner None st).2.
Proof.
  intros Hk d e He.
  apply loadUserEntries_lookup in He as (k & doc & Hl & Hu & Hd & ->); [|done].
  exists owner. split; [done|]. cbn. rewrite (Hk _ _ Hl), Hu, Hd. done.
Qed.

Lemma cache_owned_gated_step st st' :
  gated_step st st' ->
  keyed_store (firestore st) -> cache_owned st -> cache_owned st'.
Proof.
  destruct 1 as [st owner|st d r n (user & Hu & Hv) Hret|st a]; intros Hk Hown.
  - by apply cache_owned_load.
  - rewrite (saveEntry_resolved _ _ _ _ _ Hu). intros d' e. cbn.
    destruct (decide (d = d')) as [<-|Hne].
    + rewrite lookup_insert_eq. intros [= <-]. exists (uid user). done.
    + rewrite lookup_insert_ne by done. apply Hown.
  - done.
Qed.

Lemma cache_owned_gated_reachable st st' :
  rtc gated_step st st' ->
  keyed_store (firestore st) -> cache_owned st ->
  keyed_store (firestore st') /\ cache_owned st'.
Proof.
  induction 1 as [st|st1 st2 st3 Hs _ IH]; intros Hk Hown; [done|].
  apply IH.
  - eapply keyed_store_step; [by apply gated_step_step|done].
  - by eapply cache_owned_gated_step.
Qed.

Lemma docKey_owner u u' d : docKey u d = docKey u' d -> u = u'.
Proof. unfold docKey. intros H. by apply app_inv_tail in H. Qed.

(** What holds of the cache when the operations do not overlap. From the
    initial state over a keyed store, as long as every save is made while
    the actor views their own calendar, every cache entry belongs to the
    viewed owner; and in any state reachable by loads, saves and changes of
    actor in any order, the cache right after a load that resolves holds
    entries of the loaded owner only, none that a save of another user has
    written. *)
Theorem cache_owned_when_gated st0 st :
  initial st0 ->
  keyed_store (firestore st0) ->
  (rtc gated_step st0 st -> cache_owned st)
  /\ (rtc step st0 st ->
      forall owner : JsString,
        cache_owned (loadUserEntries owner None st).2
        /\ forall d e user,
             currentEntries (loadUserEntries owner None st).2 !! d = Some e ->
             uid user <> owner -> id e <> docKey (uid user) d).
Proof.
  intros [Hc Hv] Hk. split.
  - intros Hr. apply (cache_owned_gated_reachable st0 st Hr Hk).
    intros d e He. by rewrite Hc, lookup_empty in He.
  - intros Hr owner.
    assert (Hown : cache_owned (loadUserEntries owner None st).2).
    { apply cache_owned_load. by apply (keyed_store_reachable st0). }
    split; [done|]. intros d e user He Hne Hid.
    destruct (Hown d e He) as (o & Ho & Hido).
    assert (o = owner) by (unfold loadUserEntries in Ho; cbn in Ho; congruence).
    subst o. rewrite Hid in Hido. by apply docKey_owner in Hido.
Qed.

(** ** Days, years and months *)

Lemma DayFromYear_succ y : DayFromYear (y + 1) = DayFromYear y + DaysInYear y.
Proof.
  unfold DayFromYear, DaysInYear.
  repeat match goal with
  | |- context [?a =? ?b] => destruct (Z.eqb_spec a b)
  end; cbn [negb]; div_lia.
Qed.

Lemma DaysInYear_cases y : DaysInYear y = 365 \/ DaysInYear y = 366.
Proof.
  unfold DaysInYear.
  repeat match goal with
  | |- context [?a =? ?b] => destruct (Z.eqb_spec a b)
  end; cbn [negb]; auto.
Qed.

Lemma DayFromYear_lt y y' : y < y' -> DayFromYear y + 365 <= DayFromYear y'.
Proof. unfold DayFromYear. intros H. div_lia. Qed.

Lemma Day_mul d : Day (msPerDay * d) = d.
Proof. unfold Day. rewrite Z.mul_comm. by apply Z.div_mul. Qed.

Lemma ltb_TimeFromYear t y : (t <? TimeFromYear y) = (Day t <? DayFromYear y).
Proof.
  unfold TimeFromYear, Day, msPerDay.
  destruct (Z.ltb_spec t (86400000 * DayFromYear y));
    destruct (Z.ltb_spec (t / 86400000) (DayFromYear y)); try done;
    div_lia.
Qed.

Lemma leb_TimeFromYear t y : (TimeFromYear y <=? t) = (DayFromYear y <=? Day t).
Proof.
  unfold TimeFromYear, Day, msPerDay.
  destruct (Z.leb_spec (86400000 * DayFromYear y) t);
    destruct (Z.leb_spec (DayFromYear y) (t / 86400000)); try done;
    div_lia.
Qed.

(** [YearFromTime t] is the year whose days include the day of [t]: the
    largest [y] with [TimeFromYear y <= t]. *)
Lemma YearFromTime_spec t :
  DayFromYear (YearFromTime t) <= Day t < DayFromYear (YearFromTime t + 1).
Proof.
  unfold YearFromTime. rewrite ltb_TimeFromYear, leb_TimeFromYear.
  generalize (Day t). clear t. intros d.
  set (y0 := 1970 + d * 400 / 146097).
  assert (H0 : 146097 * (y0 - 1970) <= 400 * d < 146097 * (y0 - 1970) + 146097).
  { subst y0. div_lia. }
  clearbody y0. cbv zeta.
  destruct (Z.ltb_spec d (DayFromYear y0)).
  - replace (y0 - 1 + 1) with y0 by lia. split; [|lia].
    unfold DayFromYear in *. div_lia.
  - destruct (Z.leb_spec (DayFromYear (y0 + 1)) d).
    + split; [lia|]. unfold DayFromYear in *. div_lia.
    + lia.
Qed.

Lemma YearFromTime_unique t y :
  DayFromYear y <= Day t < DayFromYear (y + 1) -> YearFromTime t = y.
Proof.
  intros Hy. pose proof (YearFromTime_spec t) as Ht.
  destruct (Z.lt_trichotomy (YearFromTime t) y) as [Hlt|[Heq|Hgt]]; [|done|].
  - assert (YearFromTime t + 1 = y \/ YearFromTime t + 1 < y) as [E|L] by lia.
    + rewrite E in Ht. lia.
    + pose proof (DayFromYear_lt _ _ L). lia.
  - assert (y + 1 = YearFromTime t \/ y + 1 < YearFromTime t) as [E|L] by lia.
    + rewrite E in Hy. lia.
    + pose proof (DayFromYear_lt _ _ L). lia.
Qed.

(** The year, the day within the year and the leap flag of the [k]-th day
    of year [y]. *)
Lemma day_of_year t y k :
  Day t = DayFromYear y + k -> 0 <= k < DaysInYear y ->
  YearFromTime t = y /\ DayWithinYear t = k
  /\ InLeapYear t = (if DaysInYear y =? 366 then 1 else 0).
Proof.
  intros Ht Hk.
  assert (Hy : YearFromTime t = y).
  { apply YearFromTime_unique. rewrite DayFromYear_succ. lia. }
  unfold DayWithinYear, InLeapYear. rewrite Hy. split; [done|]. split; [lia|done].
Qed.

Lemma DaysInYear_leap y : DaysInYear y = if is_leap_year y then 366 else 365.
Proof.
  unfold DaysInYear, is_leap_year.
  repeat match goal with
  | |- context [?a =? ?b] => destruct (Z.eqb_spec a b)
  end; done.
Qed.

Lemma month_start_bounds mn l : 0 <= l <= 1 -> 0 <= month_start mn l <= 335.
Proof.
  intros Hl. unfold month_start.
  repeat match goal with
  | |- context [match ?x with _ => _ end] => destruct x
  end; lia.
Qed.

Lemma DayFromYear_bounds y :
  1000 <= y <= 10000 -> -400000 <= DayFromYear y <= 3000000.
Proof. intros Hy. unfold DayFromYear. div_lia. Qed.

(** In a regular time zone, the object built for a four-digit year holds a
    time value whose local day is the day the arguments name. *)
Lemma new_Date_local_day y m dt :
  timezone_regular ->
  1000 <= y <= 9999 -> 0 <= m <= 12 -> 0 <= dt <= 1 ->
  exists t, new_Date y m dt = Some t /\ Day (LocalTime t) = day_number y m dt.
Proof.
  intros [Hoff Hmid] Hy Hm Hdt.
  assert (Hfull : MakeFullYear y = y).
  { unfold MakeFullYear. destruct (Z.leb_spec y 99); [lia|]. by rewrite andb_false_r. }
  assert (Hq : 0 <= m / 12 <= 1) by (div_lia).
  set (ym := y + m / 12).
  set (l := if DaysInYear ym =? 366 then 1 else 0).
  assert (Hl : 0 <= l <= 1) by (subst l; destruct (DaysInYear ym =? 366); lia).
  pose proof (month_start_bounds (m mod 12) l Hl) as Hms.
  pose proof (DayFromYear_bounds ym ltac:(lia)) as Hdy.
  exists (UTC (day_number y m dt * msPerDay)).
  split; [|apply Hmid].
  unfold new_Date, MakeDay. rewrite Hfull. fold ym. fold l.
  unfold TimeFromYear. rewrite <- Z.mul_add_distr_l, Day_mul.
  assert (Hclip : (Z.abs (msPerDay * (DayFromYear ym + month_start (m mod 12) l))
                   <=? maxTime) = true).
  { apply Z.leb_le. unfold msPerDay, maxTime. lia. }
  rewrite Hclip. cbn [MakeDate option_map TimeClip].
  unfold MakeTime. rewrite !Z.mul_0_l, !Z.add_0_r.
  change (DayFromYear ym + month_start (m mod 12) l + dt - 1) with (day_number y m dt).
  assert (Hd : -400001 <= day_number y m dt <= 3000336) by (unfold day_number; fold ym; fold l; lia).
  assert (Hclip2 : (Z.abs (UTC (day_number y m dt * msPerDay)) <=? maxTime) = true).
  { apply Z.leb_le. unfold UTC.
    pose proof (Hoff (day_number y m dt * msPerDay) false).
    unfold msPerDay, maxTime in *. lia. }
  by rewrite Hclip2.
Qed.

(** The date of the [k]-th day of a year, by month. *)
Lemma DateFromTime_of_day t y k :
  Day t = DayFromYear y + k -> 0 <= k < DaysInYear y ->
  (MonthFromTime t, DateFromTime t)
  = (let l := if DaysInYear y =? 366 then 1 else 0 in
     if k <? 31 then (0, k + 1)
     else if k <? 59 + l then (1, k - 30)
     else if k <? 90 + l then (2, k - 58 - l)
     else if k <? 120 + l then (3, k - 89 - l)
     else if k <? 151 + l then (4, k - 119 - l)
     else if k <? 181 + l then (5, k - 150 - l)
     else if k <? 212 + l then (6, k - 180 - l)
     else if k <? 243 + l then (7, k - 211 - l)
     else if k <? 273 + l then (8, k - 242 - l)
     else if k <? 304 + l then (9, k - 272 - l)
     else if k <? 334 + l then (10, k - 303 - l)
     else (11, k - 333 - l)).
Proof.
  intros Ht Hk. destruct (day_of_year t y k Ht Hk) as (Hy & Hw & Hl).
  unfold DateFromTime, MonthFromTime. rewrite Hw, Hl. cbv zeta.
  repeat match goal with
  | |- context [?a <? ?b] => destruct (a <? b)
  end; reflexivity.
Qed.

Ltac split_months m Hm :=
  assert (m = 0 \/ m = 1 \/ m = 2 \/ m = 3 \/ m = 4 \/ m = 5 \/ m = 6
          \/ m = 7 \/ m = 8 \/ m = 9 \/ m = 10 \/ m = 11) as Hm by lia;
  repeat (destruct Hm as [Hm|Hm]); subst m.

Ltac eval_month_split H :=
  repeat match type of H with
  | context [?a `div` 12] =>
      let v := eval vm_compute in (a `div` 12) in change (a `div` 12) with v in H
  | context [?a `mod` 12] =>
      let v := eval vm_compute in (a `mod` 12) in change (a `mod` 12) with v in H
  end;
  cbn [month_start] in H.

Lemma DateFromTime_last_day_of_month t y m :
  0 <= m <= 11 ->
  Day t = day_number y (m + 1) 0 ->
  DateFromTime t = gregorian_days_in_month y m.
Proof.
  intros Hm Ht. unfold day_number in Ht.
  pose proof (DaysInYear_leap y) as Hleap.
  assert (Hk : Day t = DayFromYear y + (Day t - DayFromYear y)) by lia.
  split_months m Hm'; eval_month_split Ht;
    rewrite ?Z.add_0_r in Ht;
    try (rewrite DayFromYear_succ in Ht);
    unfold gregorian_days_in_month;
    rewrite ?Hleap in Ht; destruct (is_leap_year y); cbn in Ht, Hleap;
    (eassert (Hkv : Day t - DayFromYear y = _)
       by (rewrite Ht; ring_simplify; reflexivity));
    rewrite Hkv in Hk;
    match type of Hk with
    | _ = _ + ?k =>
        assert (Hr : 0 <= k < DaysInYear y) by (rewrite Hleap; lia);
        pose proof (DateFromTime_of_day t y k Hk Hr) as Hdate;
        rewrite Hleap in Hdate; cbn in Hdate; by injection Hdate
    end.
Qed.

(** ** Weekdays *)

Lemma DayFromYear_cycle y k : DayFromYear (y + 400 * k) = DayFromYear y + 146097 * k.
Proof. unfold DayFromYear. div_lia. Qed.

Lemma DaysInYear_cycle y k : DaysInYear (y + 400 * k) = DaysInYear y.
Proof.
  unfold DaysInYear.
  replace ((y + 400 * k) mod 4) with (y mod 4) by (div_lia).
  replace ((y + 400 * k) mod 100) with (y mod 100) by (div_lia).
  replace ((y + 400 * k) mod 400) with (y mod 400) by (div_lia).
  done.
Qed.

Lemma first_weekday_cycle y m k : first_weekday (y + 400 * k) m = first_weekday y m.
Proof.
  unfold first_weekday. rewrite DayFromYear_cycle, DaysInYear_cycle.
  generalize (month_start m (if DaysInYear y =? 366 then 1 else 0)).
  generalize (DayFromYear y). intros a b. div_lia.
Qed.

Lemma zeller_weekday_cycle y m q k :
  zeller_weekday (y + 400 * k) m q = zeller_weekday y m q.
Proof.
  unfold zeller_weekday.
  set (yz := if m <? 2 then y - 1 else y).
  replace (if m <? 2 then y + 400 * k - 1 else y + 400 * k) with (yz + 400 * k)
    by (subst yz; destruct (m <? 2); lia).
  replace ((yz + 400 * k) mod 100) with (yz mod 100) by (div_lia).
  replace ((yz + 400 * k) / 100) with (yz / 100 + 4 * k) by (div_lia).
  replace ((yz / 100 + 4 * k) / 4) with (yz / 100 / 4 + k) by (div_lia).
  generalize (yz / 100 / 4) (yz / 100) (yz mod 100 / 4) (yz mod 100)
    (13 * ((if m <? 2 then m + 13 else m + 1) + 1) / 5).
  intros a b c d e. div_lia.
Qed.

Lemma weekday_cycle_checked : weekday_cycle_agrees = true.
Proof. vm_compute. reflexivity. Qed.

(** The weekday computed from the day count is the Gregorian weekday. *)
Lemma first_weekday_zeller y m :
  0 <= m <= 11 -> first_weekday y m = zeller_weekday y m 1.
Proof.
  intros Hm.
  pose proof (Z.div_mod y 400 ltac:(lia)) as Hy.
  pose proof (Z.mod_pos_bound y 400 ltac:(lia)) as Hr.
  replace y with (y mod 400 + 400 * (y / 400)) by lia.
  rewrite first_weekday_cycle, zeller_weekday_cycle.
  pose proof weekday_cycle_checked as Hc. unfold weekday_cycle_agrees in Hc.
  rewrite forallb_forall in Hc.
  specialize (Hc (y mod 400)). rewrite forallb_forall in Hc.
  apply Z.eqb_eq. apply Hc.
  - apply list_elem_of_In, elem_of_seqZ. lia.
  - apply list_elem_of_In, elem_of_seqZ. lia.
Qed.


(** ** The date helpers *)



(** ** The CSV export *)

Lemma includes_char (s : JsString) c : includes s [c] = true <-> c ∈ s.
Proof.
  induction s as [|x s IH]; cbn [includes starts_with].
  - split; [done|]. intros H. by apply elem_of_nil in H.
  - rewrite orb_true_iff, andb_true_r, IH, N.eqb_eq, elem_of_cons. done.
Qed.

Lemma replace_dquote_doubles (n : JsString) :
  replace_char_global dquote [dquote; dquote] n
  = n ≫= fun c => if decide (c = dquote) then [c; c] else [c].
Proof.
  induction n as [|x n IH]; [done|].
  cbn [replace_char_global]. rewrite bind_cons, <- IH.
  destruct (N.eqb_spec x dquote) as [->|Hne].
  - by rewrite decide_True.
  - by rewrite decide_False.
Qed.

Lemma replace_dquote_others (n : JsString) :
  filter (fun c => c <> dquote) (replace_char_global dquote [dquote; dquote] n)
  = filter (fun c => c <> dquote) n.
Proof.
  induction n as [|x n IH]; [done|].
  cbn [replace_char_global]. destruct (N.eqb_spec x dquote) as [->|Hne].
  - cbn [app]. rewrite !filter_cons_False by (intros H; by apply H). done.
  - rewrite !filter_cons_True by done. by rewrite IH.
Qed.

Lemma csv_row_string entry n :
  note entry = VStr n ->
  exists row, csv_row entry = Returned row /\ csv_row_of entry row.
Proof.
  intros Hn. unfold csv_row. rewrite Hn.
  assert (Hor : js_or (VStr n) (VStr []) = VStr n) by (by destruct n).
  rewrite Hor. eexists. split; [done|].
  exists n. eexists. split; [done|]. split; [done|].
  destruct (includes n [comma] || includes n [dquote]) eqn:Hinc.
  - apply orb_true_iff in Hinc. rewrite !includes_char in Hinc.
    split; [|split].
    + intros _. by rewrite replace_dquote_doubles.
    + intros Hc Hq. by destruct Hinc.
    + cbn [app]. rewrite filter_cons_False by (intros H; by apply H).
      rewrite filter_app, replace_dquote_others.
      rewrite (filter_cons_False _ dquote []) by (intros H; by apply H).
      by rewrite filter_nil, app_nil_r.
  - apply orb_false_iff in Hinc as [Hc Hq].
    apply not_true_iff_false in Hc, Hq. rewrite includes_char in Hc, Hq.
    split; [|split]; [|done..].
    intros [?|?]; done.
Qed.

Lemma join_rows_after (first : JsString) (rows : list JsString) :
  join [newline] (first :: rows) = first ++ concat ((fun r => newline :: r) <$> rows).
Proof.
  revert first. induction rows as [|r rows IH]; intros first.
  - cbn. by rewrite app_nil_r.
  - change (join [newline] (first :: r :: rows))
      with (first ++ [newline] ++ join [newline] (r :: rows)).
    rewrite IH. done.
Qed.

(** C4. For entries whose notes are strings, the CSV text is the header
    followed by one row per entry, each after a line break and in the order
    of the list; a row is the user id, the date, the rating and the note
    field, separated by commas; the note field is quoted with its quotes
    doubled exactly when the note has a comma or a double quote, is the note
    itself otherwise, and never changes a character of the note other than a
    double quote, so a line break in a note stays a bare line break.  This
    text is what [exportCSV] downloads when the fetch returns the entries. *)
Theorem exportCSV_rows (entries : list DocData) :
  Forall (fun e => exists n, note e = VStr n) entries ->
  exists rows,
    formatCSV entries
      = Returned (js "userId,date,rating,note"
                  ++ concat ((fun r => newline :: r) <$> rows))
    /\ Forall2 csv_row_of entries rows
    /\ forall col : Collection,
         getAllEntries None col = Returned entries ->
         exportCSV None col
         = Returned {| content := js "userId,date,rating,note"
                                  ++ concat ((fun r => newline :: r) <$> rows);
                       filename := js "daydicated-2026.csv";
                       mimeType := js "text/csv" |}.
Proof.
  intros Hstr.
  assert (H : exists rows, map_outcome csv_row entries = Returned rows
                           /\ Forall2 csv_row_of entries rows).
  { induction Hstr as [|e es [n Hn] _ (rows & Hrows & Hall)].
    - exists []. split; [done|constructor].
    - destruct (csv_row_string e n Hn) as (row & Hrow & Hof).
      exists (row :: rows). cbn [map_outcome]. rewrite Hrow, Hrows.
      split; [done|by constructor]. }
  destruct H as (rows & Hrows & Hall). exists rows.
  assert (Hf : formatCSV entries
               = Returned (js "userId,date,rating,note"
                           ++ concat ((fun r => newline :: r) <$> rows))).
  { unfold formatCSV. by rewrite Hrows, join_rows_after. }
  split; [done|]. split; [done|].
  intros col Hcol. unfold exportCSV. by rewrite Hcol, Hf.
Qed.

(** ** The JSON export *)

(** *** Strings *)

Lemma digit_value_hex_digit n : (n < 16)%N -> digit_value 16 (hex_digit n) = Some n.
Proof.
  intros Hn. unfold digit_value, hex_digit.
  destruct (N.ltb_spec n 10).
  - replace ((48 <=? 48 + n) && (48 + n <=? 57))%N with true
      by (symmetry; apply andb_true_iff; split; apply N.leb_le; lia).
    replace (48 + n - 48)%N with n by lia.
    by replace (n <? 16)%N with true by (symmetry; apply N.ltb_lt; lia).
  - replace ((48 <=? 87 + n) && (87 + n <=? 57))%N with false
      by (symmetry; apply andb_false_iff; right; apply N.leb_gt; lia).
    replace ((97 <=? 87 + n) && (87 + n <=? 122))%N with true
      by (symmetry; apply andb_true_iff; split; apply N.leb_le; lia).
    replace (87 + n - 87)%N with n by lia.
    by replace (n <? 16)%N with true by (symmetry; apply N.ltb_lt; lia).
Qed.

Lemma hex4_unicode_escape c :
  (c < 65536)%N ->
  hex4 (hex_digit (c / 4096 mod 16)) (hex_digit (c / 256 mod 16))
       (hex_digit (c / 16 mod 16)) (hex_digit (c mod 16)) = Some c.
Proof.
  intros Hc. unfold hex4.
  rewrite !digit_value_hex_digit by (apply N.mod_lt; done).
  f_equal.
  replace (c / 256)%N with (c / 16 / 16)%N by (by rewrite N.Div0.div_div).
  replace (c / 4096)%N with (c / 16 / 16 / 16)%N by (by rewrite !N.Div0.div_div).
  pose proof (N.div_mod c 16 ltac:(done)) as E1.
  pose proof (N.div_mod (c / 16) 16 ltac:(done)) as E2.
  pose proof (N.div_mod (c / 16 / 16) 16 ltac:(done)) as E3.
  pose proof (N.mod_lt c 16 ltac:(done)).
  pose proof (N.mod_lt (c / 16) 16 ltac:(done)).
  pose proof (N.mod_lt (c / 16 / 16) 16 ltac:(done)).
  assert (H3 : (c / 16 / 16 / 16 < 16)%N).
  { rewrite !N.Div0.div_div. apply N.Div0.div_lt_upper_bound. lia. }
  rewrite (N.mod_small _ _ H3).
  generalize dependent (c / 16 / 16 / 16)%N.
  generalize dependent (c / 16 / 16 mod 16)%N.
  generalize dependent (c / 16 / 16)%N.
  generalize dependent (c / 16 mod 16)%N.
  generalize dependent (c / 16)%N.
  generalize dependent (c mod 16)%N.
  intros. lia.
Qed.

Lemma parse_unicode_escape c rest :
  (c < 65536)%N ->
  parse_string_chars (unicode_escape c ++ rest) = prepend c (parse_string_chars rest).
Proof.
  intros Hc. unfold unicode_escape. cbn [app parse_string_chars].
  change (92 =? 34)%N with false. change (92 =? 92)%N with true.
  change (117 =? 117)%N with true. cbn iota.
  by rewrite hex4_unicode_escape.
Qed.

(** An ordinary character stands for itself. *)
Lemma parse_plain_char c rest :
  c <> 34%N -> c <> 92%N -> (32 <= c)%N ->
  parse_string_chars (c :: rest) = prepend c (parse_string_chars rest).
Proof.
  intros H34 H92 H32. cbn [parse_string_chars].
  destruct (N.eqb_spec c 34); [done|]. destruct (N.eqb_spec c 92); [done|].
  destruct (N.ltb_spec c 32); [lia|]. done.
Qed.

Lemma parse_simple_escape e x rest :
  simple_escape e = Some x -> e <> 117%N ->
  parse_string_chars (92%N :: e :: rest) = prepend x (parse_string_chars rest).
Proof.
  intros He Hu. cbn [parse_string_chars].
  change (92 =? 34)%N with false. change (92 =? 92)%N with true. cbn iota.
  destruct (N.eqb_spec e 117); [done|]. by rewrite He.
Qed.

Lemma surrogate_bounds c :
  is_leading_surrogate c = true \/ is_trailing_surrogate c = true ->
  (55296 <= c < 57344)%N.
Proof.
  unfold is_leading_surrogate, is_trailing_surrogate.
  intros [H|H]; apply andb_true_iff in H as [H1 H2];
    apply N.leb_le in H1, H2; lia.
Qed.

(** Reading what QuoteJSONString wrote gives the string back. *)
Lemma parse_quote_chars_bounded n : forall s rest,
  (length s <= n)%nat ->
  parse_string_chars (quote_chars s ++ dquote :: rest) = Parsed s rest.
Proof.
  induction n as [|n IH]; intros s rest Hlen.
  { destruct s; [done|cbn in Hlen; lia]. }
  destruct s as [|c s']; [done|].
  cbn [length] in Hlen.
  assert (IH1 : parse_string_chars (quote_chars s' ++ dquote :: rest) = Parsed s' rest)
    by (apply IH; lia).
  cbn [quote_chars].
  destruct (N.eqb_spec c 8) as [->|H8].
  { cbn [app]. rewrite (parse_simple_escape 98 8) by done. by rewrite IH1. }
  destruct (N.eqb_spec c 9) as [->|H9].
  { cbn [app]. rewrite (parse_simple_escape 116 9) by done. by rewrite IH1. }
  destruct (N.eqb_spec c 10) as [->|H10].
  { cbn [app]. rewrite (parse_simple_escape 110 10) by done. by rewrite IH1. }
  destruct (N.eqb_spec c 12) as [->|H12].
  { cbn [app]. rewrite (parse_simple_escape 102 12) by done. by rewrite IH1. }
  destruct (N.eqb_spec c 13) as [->|H13].
  { cbn [app]. rewrite (parse_simple_escape 114 13) by done. by rewrite IH1. }
  destruct (N.eqb_spec c 34) as [->|H34].
  { cbn [app]. rewrite (parse_simple_escape 34 34) by done. by rewrite IH1. }
  destruct (N.eqb_spec c 92) as [->|H92].
  { cbn [app]. rewrite (parse_simple_escape 92 92) by done. by rewrite IH1. }
  destruct (N.ltb_spec c 32) as [H32|H32].
  { rewrite <- app_assoc, parse_unicode_escape by lia. by rewrite IH1. }
  destruct (is_leading_surrogate c) eqn:Hlead.
  { pose proof (surrogate_bounds c (or_introl Hlead)) as Hb.
    destruct s' as [|d s''].
    - rewrite parse_unicode_escape by lia. done.
    - destruct (is_trailing_surrogate d) eqn:Htrail.
      + pose proof (surrogate_bounds d (or_intror Htrail)) as Hd.
        cbn [app]. rewrite !parse_plain_char by lia.
        rewrite IH; [done|]. cbn [length] in Hlen. lia.
      + rewrite <- app_assoc, parse_unicode_escape by lia. by rewrite IH1. }
  destruct (is_trailing_surrogate c) eqn:Htrail.
  { pose proof (surrogate_bounds c (or_intror Htrail)) as Hb.
    rewrite <- app_assoc, parse_unicode_escape by lia. by rewrite IH1. }
  cbn [app]. rewrite parse_plain_char by done. by rewrite IH1.
Qed.

Lemma parse_QuoteJSONString s rest :
  parse_string_chars (quote_chars s ++ dquote :: rest) = Parsed s rest.
Proof. by apply (parse_quote_chars_bounded (length s)). Qed.

(** *** Numbers *)

Lemma take_digits_separator c rest : separator c -> take_digits 10 (c :: rest) = [].
Proof. by intros [->| ->]. Qed.

Lemma parse_digits_numeral sign d ds c rest :
  Forall (fun x => (x < 10)%N) (d :: ds) ->
  d <> 0%N \/ ds = [] ->
  separator c ->
  parse_digits sign (List.map digit_char (d :: ds) ++ c :: rest)
  = Parsed (Number_of_signed sign (Z.of_N (digits_value (d :: ds)))) (c :: rest).
Proof.
  intros Hds Hlead Hc. unfold parse_digits.
  rewrite take_digits_numeral, take_digits_separator, app_nil_r by done.
  replace (drop (length (d :: ds)) (List.map digit_char (d :: ds) ++ c :: rest))
    with (c :: rest).
  2:{ rewrite <- (length_map digit_char (d :: ds)). by rewrite drop_app_length. }
  assert (Hz : ((d =? 0)%N && negb (bool_decide (ds = []))) = false).
  { destruct Hlead as [Hd| ->].
    - by destruct (N.eqb_spec d 0).
    - by rewrite andb_false_r. }
  rewrite Hz.
  by destruct Hc as [->| ->].
Qed.

Lemma strip_minus_numeral d ds rest :
  (d < 10)%N ->
  strip_minus (List.map digit_char (d :: ds) ++ rest)
  = (1, List.map digit_char (d :: ds) ++ rest).
Proof.
  intros Hd. cbn [List.map app strip_minus].
  by replace (digit_char d =? 45)%N with false
    by (symmetry; apply N.eqb_neq; unfold digit_char; lia).
Qed.

Lemma parse_number_decimal z c rest :
  Z.abs z < 2 ^ 53 ->
  separator c ->
  parse_number (decimal_Z z ++ c :: rest) = Parsed (DNum (JInt z)) (c :: rest).
Proof.
  intros Hz Hc. destruct z as [|p|p].
  - change (decimal_Z 0) with (List.map digit_char [0%N]).
    unfold parse_number. rewrite strip_minus_numeral by done.
    rewrite parse_digits_numeral; [done|by repeat constructor|by right|done].
  - destruct (decimal_N_spec (Npos p)) as (d & ds & Heq & Hds & Hv & Hlead).
    cbn [decimal_Z]. rewrite Heq. unfold parse_number.
    rewrite strip_minus_numeral by (by inversion Hds).
    rewrite parse_digits_numeral; [|done|left; intros E; by apply Hlead in E|done].
    rewrite Hv, Number_of_signed_small by lia. done.
  - destruct (decimal_N_spec (Npos p)) as (d & ds & Heq & Hds & Hv & Hlead).
    cbn [decimal_Z]. rewrite Heq. unfold parse_number.
    change (js "-") with [45%N]. cbn [app strip_minus].
    change (45 =? 45)%N with true. cbn iota.
    rewrite parse_digits_numeral; [|done|left; intros E; by apply Hlead in E|done].
    rewrite Hv, Number_of_signed_small by lia. done.
Qed.

(** *** White space and scalars *)

Lemma skip_ws_blank (w s : JsString) :
  Forall (fun c => is_json_ws c = true) w -> skip_ws (w ++ s) = skip_ws s.
Proof.
  induction 1 as [|c w Hc _ IH]; [done|].
  cbn [app skip_ws]. by rewrite Hc.
Qed.

Lemma skip_ws_stop c s : is_json_ws c = false -> skip_ws (c :: s) = c :: s.
Proof. intros Hc. cbn [skip_ws]. by rewrite Hc. Qed.

Lemma parse_value_blank fuel (w s : JsString) :
  Forall (fun c => is_json_ws c = true) w ->
  parse_value fuel (w ++ s) = parse_value fuel s.
Proof.
  intros Hw. destruct fuel as [|fuel]; [done|].
  cbn [parse_value]. by rewrite skip_ws_blank.
Qed.

Lemma decimal_Z_head z :
  exists c0 tl, decimal_Z z = c0 :: tl /\ (c0 = 45%N \/ (48 <= c0 <= 57)%N).
Proof.
  destruct z as [|p|p].
  - exists 48%N, []. split; [done|]. right. lia.
  - destruct (decimal_N_spec (Npos p)) as (d & ds & Heq & Hds & _).
    exists (digit_char d), (List.map digit_char ds). split; [done|].
    right. pose proof (Forall_inv Hds) as Hd. cbn beta in Hd. unfold digit_char. lia.
  - exists 45%N, (decimal_N (Npos p)). split; [done|]. by left.
Qed.

Lemma parse_value_numeral fuel c0 s :
  c0 = 45%N \/ (48 <= c0 <= 57)%N ->
  parse_value (S fuel) (c0 :: s)
  = match parse_number (c0 :: s) with
    | Parsed n r => Parsed (DVal (VNum n)) r
    | SyntaxError => SyntaxError
    | NotModelled => NotModelled
    end.
Proof.
  intros Hc. cbn [parse_value].
  assert (Hws : is_json_ws c0 = false).
  { unfold is_json_ws.
    repeat match goal with
    | |- context [(?a =? ?b)%N] =>
        replace (a =? b)%N with false by (symmetry; apply N.eqb_neq; lia)
    end. done. }
  rewrite skip_ws_stop by done.
  replace (c0 =? 123)%N with false by (symmetry; apply N.eqb_neq; lia).
  replace (c0 =? 91)%N with false by (symmetry; apply N.eqb_neq; lia).
  replace (c0 =? 34)%N with false by (symmetry; apply N.eqb_neq; lia).
  assert (Hd : ((c0 =? 45)%N || is_digit c0) = true).
  { destruct Hc as [->|Hc]; [done|]. apply orb_true_iff. right.
    unfold is_digit. apply andb_true_iff. split; apply N.leb_le; lia. }
  by rewrite Hd.
Qed.

(** A representable scalar is read back from its text, up to the comma or
    line break that follows it. *)
Lemma parse_value_scalar fuel v text c rest :
  json_faithful v ->
  serialize_scalar v = Some text ->
  separator c ->
  parse_value (S fuel) (text ++ c :: rest) = Parsed (DVal v) (c :: rest).
Proof.
  intros Hv Ht Hc. destruct v as [| |[|]|[[|z]| |neg]|s]; cbn in Hv, Ht; try done;
    injection Ht as <-.
  - reflexivity.
  - reflexivity.
  - reflexivity.
  - replace (Z.abs z <? 2 ^ 53) with true by (symmetry; by apply Z.ltb_lt).
    destruct (decimal_Z_head z) as (c0 & tl & Heq & Hc0).
    pose proof (parse_number_decimal z c rest Hv Hc) as Hn.
    rewrite Heq in Hn |- *. cbn [app] in Hn |- *.
    by rewrite parse_value_numeral, Hn.
  - unfold QuoteJSONString. cbn [app parse_value skip_ws].
    change (is_json_ws dquote) with false. cbn iota.
    change (dquote =? 123)%N with false. change (dquote =? 91)%N with false.
    change (dquote =? 34)%N with true. cbn iota.
    rewrite <- app_assoc. cbn [app]. by rewrite parse_QuoteJSONString.
Qed.

(** *** Objects with scalar members *)

Lemma blank_gap : blank gap.
Proof. by repeat constructor. Qed.

Lemma blank_app w1 w2 : blank w1 -> blank w2 -> blank (w1 ++ w2).
Proof. apply Forall_app_2. Qed.

Lemma parse_members_blank pv n (w s : JsString) acc :
  blank w -> parse_members pv n (w ++ s) acc = parse_members pv n s acc.
Proof.
  intros Hw. destruct n as [|n]; [done|].
  cbn [parse_members]. by rewrite skip_ws_blank.
Qed.

(** One member followed by [tail]: the key and the value are read, and
    [tail] decides how the object goes on. *)
Lemma parse_members_step fuel n k v text c tail acc :
  json_faithful v -> serialize_scalar v = Some text -> separator c ->
  parse_members (parse_value (S fuel)) (S n) (member_text k text ++ c :: tail) acc
  = match skip_ws (c :: tail) with
    | c2 :: r3 =>
        if (c2 =? 44)%N
        then parse_members (parse_value (S fuel)) n r3 (set_prop acc k (DVal v))
        else if (c2 =? 125)%N then Parsed (DObj (set_prop acc k (DVal v))) r3
        else SyntaxError
    | [] => SyntaxError
    end.
Proof.
  intros Hv Ht Hc. unfold member_text, QuoteJSONString.
  cbn [parse_members]. rewrite <- !app_assoc. cbn [app].
  rewrite skip_ws_stop by done.
  change (dquote =? 34)%N with true. cbn iota.
  rewrite parse_QuoteJSONString.
  change (js ": ") with [58%N; 32%N]. cbn [app].
  rewrite skip_ws_stop by done.
  change (58 =? 58)%N with true. cbn iota.
  change (32%N :: text ++ c :: tail) with ([32%N] ++ text ++ c :: tail).
  rewrite (parse_value_blank (S fuel) [32%N]) by (by repeat constructor).
  by rewrite (parse_value_scalar fuel v text c tail Hv Ht Hc).
Qed.

Lemma parse_members_texts fuel ind stepback rest : blank ind -> blank stepback ->
  forall ms m n acc,
    Forall member_ok (m :: ms) -> (length (m :: ms) <= n)%nat ->
    parse_members (parse_value (S fuel)) n
      (join (comma :: newline :: ind) (member_texts (m :: ms))
       ++ newline :: stepback ++ 125%N :: rest) acc
    = Parsed (DObj (add_members acc (m :: ms))) rest.
Proof.
  intros Hind Hstep. induction ms as [|m' ms IH]; intros m n acc Hok Hn.
  - destruct n as [|n]; [cbn in Hn; lia|].
    apply Forall_inv in Hok as [Hv Ht].
    cbn [member_texts List.map join].
    rewrite (parse_members_step fuel n _ _ _ newline _ acc Hv Ht) by (by right).
    change (newline :: stepback ++ 125%N :: rest)
      with ((newline :: stepback) ++ 125%N :: rest).
    rewrite (skip_ws_blank (newline :: stepback)) by (by constructor).
    by rewrite skip_ws_stop.
  - destruct n as [|n]; [cbn in Hn; lia|].
    pose proof (Forall_inv Hok) as [Hv Ht]. apply Forall_inv_tail in Hok.
    change (join (comma :: newline :: ind) (member_texts (m :: m' :: ms)))
      with (member_text m.1.1 m.2 ++ (comma :: newline :: ind)
            ++ join (comma :: newline :: ind) (member_texts (m' :: ms))).
    rewrite <- !app_assoc. cbn [app].
    rewrite (parse_members_step fuel n _ _ _ comma _ acc Hv Ht) by (by left).
    rewrite skip_ws_stop by done.
    change (comma =? 44)%N with true. cbn iota.
    match goal with
    | |- context [newline :: ind ++ ?s] =>
        change (newline :: ind ++ s) with ((newline :: ind) ++ s)
    end.
    rewrite (parse_members_blank _ _ (newline :: ind)) by (by constructor).
    rewrite IH; [done|done|cbn [length] in Hn |- *; lia].
Qed.

Lemma serialize_faithful v : json_faithful v -> is_Some (serialize_scalar v).
Proof. destruct v as [| |[|]|[[|z]| |neg]|s]; cbn; intros H; try done; by eexists. Qed.

Lemma serialize_entry_object ind e tr tn :
  serialize_scalar (rating e) = Some tr ->
  serialize_scalar (note e) = Some tn ->
  SerializeJSONProperty ind (entry_object e)
  = Some (wrap_items 123 125 ind (ind ++ gap) (member_texts (entry_members e tr tn))).
Proof.
  intros Hr Hn. unfold entry_object.
  cbn [SerializeJSONProperty List.flat_map]. rewrite Hr, Hn. reflexivity.
Qed.

Lemma parse_value_object fuel s :
  parse_value (S fuel) (123%N :: s)
  = match skip_ws s with
    | c1 :: r =>
        if (c1 =? 125)%N then Parsed (DObj []) r
        else parse_members (parse_value fuel) fuel (c1 :: r) []
    | [] => SyntaxError
    end.
Proof. reflexivity. Qed.

Lemma parse_value_array fuel s :
  parse_value (S fuel) (91%N :: s)
  = match skip_ws s with
    | c1 :: r =>
        if (c1 =? 93)%N then Parsed (DArr []) r
        else parse_elements (parse_value fuel) fuel (c1 :: r) []
    | [] => SyntaxError
    end.
Proof. reflexivity. Qed.

Lemma member_texts_head sep m ms tail :
  exists tl, join sep (member_texts (m :: ms)) ++ tail = dquote :: tl.
Proof. destruct ms; eexists; reflexivity. Qed.

Lemma parse_entry_object fuel ind e text c rest :
  entry_faithful e -> blank ind -> separator c -> (4 <= fuel)%nat ->
  SerializeJSONProperty ind (entry_object e) = Some text ->
  parse_value (S fuel) (text ++ c :: rest) = Parsed (entry_object e) (c :: rest).
Proof.
  intros [Hr Hn] Hind Hc Hfuel Htext.
  destruct (serialize_faithful _ Hr) as [tr Htr].
  destruct (serialize_faithful _ Hn) as [tn Htn].
  rewrite (serialize_entry_object ind e tr tn Htr Htn) in Htext.
  injection Htext as <-.
  destruct fuel as [|fuel]; [lia|].
  assert (Hok : Forall member_ok (entry_members e tr tn)).
  { repeat constructor; done. }
  assert (Hm : parse_members (parse_value (S fuel)) (S fuel)
                 (join (comma :: newline :: ind ++ gap)
                       (member_texts (entry_members e tr tn))
                  ++ newline :: ind ++ 125%N :: c :: rest) []
               = Parsed (DObj (add_members [] (entry_members e tr tn))) (c :: rest)).
  { apply (parse_members_texts fuel (ind ++ gap) ind (c :: rest)
             (blank_app _ _ Hind blank_gap) Hind);
      [done|cbn [entry_members length]; lia]. }
  destruct (member_texts_head (comma :: newline :: ind ++ gap)
              (js "userId", VStr (userId e), QuoteJSONString (userId e))
              (tail (entry_members e tr tn))
              (newline :: ind ++ 125%N :: c :: rest)) as [tl Htl].
  change ((js "userId", VStr (userId e), QuoteJSONString (userId e))
          :: tail (entry_members e tr tn)) with (entry_members e tr tn) in Htl.
  unfold wrap_items. rewrite <- !app_assoc.
  change ([123%N] ++ ?s) with (123%N :: s).
  rewrite parse_value_object.
  rewrite (skip_ws_blank [newline]) by (by repeat constructor).
  rewrite (skip_ws_blank ind), (skip_ws_blank gap) by (done || apply blank_gap).
  change ([newline] ++ ind ++ [125%N] ++ c :: rest)
    with (newline :: ind ++ 125%N :: c :: rest).
  change [member_text (js "userId") (QuoteJSONString (userId e));
          member_text (js "date") (QuoteJSONString (date e));
          member_text (js "rating") tr; member_text (js "note") tn]
    with (member_texts (entry_members e tr tn)).
  rewrite Htl in Hm |- *.
  rewrite skip_ws_stop by done.
  change (dquote =? 125)%N with false. cbn iota.
  rewrite Hm. reflexivity.
Qed.

(** *** The array of entries *)

Lemma parse_elements_blank fuel n (w s : JsString) acc :
  blank w ->
  parse_elements (parse_value fuel) n (w ++ s) acc
  = parse_elements (parse_value fuel) n s acc.
Proof.
  intros Hw. destruct n as [|n]; [done|].
  cbn [parse_elements]. by rewrite parse_value_blank.
Qed.

Lemma element_text_entry ind e :
  SerializeJSONProperty ind (entry_object e) = Some (element_text ind (entry_object e)).
Proof. reflexivity. Qed.

Lemma parse_elements_entries fuel rest : (4 <= fuel)%nat ->
  forall es e n acc,
    Forall entry_faithful (e :: es) -> (length (e :: es) <= n)%nat ->
    parse_elements (parse_value (S fuel)) n
      (join (comma :: newline :: gap)
            (List.map (element_text gap) (List.map entry_object (e :: es)))
       ++ newline :: 93%N :: rest) acc
    = Parsed (DArr (acc ++ List.map entry_object (e :: es))) rest.
Proof.
  intros Hfuel. induction es as [|e' es IH]; intros e n acc Hok Hn.
  - destruct n as [|n]; [cbn in Hn; lia|].
    apply Forall_inv in Hok.
    cbn [List.map join parse_elements].
    rewrite (parse_entry_object fuel gap e _ newline (93%N :: rest) Hok blank_gap)
      by (by right || done || apply element_text_entry).
    reflexivity.
  - destruct n as [|n]; [cbn in Hn; lia|].
    pose proof (Forall_inv Hok) as He. apply Forall_inv_tail in Hok.
    change (join (comma :: newline :: gap)
              (List.map (element_text gap) (List.map entry_object (e :: e' :: es))))
      with (element_text gap (entry_object e) ++ (comma :: newline :: gap)
            ++ join (comma :: newline :: gap)
                 (List.map (element_text gap) (List.map entry_object (e' :: es)))).
    rewrite <- !app_assoc. cbn [app parse_elements].
    rewrite (parse_entry_object fuel gap e _ comma _ He blank_gap)
      by (by left || done || apply element_text_entry).
    rewrite skip_ws_stop by done.
    change (comma =? 44)%N with true. cbn iota.
    match goal with
    | |- context [parse_elements _ _ (newline :: gap ++ ?s) _] =>
        change (newline :: gap ++ s) with ((newline :: gap) ++ s)
    end.
    rewrite parse_elements_blank by (constructor; [done|apply blank_gap]).
    rewrite IH; [|done|cbn [length] in Hn |- *; lia].
    by rewrite <- app_assoc.
Qed.

Lemma join_length (sep : JsString) (rows : list JsString) :
  Forall (fun r => r <> []) rows -> (length rows <= length (join sep rows))%nat.
Proof.
  induction 1 as [|r rows Hr Hrows IH]; [done|].
  assert (1 <= length r)%nat by (destruct r; [done|cbn; lia]).
  destruct rows as [|r' rows]; [cbn; lia|].
  change (join sep (r :: r' :: rows)) with (r ++ sep ++ join sep (r' :: rows)).
  rewrite !length_app. cbn [length] in IH |- *. lia.
Qed.

Lemma element_text_head ind e :
  exists tl, element_text ind (entry_object e) = 123%N :: tl.
Proof.
  unfold element_text. cbn [entry_object SerializeJSONProperty List.flat_map].
  destruct (serialize_scalar (rating e)), (serialize_scalar (note e));
    eexists; reflexivity.
Qed.

Lemma element_text_nonempty ind e : element_text ind (entry_object e) <> [].
Proof. destruct (element_text_head ind e) as [tl ->]. done. Qed.

Lemma formatJSON_text e es :
  formatJSON (e :: es)
  = 91%N :: newline :: gap
    ++ join (comma :: newline :: gap)
         (List.map (element_text gap) (List.map entry_object (e :: es)))
    ++ newline :: 93%N :: [].
Proof. reflexivity. Qed.

(** The text of a non-empty array is read by reading its elements. *)
Lemma JSON_parse_array (body tl : JsString) v :
  body ++ [newline; 93%N] = 123%N :: tl ->
  parse_elements (parse_value (S (5 + length body))) (S (5 + length body))
    (body ++ [newline; 93%N]) [] = Parsed v [] ->
  JSON_parse (91%N :: newline :: gap ++ body ++ [newline; 93%N]) = Parsed v [].
Proof.
  intros Hhead Hp. unfold JSON_parse.
  assert (HL : length (91%N :: newline :: gap ++ body ++ [newline; 93%N])
               = S (5 + length body)).
  { cbn [length]. rewrite !length_app. unfold gap.
    cbn [length js list_ascii_of_string List.map]. lia. }
  rewrite HL. rewrite parse_value_array.
  change (newline :: gap ++ body ++ [newline; 93%N])
    with ((newline :: gap) ++ body ++ [newline; 93%N]).
  rewrite skip_ws_blank by (constructor; [done|apply blank_gap]).
  rewrite Hhead in Hp |- *.
  rewrite skip_ws_stop by done.
  change (123 =? 93)%N with false. cbn iota.
  rewrite Hp. reflexivity.
Qed.

(** C5, as the code has it. For entries whose rating and note are scalars
    that JSON represents (a string, a boolean, [null], or an integer below
    2^53 in magnitude), reading the text that [exportJSON] writes gives the
    array of the entry objects back: the same objects in the same order,
    each with the same four properties. *)
Theorem json_round_trip (entries : list DocData) :
  Forall entry_faithful entries ->
  JSON_parse (formatJSON entries) = Parsed (DArr (List.map entry_object entries)) []
  /\ forall col : Collection,
       getAllEntries None col = Returned entries ->
       exists file, exportJSON None col = Returned file
                    /\ content file = formatJSON entries.
Proof.
  intros Hok. split.
  2:{ intros col Hcol. unfold exportJSON. rewrite Hcol. by eexists. }
  destruct entries as [|e es]; [reflexivity|].
  rewrite formatJSON_text.
  destruct (element_text_head gap e) as [tl0 Hhd].
  assert (Hhead : exists tl,
            join (comma :: newline :: gap)
              (List.map (element_text gap) (List.map entry_object (e :: es)))
            ++ [newline; 93%N] = 123%N :: tl).
  { cbn [List.map]. rewrite Hhd. destruct es; eexists; reflexivity. }
  destruct Hhead as [tl Htl].
  apply (JSON_parse_array _ tl _ Htl).
  apply (parse_elements_entries (5 + _) []); [lia|done|].
  etrans; [|apply le_S, Nat.le_add_l].
  etrans; [|apply join_length].
  - by rewrite !length_map.
  - clear. apply Forall_forall. intros r Hr. apply list_elem_of_In in Hr.
    apply in_map_iff in Hr as (x & <- & Hx).
    apply in_map_iff in Hx as (e0 & <- & _). apply element_text_nonempty.
Qed.

(** * Properties of the rest of the modules *)

(** ** Strings and finite checks *)

Lemma str_compare_eq a : forall b, str_compare a b = Eq -> a = b.
Proof.
  induction a as [|x a IH]; intros [|y b]; cbn; try done.
  destruct (N.compare_spec x y) as [->|?|?]; try done.
  intros H. by rewrite (IH _ H).
Qed.

Lemma str_eqb_eq a b : str_eqb a b = true -> a = b.
Proof.
  unfold str_eqb. destruct (str_compare a b) eqn:E; try done.
  intros _. by apply str_compare_eq.
Qed.

(** A check that holds on every element of a range holds on each integer of
    the range. *)
Lemma forallb_seqZ (P : Z -> bool) a len z :
  forallb P (seqZ a len) = true -> a <= z < a + len -> P z = true.
Proof.
  intros Hall Hz. rewrite forallb_forall in Hall. apply Hall.
  apply list_elem_of_In, elem_of_seqZ. lia.
Qed.

(** ** Date strings *)

Lemma padStart_two_digits n :
  0 <= n <= 99 -> padStart 2 (js "0") (decimal_Z n) = two_digits n.
Proof.
  intros Hn. apply str_eqb_eq.
  apply (forallb_seqZ
           (fun n => str_eqb (padStart 2 (js "0") (decimal_Z n)) (two_digits n)) 0 100);
    [vm_compute; reflexivity|lia].
Qed.

(** In a regular time zone, the object built for a day of a month of a
    four-digit year holds a time value whose local day is that day. *)
Lemma new_Date_local_day_in_month y m dt :
  timezone_regular ->
  1000 <= y <= 9999 -> 0 <= m <= 11 -> 1 <= dt <= 31 ->
  exists t, new_Date y m dt = Some t
            /\ Day (LocalTime t)
               = DayFromYear y
                 + (month_start m (if DaysInYear y =? 366 then 1 else 0) + dt - 1).
Proof.
  intros [Hoff Hmid] Hy Hm Hdt.
  assert (Hfull : MakeFullYear y = y).
  { unfold MakeFullYear. destruct (Z.leb_spec y 99); [lia|]. by rewrite andb_false_r. }
  set (l := if DaysInYear y =? 366 then 1 else 0).
  assert (Hl : 0 <= l <= 1) by (subst l; destruct (DaysInYear y =? 366); lia).
  pose proof (month_start_bounds m l Hl) as Hms.
  pose proof (DayFromYear_bounds y ltac:(lia)) as Hdy.
  exists (UTC ((DayFromYear y + month_start m l + dt - 1) * msPerDay)).
  split; [|rewrite Hmid; lia].
  unfold new_Date, MakeDay. rewrite Hfull.
  rewrite (Z.div_small m 12), (Z.mod_small m 12), Z.add_0_r by lia. fold l.
  unfold TimeFromYear. rewrite <- Z.mul_add_distr_l, Day_mul.
  assert (Hclip : (Z.abs (msPerDay * (DayFromYear y + month_start m l)) <=? maxTime) = true).
  { apply Z.leb_le. unfold msPerDay, maxTime. lia. }
  rewrite Hclip. cbn [MakeDate option_map TimeClip].
  unfold MakeTime. rewrite !Z.mul_0_l, !Z.add_0_r.
  assert (Hclip2 : (Z.abs (UTC ((DayFromYear y + month_start m l + dt - 1) * msPerDay))
                    <=? maxTime) = true).
  { apply Z.leb_le. unfold UTC.
    pose proof (Hoff ((DayFromYear y + month_start m l + dt - 1) * msPerDay) false).
    unfold msPerDay, maxTime in *. lia. }
  by rewrite Hclip2.
Qed.

(** The year, month and date of the day [d] of month [m] of year [y]. *)
Lemma fields_of_day_in_month t y m d :
  0 <= m <= 11 -> 1 <= d <= gregorian_days_in_month y m ->
  Day t = DayFromYear y + (month_start m (if DaysInYear y =? 366 then 1 else 0) + d - 1) ->
  YearFromTime t = y /\ MonthFromTime t = m /\ DateFromTime t = d.
Proof.
  intros Hm Hd Ht.
  pose proof (DaysInYear_leap y) as Hleap.
  unfold gregorian_days_in_month in Hd.
  rewrite Hleap in Ht.
  split_months m Hm'; cbn [month_start] in Ht; destruct (is_leap_year y);
    cbn in Ht, Hleap, Hd;
    match type of Ht with
    | _ = _ + ?k =>
        assert (Hr : 0 <= k < DaysInYear y) by (rewrite Hleap; lia);
        pose proof (DateFromTime_of_day t y k Ht Hr) as Hdate;
        destruct (day_of_year t y k Ht Hr) as (Hyear & _ & _);
        rewrite Hleap in Hdate; cbn in Hdate;
        split; [exact Hyear|];
        repeat match type of Hdate with
        | context [?a <? ?b] => destruct (Z.ltb_spec a b); try lia
        end;
        injection Hdate as -> ->; split; [reflexivity|lia]
    end.
Qed.

Lemma gregorian_days_in_month_bounds y m : 28 <= gregorian_days_in_month y m <= 31.
Proof.
  unfold gregorian_days_in_month.
  repeat match goal with
  | |- context [match ?x with _ => _ end] => destruct x
  end; lia.
Qed.

Lemma Number_toString_small z : Z.abs z < 2 ^ 53 -> Number_toString (JInt z) = decimal_Z z.
Proof. intros Hz. cbn. by replace (Z.abs z <? 2 ^ 53) with true by (symmetry; by apply Z.ltb_lt). Qed.

(** The date string of a day of a month of a four-digit year. *)
Lemma formatDate_of_day y m d :
  timezone_regular ->
  1000 <= y <= 9999 -> 0 <= m <= 11 -> 1 <= d <= gregorian_days_in_month y m ->
  formatDate (new_Date y m d) = iso_date y m d.
Proof.
  intros Htz Hy Hm Hd.
  pose proof (gregorian_days_in_month_bounds y m) as Hb.
  destruct (new_Date_local_day_in_month y m d Htz) as (t & -> & Hday); [lia..|].
  destruct (fields_of_day_in_month _ y m d Hm Hd Hday) as (Hyear & Hmonth & Hdate).
  unfold formatDate, iso_date.
  cbn [Date_getFullYear Date_getMonth Date_getDate js_succ].
  rewrite Hyear, Hmonth, Hdate.
  rewrite !Number_toString_small by lia.
  by rewrite !padStart_two_digits by lia.
Qed.

(** ** parseInt reads a leading numeral *)

(** [parseInt] reads the numeral at the start of a string and ignores what
    follows it, from the first character that is not a digit. *)
Lemma parseInt_leading_numeral z c rest :
  Z.abs z < 2 ^ 53 ->
  digit_value 10 c = None -> c <> 120%N -> c <> 88%N ->
  parseInt (VStr (decimal_Z z ++ c :: rest)) = JInt z.
Proof.
  intros Hz Hc Hx HX. apply parseInt_decimal_then; [done|].
  split; [by apply digit_value_decimal|done].
Qed.

Lemma digit_char_inj a b : digit_char a = digit_char b -> a = b.
Proof. unfold digit_char. lia. Qed.

Lemma two_digits_inj a b : 0 <= a <= 99 -> 0 <= b <= 99 -> two_digits a = two_digits b -> a = b.
Proof.
  intros Ha Hb [= H1 H2]. apply digit_char_inj in H1, H2.
  assert (0 <= a / 10 /\ 0 <= b / 10 /\ 0 <= a mod 10 /\ 0 <= b mod 10) by div_lia.
  assert (a / 10 = b / 10) by lia. assert (a mod 10 = b mod 10) by lia.
  div_lia.
Qed.

(** Date strings determine the day they name. *)
Lemma iso_date_inj y m d y' m' d' :
  Z.abs y < 2 ^ 53 -> Z.abs y' < 2 ^ 53 ->
  0 <= m <= 11 -> 0 <= m' <= 11 -> 1 <= d <= 31 -> 1 <= d' <= 31 ->
  iso_date y m d = iso_date y' m' d' -> y = y' /\ m = m' /\ d = d'.
Proof using big_number_to_string.
  intros Hy0 Hy0' Hm Hm' Hd Hd' Heq.
  assert (Hy : y = y').
  { apply (f_equal (fun s => parseInt (VStr s))) in Heq. unfold iso_date in Heq.
    change (js "-") with [45%N] in Heq. cbn [app] in Heq.
    rewrite !parseInt_leading_numeral in Heq by done. by injection Heq. }
  subst y'. split; [done|].
  unfold iso_date in Heq. apply app_inv_head in Heq.
  change (js "-") with [45%N] in Heq. cbn [app two_digits] in Heq.
  injection Heq as H1 H2 H3 H4.
  assert (Hmm : m + 1 = m' + 1).
  { apply two_digits_inj; [lia..|]. unfold two_digits. by rewrite H1, H2. }
  split; [lia|].
  apply two_digits_inj; [lia..|]. unfold two_digits. by rewrite H3, H4.
Qed.

(** X1. In a regular time zone, the date string of day [d] of month [m] of
    a four-digit year is the year, a dash, the month counted from 1 in two
    digits, a dash and the day in two digits. *)
Theorem formatDate_iso y m d :
  timezone_regular ->
  1000 <= y <= 9999 -> 0 <= m <= 11 -> 1 <= d <= gregorian_days_in_month y m ->
  formatDate (new_Date y m d)
  = decimal_Z y ++ js "-" ++ two_digits (m + 1) ++ js "-" ++ two_digits d.
Proof. intros. by apply formatDate_of_day. Qed.

(** X2. In a regular time zone, two days of four-digit years have the same
    date string only if they are the same day: the keys of the cache tell
    the days apart. *)
Theorem formatDate_injective y m d y' m' d' :
  timezone_regular ->
  1000 <= y <= 9999 -> 0 <= m <= 11 -> 1 <= d <= gregorian_days_in_month y m ->
  1000 <= y' <= 9999 -> 0 <= m' <= 11 -> 1 <= d' <= gregorian_days_in_month y' m' ->
  formatDate (new_Date y m d) = formatDate (new_Date y' m' d') ->
  y = y' /\ m = m' /\ d = d'.
Proof.
  intros Htz Hy Hm Hd Hy' Hm' Hd' Heq.
  rewrite !formatDate_of_day in Heq by done.
  pose proof (gregorian_days_in_month_bounds y m).
  pose proof (gregorian_days_in_month_bounds y' m').
  apply iso_date_inj in Heq; [done|lia..].
Qed.

(** ** The grid of a month *)

Lemma seqZ_succ_nat j (k : nat) :
  seqZ j (Z.of_nat (S k)) = j :: seqZ (j + 1) (Z.of_nat k).
Proof.
  rewrite seqZ_cons by lia. f_equal. f_equal; lia.
Qed.

(** The loop over the days, when every cell is built: the rows it closes
    have seven cells each, the cells are the ones it started with followed
    by the cells of the days in order, and the row left open has between one
    and seven cells. *)
Lemma days_loop_layout f n cell (cells : Z -> Elem) :
  0 <= f <= 6 ->
  (forall day, 1 <= day <= n -> cell day = inr (cells day)) ->
  forall (k : nat) j weeks cur,
    1 <= j -> j + Z.of_nat k = n + 1 ->
    Z.of_nat (length cur) = (f + j - 1) mod 7 ->
    exists weeks' cur',
      days_loop cell (JInt f) (JInt n) (seqZ j (Z.of_nat k)) weeks cur
      = inr (weeks ++ weeks', cur')
      /\ Forall full_week weeks'
      /\ concat (el_children <$> weeks') ++ cur' = cur ++ (cells <$> seqZ j (Z.of_nat k))
      /\ (k <> O -> Z.of_nat (length cur') = (f + n - 1) mod 7 + 1)
      /\ (k = O -> cur' = cur).
Proof.
  intros Hf Hcell. induction k as [|k IH]; intros j weeks cur Hj Hjk Hlen.
  { exists [], cur. cbn. rewrite !app_nil_r. done. }
  rewrite seqZ_succ_nat. cbn [days_loop]. rewrite Hcell by lia.
  unfold starts_new_week. rewrite Z.rem_mod_nonneg by lia.
  assert (Hlen1 : Z.of_nat (length (cur ++ [cells j])) = (f + j - 1) mod 7 + 1).
  { rewrite length_app. cbn [length]. lia. }
  destruct k as [|k].
  - (* the last day *)
    assert (j = n) by lia. subst j.
    replace (n <? n) with false by (symmetry; apply Z.ltb_ge; lia).
    rewrite andb_false_r. cbn [days_loop seqZ].
    exists [], (cur ++ [cells n]). rewrite app_nil_r. cbn.
    split; [done|]. split; [done|]. split; [done|]. split; done.
  - replace (j <? n) with true by (symmetry; apply Z.ltb_lt; lia).
    rewrite andb_true_r. destruct (Z.eqb_spec ((f + j) mod 7) 0) as [H0|H0].
    + destruct (IH (j + 1) (weeks ++ [week_row (cur ++ [cells j])]) [])
        as (weeks' & cur' & Hrun & Hall & Hcat & Hlast & _); [lia|lia| |].
      { cbn [length]. replace (f + (j + 1) - 1) with (f + j) by lia. lia. }
      exists (week_row (cur ++ [cells j]) :: weeks'), cur'.
      rewrite Hrun, <- app_assoc. cbn [app].
      split; [done|]. split.
      { constructor; [|done]. split; [done|]. cbn [week_row el_children].
        apply Nat2Z.inj. rewrite Hlen1. forget_host. Z.div_mod_to_equations. lia. }
      split.
      { rewrite fmap_cons. cbn [concat week_row el_children].
        rewrite <- !app_assoc. rewrite Hcat. cbn [app]. by rewrite fmap_cons. }
      split; [intros _; by apply Hlast|done].
    + destruct (IH (j + 1) weeks (cur ++ [cells j]))
        as (weeks' & cur' & Hrun & Hall & Hcat & Hlast & _); [lia|lia| |].
      { rewrite Hlen1. replace (f + (j + 1) - 1) with (f + j) by lia.
        forget_host. Z.div_mod_to_equations. lia. }
      exists weeks', cur'. rewrite Hrun.
      split; [done|]. split; [done|]. split.
      { rewrite Hcat, fmap_cons, <- app_assoc. done. }
      split; [intros _; by apply Hlast|done].
Qed.

(** When the loop returns, every cell was built. *)
Lemma days_loop_returns cell firstDay daysInMonth days : forall weeks cur res,
  days_loop cell firstDay daysInMonth days weeks cur = inr res ->
  Forall (fun day => exists c, cell day = inr c) days.
Proof.
  induction days as [|day days IH]; intros weeks cur res Hrun; [constructor|].
  cbn [days_loop] in Hrun. destruct (cell day) as [e|c] eqn:Hc; [done|].
  constructor; [by eexists|].
  destruct (starts_new_week firstDay daysInMonth day); by eapply IH.
Qed.

Lemma getDaysInMonth_value y m :
  timezone_regular -> 1000 <= y <= 9999 -> 0 <= m <= 11 ->
  getDaysInMonth m y = JInt (gregorian_days_in_month y m).
Proof.
  intros Htz Hy Hm. unfold getDaysInMonth.
  destruct (new_Date_local_day y (m + 1) 0 Htz) as (t & -> & Hday); [lia..|].
  cbn [Date_getDate]. f_equal. by apply DateFromTime_last_day_of_month.
Qed.

Lemma getFirstDayOfMonth_value y m :
  timezone_regular -> 1000 <= y <= 9999 -> 0 <= m <= 11 ->
  getFirstDayOfMonth m y = JInt (zeller_weekday y m 1).
Proof.
  intros Htz Hy Hm. unfold getFirstDayOfMonth.
  destruct (new_Date_local_day y m 1 Htz) as (t & -> & Hday); [lia..|].
  cbn [Date_getDay]. f_equal. rewrite <- first_weekday_zeller by done.
  unfold WeekDay, first_weekday. rewrite Hday. unfold day_number.
  rewrite (Z.div_small m 12), (Z.mod_small m 12), Z.add_0_r by lia.
  f_equal. lia.
Qed.

Lemma zeller_weekday_bounds y m q : 0 <= zeller_weekday y m q <= 6.
Proof.
  unfold zeller_weekday.
  match goal with |- 0 <= ?a mod 7 <= 6 => pose proof (Z.mod_pos_bound a 7) end. lia.
Qed.

Lemma listeners_empty_cells k : concat (List.map listeners (replicate k empty_cell)) = [].
Proof. induction k as [|k IH]; [done|]. cbn. exact IH. Qed.

Lemma listeners_weeks weeks :
  Forall full_week weeks ->
  concat (List.map listeners weeks)
  = concat (List.map listeners (concat (el_children <$> weeks))).
Proof.
  induction 1 as [|w weeks [Hw _] _ IH]; [done|].
  change (concat (List.map listeners (w :: weeks)))
    with (listeners w ++ concat (List.map listeners weeks)).
  change (concat (el_children <$> w :: weeks))
    with (el_children w ++ concat (el_children <$> weeks)).
  rewrite List.map_app, concat_app, <- IH.
  f_equal. rewrite Hw at 1. cbn. done.
Qed.

(** The card of a month, when it is built: the header, the row of the day
    names, and rows of seven cells that hold, in order, an empty cell for
    each weekday before the first day, the cells of the days, and fewer than
    seven empty cells. *)
Lemma renderMonth_layout month isEditable st card :
  timezone_regular -> 0 <= month <= 11 ->
  renderMonth month isEditable st = inr card ->
  exists header names weeks cells trailing,
    card = Div [js "card"; js "mb-4"] [] None
               [header; Div [js "card-body"; js "p-2"] [] None (names :: weeks)]
    /\ listeners header = [] /\ listeners names = []
    /\ Forall full_week weeks
    /\ Forall2 (fun d c => day_cell month d isEditable st = inr c)
               (seqZ 1 (gregorian_days_in_month YEAR month)) cells
    /\ concat (el_children <$> weeks)
       = replicate (Z.to_nat (zeller_weekday YEAR month 1)) empty_cell
         ++ cells ++ replicate trailing empty_cell
    /\ (trailing < 7)%nat.
Proof.
  intros Htz Hm. unfold renderMonth.
  rewrite getDaysInMonth_value, getFirstDayOfMonth_value by (done || (unfold YEAR; lia)).
  pose proof (zeller_weekday_bounds YEAR month 1) as Hf.
  pose proof (gregorian_days_in_month_bounds YEAR month) as Hn.
  set (f := zeller_weekday YEAR month 1) in *.
  set (n := gregorian_days_in_month YEAR month) in *.
  cbn [days_upto leading_blanks].
  destruct (days_loop _ _ _ _ _ _) as [e|[weeks cur]] eqn:Hrun; [done|].
  cbn [render_bind]. intros [= <-].
  pose proof (days_loop_returns _ _ _ _ _ _ _ Hrun) as Hcells.
  set (cells := fun day => match day_cell month day isEditable st with
                           | inr c => c
                           | inl _ => empty_cell
                           end).
  destruct (days_loop_layout f n (fun day => day_cell month day isEditable st) cells Hf)
    with (k := Z.to_nat n) (j := 1) (weeks := @nil Elem)
         (cur := replicate (Z.to_nat f) empty_cell)
    as (weeks' & cur' & Hrun' & Hfull & Hcat & Hlast & _).
  { intros day Hday. rewrite Forall_forall in Hcells.
    destruct (Hcells day) as [c Hc]; [apply elem_of_seqZ; lia|].
    cbn beta in Hc. unfold cells. by rewrite Hc. }
  { lia. }
  { lia. }
  { rewrite length_replicate. replace (f + 1 - 1) with f by lia.
    rewrite Z.mod_small; lia. }
  rewrite Z2Nat.id in Hrun', Hcat by lia.
  rewrite Hrun in Hrun'. cbn [app] in Hrun'. injection Hrun' as -> ->.
  specialize (Hlast ltac:(lia)).
  assert (Hlen : 1 <= Z.of_nat (length cur') <= 7).
  { pose proof (Z.mod_pos_bound (f + n - 1) 7). lia. }
  replace (7 - Z.of_nat (length cur') <? 7) with true by (symmetry; apply Z.ltb_lt; lia).
  rewrite length_app, length_replicate.
  replace (0 <? _) with true by (symmetry; apply Z.ltb_lt; lia).
  eexists _, _, _, (cells <$> seqZ 1 n), (Z.to_nat (7 - Z.of_nat (length cur'))).
  split; [reflexivity|]. split; [done|]. split; [done|]. split.
  { apply Forall_app. split; [done|]. constructor; [|done]. split; [done|].
    cbn [week_row el_children]. rewrite length_app, length_replicate. lia. }
  split.
  { rewrite Forall2_fmap_r. apply Forall_Forall2_diag, Forall_forall. intros day Hday.
    rewrite Forall_forall in Hcells. destruct (Hcells day Hday) as [c Hc].
    cbn beta in Hc. unfold cells, compose. by rewrite Hc. }
  split; [|lia].
  rewrite fmap_app, concat_app. cbn [fmap list_fmap concat week_row el_children].
  rewrite app_nil_r, app_assoc, Hcat, <- !app_assoc. done.
Qed.

(** ** The cells of the days *)

Lemma classList_add_returns classes token :
  token <> [] -> existsb is_ascii_whitespace token = false ->
  exists classes', classList_add classes token = inr classes'.
Proof.
  intros Hne Hws. unfold classList_add. destruct token as [|c token]; [done|].
  rewrite Hws. destruct (bool_decide _); by eexists.
Qed.

Lemma decimal_N_no_whitespace n : existsb is_ascii_whitespace (decimal_N n) = false.
Proof.
  destruct (decimal_N_spec n) as (d & ds & -> & Hds & _).
  induction Hds as [|x l Hx _ IH]; [done|].
  cbn [List.map existsb]. rewrite IH, orb_false_r.
  unfold is_ascii_whitespace, digit_char.
  repeat match goal with
  | |- context [(?a =? ?b)%N] => replace (a =? b)%N with false by (symmetry; apply N.eqb_neq; lia)
  end. done.
Qed.

(** The cell of a day is built when the entry of its date, if there is one,
    is presentable. *)
Lemma day_cell_presentable month day isEditable st :
  (forall d e, currentEntries st !! d = Some e -> presentable e) ->
  exists c, day_cell month day isEditable st = inr c.
Proof using Type.
  intros Hall. unfold day_cell.
  set (dateStr := formatDate (new_Date YEAR month day)).
  set (classes0 := [js "day-cell"; _; _; _; _]).
  assert (Hed : forall cl, exists cl',
             (if isEditable then classList_add cl (js "editable") else inr cl) = inr cl').
  { intros cl. destruct isEditable; [|by eexists].
    apply classList_add_returns; [done|]. vm_compute. reflexivity. }
  destruct (currentEntries st !! dateStr) as [e|] eqn:He.
  - destruct (Hall _ _ He) as [Hr Hn].
    assert (Hnote : exists shown,
               (if ToBoolean (c_note e)
                then match c_note e with
                     | VStr s =>
                         inr [Div [js "text-muted"; js "small"; js "text-truncate"]
                                [(js "style.fontSize", js "0.65rem");
                                 (js "textContent", take 10 s);
                                 (js "title", s)] None []]
                     | _ => inl NotAFunction
                     end
                else inr []) = inr shown).
    { destruct Hn as [->|[s ->]]; [by eexists|].
      destruct (ToBoolean (VStr s)); by eexists. }
    destruct Hnote as [shown ->].
    destruct Hr as [->|(z & -> & Hz & Hmax)].
    + cbn [render_bind]. destruct (Hed classes0) as [cl' ->]. by eexists.
    + assert (Htrue : ToBoolean (VNum (JInt z)) = true).
      { cbn. apply negb_true_iff, Z.eqb_neq. lia. }
      rewrite Htrue.
      destruct (classList_add_returns classes0 (js "rating-" ++ ToString (VNum (JInt z))))
        as [cl1 ->].
      { done. }
      { rewrite existsb_app. cbn [ToString Double_toString]. rewrite Number_toString_small by lia.
        destruct z as [|p|p]; [lia| |lia]. cbn [decimal_Z].
        rewrite decimal_N_no_whitespace. vm_compute. reflexivity. }
      cbn [render_bind]. destruct (Hed cl1) as [cl' ->]. cbn [render_bind].
      unfold String_repeat. cbn [ToIntegerOrInfinity].
      replace (z <? 0) with false by (symmetry; apply Z.ltb_ge; lia).
      replace (max_string_length <? _) with false
        by (symmetry; apply Z.ltb_ge; cbn [length star_glyph]; lia).
      cbn [render_bind]. by eexists.
  - cbn [render_bind]. destruct (Hed classes0) as [cl' ->]. by eexists.
Qed.

Lemma days_loop_succeeds cell firstDay daysInMonth days :
  (forall day, exists c, cell day = inr c) ->
  forall weeks cur, exists res, days_loop cell firstDay daysInMonth days weeks cur = inr res.
Proof.
  intros Hcell. induction days as [|day days IH]; intros weeks cur; [by eexists|].
  cbn [days_loop]. destruct (Hcell day) as [c ->].
  destruct (starts_new_week firstDay daysInMonth day); apply IH.
Qed.

Lemma renderMonth_presentable month isEditable st :
  (forall d e, currentEntries st !! d = Some e -> presentable e) ->
  exists card, renderMonth month isEditable st = inr card.
Proof.
  intros Hall. unfold renderMonth.
  match goal with
  | |- context [days_loop ?c ?f ?n ?ds ?w ?x] =>
      destruct (fun H => days_loop_succeeds c f n ds H w x) as [[weeks cur'] ->]
  end.
  { intros day. by apply day_cell_presentable. }
  cbn [render_bind]. by eexists.
Qed.

Lemma months_loop_presentable isEditable st months :
  (forall d e, currentEntries st !! d = Some e -> presentable e) ->
  forall cols, exists cols',
    months_loop months isEditable st cols = inr cols'
    /\ length cols' = (length cols + length months)%nat.
Proof.
  intros Hall. induction months as [|month months IH]; intros cols.
  { exists cols. cbn. split; [done|lia]. }
  cbn [months_loop]. destruct (renderMonth_presentable month isEditable st Hall) as [card ->].
  destruct (IH (cols ++ [Div [js "col-12"; js "col-md-6"; js "col-lg-4"] [] None [card]]))
    as (cols' & -> & Hlen).
  exists cols'. split; [done|]. rewrite Hlen, length_app. cbn [length]. lia.
Qed.

Lemma months_loop_returns isEditable st months : forall cols cols',
  months_loop months isEditable st cols = inr cols' ->
  Forall (fun month => exists card, renderMonth month isEditable st = inr card) months.
Proof.
  induction months as [|month months IH]; intros cols cols' Hrun; [constructor|].
  cbn [months_loop] in Hrun.
  destruct (renderMonth month isEditable st) as [e|card] eqn:Hc; [done|].
  constructor; [by eexists|]. by eapply IH.
Qed.

Lemma renderMonth_cells month isEditable st card d :
  timezone_regular -> 0 <= month <= 11 ->
  renderMonth month isEditable st = inr card ->
  1 <= d <= gregorian_days_in_month YEAR month ->
  exists c, day_cell month d isEditable st = inr c.
Proof.
  intros Htz Hm Hrun Hd.
  destruct (renderMonth_layout _ _ _ _ Htz Hm Hrun)
    as (header & names & weeks & cells & trailing & _ & _ & _ & _ & Hcells & _).
  destruct (Forall2_lookup_l _ _ _ (Z.to_nat (d - 1)) d Hcells) as (c & _ & Hc).
  { apply lookup_seqZ. lia. }
  by exists c.
Qed.

(** A negative rating in the cell of a day: the stars cannot be repeated. *)
Lemma day_cell_negative_rating month day isEditable st e z :
  currentEntries st !! formatDate (new_Date YEAR month day) = Some e ->
  c_rating e = VNum (JInt z) -> z < 0 ->
  exists err, day_cell month day isEditable st = inl err.
Proof using Type.
  intros He Hr Hz. unfold day_cell. rewrite He, Hr.
  assert (Htrue : ToBoolean (VNum (JInt z)) = true).
  { cbn. apply negb_true_iff, Z.eqb_neq. lia. }
  rewrite Htrue.
  destruct (classList_add _ (js "rating-" ++ _)) as [err|cl1]; [by eexists|].
  cbn [render_bind].
  destruct (if isEditable then _ else _) as [err|cl2]; [by eexists|].
  cbn [render_bind]. unfold String_repeat. cbn [ToIntegerOrInfinity].
  replace (z <? 0) with true by (symmetry; apply Z.ltb_lt; lia).
  cbn [render_bind]. by eexists.
Qed.

(** ** The click listeners *)

Lemma day_cell_listeners month day isEditable st c :
  day_cell month day isEditable st = inr c ->
  listeners c
  = if isEditable
    then [(formatDate (new_Date YEAR month day),
           currentEntries st !! formatDate (new_Date YEAR month day))]
    else [].
Proof using Type.
  unfold day_cell, render_bind. intros H.
  repeat match type of H with
         | context [match ?x with _ => _ end] =>
             lazymatch x with
             | context [match _ with _ => _ end] => fail
             | _ => destruct x; try discriminate H
             end
         end;
    injection H as <-; reflexivity.
Qed.

Lemma listeners_cells (R : Z -> Elem -> Prop) (g : Z -> list (JsString * option CacheEntry))
    ds cells :
  Forall2 R ds cells ->
  (forall d c, d ∈ ds -> R d c -> listeners c = g d) ->
  concat (List.map listeners cells) = concat (List.map g ds).
Proof.
  induction 1 as [|d c ds cells Hdc _ IH]; intros Hg; [done|].
  cbn [List.map concat]. rewrite (Hg d c) by (done || apply list_elem_of_here).
  f_equal. apply IH. intros d' c' Hd'. apply Hg. by apply list_elem_of_further.
Qed.

Lemma concat_map_singleton {A B : Type} (f : A -> B) l :
  concat (List.map (fun x => [f x]) l) = List.map f l.
Proof. induction l as [|x l IH]; [done|]. cbn. by rewrite IH. Qed.

Lemma concat_map_nil {A B : Type} (l : list A) :
  concat (List.map (fun _ => @nil B) l) = [].
Proof. induction l as [|x l IH]; [done|]. exact IH. Qed.

(** The listeners of the card of a month. *)
Lemma renderMonth_listeners month isEditable st card :
  timezone_regular -> 0 <= month <= 11 ->
  renderMonth month isEditable st = inr card ->
  listeners card
  = if isEditable
    then List.map (fun d => (iso_date YEAR month d,
                             currentEntries st !! iso_date YEAR month d))
                  (seqZ 1 (gregorian_days_in_month YEAR month))
    else [].
Proof.
  intros Htz Hm Hrun.
  destruct (renderMonth_layout _ _ _ _ Htz Hm Hrun)
    as (header & names & weeks & cells & trailing & -> & Hh & Hn & Hfull & Hcells & Hcat & _).
  cbn [listeners List.map concat app]. rewrite Hh, Hn, !app_nil_r. cbn [app].
  rewrite (listeners_weeks _ Hfull), Hcat, !List.map_app, !concat_app,
    !listeners_empty_cells, app_nil_r. cbn [app].
  rewrite (listeners_cells _
             (fun d => if isEditable
                       then [(iso_date YEAR month d,
                              currentEntries st !! iso_date YEAR month d)]
                       else []) _ _ Hcells).
  - destruct isEditable; [apply concat_map_singleton|apply concat_map_nil].
  - intros d c Hd Hc. apply elem_of_seqZ in Hd.
    rewrite (day_cell_listeners _ _ _ _ _ Hc).
    rewrite formatDate_of_day by (done || (unfold YEAR; lia) || lia). done.
Qed.

Lemma months_loop_listeners isEditable st months :
  timezone_regular -> Forall (fun m => 0 <= m <= 11) months ->
  forall cols cols',
    months_loop months isEditable st cols = inr cols' ->
    concat (List.map listeners cols')
    = concat (List.map listeners cols)
      ++ (if isEditable
          then concat (List.map
                 (fun m => List.map (fun d => (iso_date YEAR m d,
                                               currentEntries st !! iso_date YEAR m d))
                                    (seqZ 1 (gregorian_days_in_month YEAR m)))
                 months)
          else []).
Proof.
  intros Htz. induction 1 as [|month months Hm _ IH]; intros cols cols' Hrun.
  { cbn in Hrun. injection Hrun as <-. destruct isEditable; by rewrite app_nil_r. }
  cbn [months_loop] in Hrun.
  destruct (renderMonth month isEditable st) as [e|card] eqn:Hcard; [done|].
  rewrite (IH _ _ Hrun), List.map_app, concat_app. cbn [List.map concat listeners app].
  rewrite !app_nil_r, (renderMonth_listeners _ _ _ _ Htz Hm Hcard).
  destruct isEditable; rewrite <- ?app_assoc; done.
Qed.

(** Without [isEditable] no element has a listener, whatever the time
    zone. *)
Lemma days_loop_no_listeners cell firstDay daysInMonth days :
  (forall day c, cell day = inr c -> listeners c = []) ->
  forall weeks cur weeks' cur',
    days_loop cell firstDay daysInMonth days weeks cur = inr (weeks', cur') ->
    concat (List.map listeners weeks) = [] -> concat (List.map listeners cur) = [] ->
    concat (List.map listeners weeks') = [] /\ concat (List.map listeners cur') = [].
Proof.
  intros Hcell. induction days as [|day days IH]; intros weeks cur weeks' cur' Hrun Hw Hc.
  { cbn in Hrun. by injection Hrun as <- <-. }
  cbn [days_loop] in Hrun. destruct (cell day) as [e|c] eqn:Hcd; [done|].
  assert (Hcur : concat (List.map listeners (cur ++ [c])) = []).
  { rewrite List.map_app, concat_app, Hc. cbn. by rewrite (Hcell _ _ Hcd). }
  destruct (starts_new_week firstDay daysInMonth day).
  - apply (IH _ _ _ _ Hrun); [|done].
    rewrite List.map_app, concat_app, Hw. cbn. by rewrite Hcur.
  - by apply (IH _ _ _ _ Hrun).
Qed.

Lemma renderMonth_no_listeners month st card :
  renderMonth month false st = inr card -> listeners card = [].
Proof.
  unfold renderMonth.
  destruct (days_loop _ _ _ _ _ _) as [e|[weeks cur]] eqn:Hrun; [done|].
  cbn [render_bind]. intros [= <-].
  apply days_loop_no_listeners in Hrun as [Hw Hc].
  - cbn [listeners List.map concat app]. rewrite !app_nil_r.
    set (cur' := cur ++ _).
    assert (Hcur' : concat (List.map listeners cur') = []).
    { unfold cur'. rewrite List.map_app, concat_app, Hc.
      destruct (_ <? 7); [apply listeners_empty_cells|done]. }
    destruct (0 <? _).
    + rewrite List.map_app, concat_app, Hw. cbn. by rewrite Hcur'.
    + done.
  - intros day c Hc. by rewrite (day_cell_listeners _ _ _ _ _ Hc).
  - done.
  - apply listeners_empty_cells.
Qed.

Lemma months_loop_no_listeners st months : forall cols cols',
  months_loop months false st cols = inr cols' ->
  concat (List.map listeners cols) = [] -> concat (List.map listeners cols') = [].
Proof.
  induction months as [|month months IH]; intros cols cols' Hrun Hc.
  { cbn in Hrun. by injection Hrun as <-. }
  cbn [months_loop] in Hrun.
  destruct (renderMonth month false st) as [e|card] eqn:Hcard; [done|].
  apply (IH _ _ Hrun). rewrite List.map_app, concat_app, Hc. cbn.
  by rewrite (renderMonth_no_listeners _ _ _ Hcard).
Qed.

Lemma renderCalendar_not_editable st tree :
  renderCalendar false st = (None, tree) -> concat (List.map listeners tree) = [].
Proof.
  unfold renderCalendar.
  destruct (months_loop _ _ _ _) as [e|cols] eqn:Hrun; [done|]. intros [= <-].
  cbn. rewrite app_nil_r. by apply (months_loop_no_listeners _ _ _ _ Hrun).
Qed.

Lemma renderCalendar_editable st tree :
  timezone_regular ->
  renderCalendar true st = (None, tree) ->
  concat (List.map listeners tree) = day_listeners st.
Proof.
  intros Htz. unfold renderCalendar.
  destruct (months_loop _ _ _ _) as [e|cols] eqn:Hrun; [done|]. intros [= <-].
  cbn [List.map concat listeners app]. rewrite !app_nil_r.
  apply (months_loop_listeners _ _ _ Htz) in Hrun; [done|].
  apply Forall_forall. intros m Hmem. apply elem_of_seqZ in Hmem. lia.
Qed.

(** ** The calendar grid *)

(** X3. In a regular time zone, the card that [renderMonth] builds for a
    month of 2026 holds the header and a body whose rows, after the row of
    the day names, have seven cells each; read row by row the cells are one
    empty cell for each weekday before the first of the month, then the
    cells of the days 1 to the length of the month in order, then fewer
    than seven empty cells. *)
Theorem renderMonth_grid month isEditable st card :
  timezone_regular -> 0 <= month <= 11 ->
  renderMonth month isEditable st = inr card ->
  exists header names weeks cells trailing,
    card = Div [js "card"; js "mb-4"] [] None
               [header; Div [js "card-body"; js "p-2"] [] None (names :: weeks)]
    /\ Forall full_week weeks
    /\ Forall2 (fun d c => day_cell month d isEditable st = inr c)
               (seqZ 1 (gregorian_days_in_month YEAR month)) cells
    /\ concat (el_children <$> weeks)
       = replicate (Z.to_nat (zeller_weekday YEAR month 1)) empty_cell
         ++ cells ++ replicate trailing empty_cell
    /\ (trailing < 7)%nat.
Proof.
  intros Htz Hm Hrun.
  destruct (renderMonth_layout _ _ _ _ Htz Hm Hrun)
    as (header & names & weeks & cells & trailing & Hcard & _ & _ & Hfull & Hcells & Hcat & Ht).
  by exists header, names, weeks, cells, trailing.
Qed.

(** X4. When every cached entry is presentable (its rating is falsy or a
    positive integer whose stars fit in a string, its note is falsy or a
    string), [renderCalendar] throws nothing and leaves in the container
    one row with twelve columns, whatever the time zone. *)
Theorem renderCalendar_presentable isEditable st :
  (forall d e, currentEntries st !! d = Some e -> presentable e) ->
  exists cols,
    renderCalendar isEditable st = (None, [Div [js "row"] [] None cols])
    /\ length cols = 12%nat.
Proof.
  intros Hall. unfold renderCalendar.
  destruct (months_loop_presentable isEditable st (seqZ 0 12) Hall []) as (cols & -> & Hlen).
  exists cols. split; [done|]. rewrite Hlen. reflexivity.
Qed.

(** X5. [saveEntry] stores a negative rating as it parses it, and the grid
    cannot show it: in a regular time zone, after an entry with a negative
    rating has been saved for a day of 2026, [renderCalendar] throws and
    leaves the container empty. *)
Theorem negative_rating_breaks_render month d r n z resp st st' isEditable :
  timezone_regular ->
  0 <= month <= 11 -> 1 <= d <= gregorian_days_in_month YEAR month ->
  parseInt r = JInt z -> z < 0 ->
  saveEntry (iso_date YEAR month d) r n resp st = (Returned tt, st') ->
  exists err, renderCalendar isEditable st' = (Some err, []).
Proof.
  intros Htz Hm Hd Hr Hz Hsave.
  assert (Hentry : exists e, currentEntries st' !! iso_date YEAR month d = Some e
                             /\ c_rating e = VNum (JInt z)).
  { destruct (getCurrentUser (auth st)) as [user|] eqn:Hu.
    - destruct resp as [e|].
      + by rewrite (saveEntry_rejected _ _ _ _ _ _ Hu) in Hsave.
      + rewrite (saveEntry_resolved _ _ _ _ _ Hu) in Hsave. injection Hsave as <-.
        cbn [currentEntries]. rewrite lookup_insert_eq. eexists. split; [done|].
        cbn [c_rating]. by rewrite Hr.
    - by rewrite (saveEntry_no_actor _ _ _ _ _ Hu) in Hsave. }
  destruct Hentry as (e & He & Hrating).
  unfold renderCalendar.
  destruct (months_loop _ _ _ _) as [err|cols] eqn:Hrun; [by eexists|].
  exfalso.
  pose proof (months_loop_returns _ _ _ _ _ Hrun) as Hmonths.
  rewrite Forall_forall in Hmonths.
  destruct (Hmonths month) as [card Hcard]; [apply elem_of_seqZ; lia|].
  destruct (renderMonth_cells _ _ _ _ d Htz Hm Hcard Hd) as [c Hc].
  rewrite <- (formatDate_of_day YEAR month d) in He by (done || (unfold YEAR; lia)).
  destruct (day_cell_negative_rating _ _ isEditable _ _ _ He Hrating Hz) as [err Herr].
  by rewrite Herr in Hc.
Qed.

(** X6. The click listeners of the calendar that [renderCalendar] builds:
    without [isEditable] there is none, whatever the time zone; with it, in
    a regular time zone, there is exactly one for each day of 2026, in the
    order of the dates, and it passes the date string of its day and the
    cached entry of that date. *)
Theorem renderCalendar_listeners isEditable st tree :
  (isEditable = true -> timezone_regular) ->
  renderCalendar isEditable st = (None, tree) ->
  concat (List.map listeners tree) = (if isEditable then day_listeners st else []).
Proof.
  intros Htz Hrun. destruct isEditable.
  - apply (renderCalendar_editable st); [by apply Htz|done].
  - by apply (renderCalendar_not_editable st).
Qed.

(** ** The cache and the store *)

Ltac forget_hosts :=
  forget_host; try clear StringToIntegerOrInfinity; try clear max_string_length.

Lemma app_sep_inj (c : N) (x : JsString) : forall y p q,
  c ∉ x -> c ∉ y -> x ++ c :: p = y ++ c :: q -> x = y /\ p = q.
Proof.
  induction x as [|a x IH]; intros [|b y] p q Hx Hy Heq; cbn in Heq.
  - injection Heq as ->. done.
  - injection Heq as -> _. exfalso. apply Hy. apply list_elem_of_here.
  - injection Heq as -> _. exfalso. apply Hx. apply list_elem_of_here.
  - injection Heq as -> Heq.
    destruct (IH y p q) as [-> ->]; [|  |done|done].
    + intros H. apply Hx. by apply list_elem_of_further.
    + intros H. apply Hy. by apply list_elem_of_further.
Qed.

(** Document ids of dates without an underscore tell the owners apart. *)
Lemma docKey_inj u d u' d' :
  underscore ∉ d -> underscore ∉ d' -> docKey u d = docKey u' d' -> u = u' /\ d = d'.
Proof.
  unfold docKey. change (js "_") with [underscore]. intros Hd Hd' Heq.
  apply (f_equal (@rev N)) in Heq. rewrite !rev_app_distr in Heq. cbn [rev app] in Heq.
  rewrite <- !app_assoc in Heq. cbn [app] in Heq.
  apply app_sep_inj in Heq as [Hrd Hru].
  - split.
    + by apply (f_equal (@rev N)) in Hru; rewrite !rev_involutive in Hru.
    + by apply (f_equal (@rev N)) in Hrd; rewrite !rev_involutive in Hrd.
  - intros H. apply Hd. by apply list_elem_of_In, in_rev, list_elem_of_In.
  - intros H. apply Hd'. by apply list_elem_of_In, in_rev, list_elem_of_In.
Qed.

Lemma docKey_date u d d' : docKey u d = docKey u d' -> d = d'.
Proof. unfold docKey. intros H. apply app_inv_head in H. by apply app_inv_head in H. Qed.

(** A load after a save of the loaded owner: the cache is the one a load
    before the save would give, with the saved entry at its date. *)
Lemma load_after_save d r n st user :
  keyed_store (firestore st) ->
  getCurrentUser (auth st) = Some user ->
  currentEntries (loadUserEntries (uid user) None (saveEntry d r n None st).2).2
  = <[d := {| id := docKey (uid user) d; c_rating := VNum (parseInt r);
              c_note := js_or n (VStr []) |}]>
      (currentEntries (loadUserEntries (uid user) None st).2).
Proof.
  intros Hk Hu. apply map_eq. intros d'. apply option_eq. intros e.
  pose proof (keyed_store_save d r n None st Hk) as Hk'.
  rewrite (loadUserEntries_lookup _ _ _ _ Hk').
  rewrite (saveEntry_resolved _ _ _ _ _ Hu) in *. cbn [snd firestore] in *.
  rewrite lookup_insert_Some, (loadUserEntries_lookup _ _ _ _ Hk). split.
  - intros (k & doc & Hl & Hown & Hdate & ->).
    apply lookup_insert_Some in Hl as [[<- <-]|[Hne Hl]].
    + left. cbn in Hdate. by subst d'.
    + right. split.
      * intros ->. apply Hne. rewrite (Hk _ _ Hl), Hown, Hdate. done.
      * by exists k, doc.
  - intros [[<- <-]|[Hne (k & doc & Hl & Hown & Hdate & ->)]].
    + eexists _, _. split; [apply lookup_insert_eq|]. done.
    + exists k, doc. split; [|done]. rewrite lookup_insert_ne; [done|].
      intros Heq. apply Hne. pose proof (Hk _ _ Hl) as Hkey.
      rewrite Hown, Hdate, <- Heq in Hkey. by apply docKey_date in Hkey.
Qed.

Lemma cache_synced_load (owner : JsString) st : cache_synced (loadUserEntries owner None st).2.
Proof. exists owner. done. Qed.

Lemma cache_synced_gated_step st st' :
  gated_step st st' ->
  keyed_store (firestore st) ->
  initial st \/ cache_synced st -> initial st' \/ cache_synced st'.
Proof.
  destruct 1 as [st owner|st d r n (user & Hu & Hv) Hret|st a]; intros Hk Hinv.
  - right. apply cache_synced_load.
  - right. destruct Hinv as [[_ Hnone]|(owner & Hv' & Hsync)]; [congruence|].
    assert (owner = uid user) as -> by congruence.
    exists (uid user). split.
    + by rewrite (saveEntry_resolved _ _ _ _ _ Hu).
    + rewrite (load_after_save _ _ _ _ _ Hk Hu), <- Hsync.
      by rewrite (saveEntry_resolved _ _ _ _ _ Hu).
  - destruct Hinv as [Hinit|(owner & Hv & Hsync)]; [by left|right].
    exists owner. done.
Qed.

(** X7. The cache does not drift from the store when the operations do not
    overlap. From the initial state over a keyed store, as long as every
    load and every save runs to the end of its await before the next
    operation starts, every save is made while the actor views their own
    calendar, and the store changes by these saves only, the cache is empty
    with no owner viewed, or it is exactly what a load of the viewed owner
    would fetch. (A load that settles during the await of a save is outside
    this statement.) *)
Theorem cache_synced_when_gated st0 st :
  initial st0 -> keyed_store (firestore st0) ->
  rtc gated_step st0 st ->
  initial st \/ cache_synced st.
Proof.
  intros Hinit Hk Hreach.
  assert (H : keyed_store (firestore st0) /\ (initial st0 \/ cache_synced st0))
    by (split; [done|by left]).
  clear Hinit Hk. induction Hreach as [st|st1 st2 st3 Hs _ IH]; [by destruct H|].
  destruct H as [Hk Hinv]. apply IH. split.
  - eapply keyed_store_step; [by apply gated_step_step|done].
  - by eapply cache_synced_gated_step.
Qed.

(** X8. The last save of a date wins: saving a date again after a save of
    the same date that returned leaves the state that the second save alone
    would have left, with one document and one cache entry for the date. *)
Theorem saveEntry_last_write_wins d r1 n1 r2 n2 st :
  (saveEntry d r1 n1 None st).1 = Returned tt ->
  saveEntry d r2 n2 None (saveEntry d r1 n1 None st).2 = saveEntry d r2 n2 None st.
Proof.
  intros Hret. apply saveEntry_returns_iff in Hret as [[user Hu] _].
  rewrite (saveEntry_resolved d r1 n1 _ _ Hu). cbn [snd].
  rewrite (saveEntry_resolved d r2 n2 st _ Hu).
  erewrite saveEntry_resolved by (cbn [auth]; exact Hu).
  cbn [auth firestore currentEntries viewingUserId].
  by rewrite !insert_insert_eq.
Qed.

(** X9. A save never touches the document of another owner: over a keyed
    store, a document whose owner is not the actor is still there after
    [saveEntry], whatever its outcome, provided neither the saved date nor
    the date of the document has an underscore in it. *)
Theorem saveEntry_keeps_other_owners d r n resp st user k doc :
  keyed_store (firestore st) ->
  getCurrentUser (auth st) = Some user ->
  underscore ∉ d -> underscore ∉ date doc ->
  firestore st !! k = Some doc -> userId doc <> uid user ->
  firestore (saveEntry d r n resp st).2 !! k = Some doc.
Proof.
  intros Hk Hu Hd Hdoc Hl Hother. destruct resp as [e|].
  - by rewrite (saveEntry_rejected _ _ _ _ _ _ Hu).
  - rewrite (saveEntry_resolved _ _ _ _ _ Hu). cbn [snd firestore].
    rewrite lookup_insert_ne; [done|]. intros Heq.
    rewrite (Hk _ _ Hl) in Heq. apply docKey_inj in Heq as [Heq _]; [|done..].
    by apply Hother.
Qed.

(** X10. The rating that [saveEntry] stores is the leading decimal numeral
    of the text it is given, for a numeral of magnitude below 2^53 (from
    there on a numeral is rounded to a double): what follows the numeral,
    from the first character that is neither a digit nor an x, is
    dropped. *)
Theorem saveEntry_rating_leading_numeral d z c rest n st user :
  getCurrentUser (auth st) = Some user ->
  Z.abs z < 2 ^ 53 ->
  digit_value 10 c = None -> c <> 120%N -> c <> 88%N ->
  currentEntries (saveEntry d (VStr (decimal_Z z ++ c :: rest)) n None st).2 !! d
  = Some {| id := docKey (uid user) d; c_rating := VNum (JInt z);
            c_note := js_or n (VStr []) |}.
Proof using Type.
  intros Hu Hz Hc Hx HX. rewrite (saveEntry_resolved _ _ _ _ _ Hu). cbn [snd currentEntries].
  rewrite lookup_insert_eq, parseInt_leading_numeral by done. done.
Qed.

(** ** The owners and the export list *)

Lemma foldl_Set_add (l : list JsString) : forall acc,
  NoDup acc ->
  NoDup (foldl Set_add acc l)
  /\ forall u, u ∈ foldl Set_add acc l <-> u ∈ acc \/ u ∈ l.
Proof.
  induction l as [|v l IH]; intros acc Hnd; cbn [foldl].
  { split; [done|]. intros u. rewrite elem_of_nil. forget_hosts. tauto. }
  assert (Hadd : NoDup (Set_add acc v) /\ forall u, u ∈ Set_add acc v <-> u ∈ acc \/ u = v).
  { unfold Set_add. destruct (bool_decide_reflect (v ∈ acc)) as [Hin|Hnin].
    - split; [done|]. intros u. split; [by left|]. intros [?| ->]; done.
    - split.
      + apply NoDup_app. split; [done|]. split; [|apply NoDup_singleton].
        intros x Hx Hx'. apply list_elem_of_singleton in Hx'. by subst x.
      + intros u. rewrite elem_of_app, list_elem_of_singleton. done. }
  destruct Hadd as [Hnd' Hmem]. destruct (IH _ Hnd') as [Hres Hiff].
  split; [done|]. intros u. rewrite Hiff, Hmem, elem_of_cons. forget_hosts. tauto.
Qed.

Lemma foldl_Set_add_fmap {A : Type} (f : A -> JsString) (l : list A) : forall acc,
  foldl (fun s x => Set_add s (f x)) acc l = foldl Set_add acc (f <$> l).
Proof. induction l as [|x l IH]; intros acc; [done|]. cbn. apply IH. Qed.

Lemma getAllUsers_resolved col :
  exists users,
    getAllUsers None col = Returned users
    /\ NoDup users
    /\ forall u, u ∈ users <-> is_owner col u.
Proof.
  unfold getAllUsers, getDocs_collection.
  eexists. split; [done|]. rewrite foldl_Set_add_fmap.
  destruct (foldl_Set_add ((fun x => userId x.2) <$> merge_sort id_le (map_to_list col)) [])
    as [Hnd Hiff]; [constructor|].
  split; [done|]. intros u. rewrite Hiff, elem_of_nil, list_elem_of_fmap.
  unfold is_owner. split.
  - intros [[]|(kd & -> & Hin)]. destruct kd as [k doc].
    rewrite merge_sort_Permutation in Hin. apply elem_of_map_to_list in Hin.
    by exists k, doc.
  - intros (k & doc & Hl & <-). right. exists (k, doc). split; [done|].
    rewrite merge_sort_Permutation. by apply elem_of_map_to_list.
Qed.

(** X11. [getAllUsers] rethrows the rejection of the fetch; when the fetch
    resolves it returns every owner of a stored document exactly once. *)
Theorem getAllUsers_owners col :
  (forall e, getAllUsers (Some e) col = Threw (Rejected e))
  /\ exists users,
       getAllUsers None col = Returned users
       /\ NoDup users
       /\ forall u, u ∈ users <-> is_owner col u.
Proof. split; [done|]. apply getAllUsers_resolved. Qed.

Lemma str_compare_refl a : str_compare a a = Eq.
Proof. induction a as [|x a IH]; [done|]. cbn. by rewrite N.compare_refl. Qed.

Lemma str_compare_antisym a : forall b, str_compare b a = CompOpp (str_compare a b).
Proof.
  induction a as [|x a IH]; intros [|y b]; cbn; try done.
  rewrite (N.compare_antisym x y). destruct (x ?= y)%N; cbn; done.
Qed.

Lemma str_compare_lt_trans a : forall b c,
  str_compare a b = Lt -> str_compare b c = Lt -> str_compare a c = Lt.
Proof.
  induction a as [|x a IH]; intros [|y b] [|z c]; cbn; try done.
  destruct (N.compare_spec x y) as [-> |Hxy|Hxy]; try done.
  - destruct (N.compare_spec y z) as [-> |Hyz|Hyz]; try done. apply IH.
  - intros _. destruct (N.compare_spec y z) as [-> |Hyz|Hyz]; try done.
    + intros _. by replace (x ?= z)%N with Lt by (symmetry; apply N.compare_lt_iff; lia).
    + intros _. by replace (x ?= z)%N with Lt by (symmetry; apply N.compare_lt_iff; lia).
Qed.

Lemma doc_leb_spec x y :
  doc_leb x y = true
  <-> str_compare (date x.2) (date y.2) = Lt
      \/ (date x.2 = date y.2 /\ str_compare x.1 y.1 <> Gt).
Proof.
  unfold doc_leb. destruct (str_compare (date x.2) (date y.2)) eqn:Hd.
  - apply str_compare_eq in Hd. rewrite Hd.
    destruct (str_compare x.1 y.1); split; try done; try (by right); intros [?|[_ ?]]; done.
  - split; [by left|done].
  - split; [done|]. intros [?|[Heq _]]; [done|].
    rewrite Heq, str_compare_refl in Hd. done.
Qed.

Lemma str_compare_le_trans a b c :
  str_compare a b <> Gt -> str_compare b c <> Gt -> str_compare a c <> Gt.
Proof.
  intros Hab Hbc.
  destruct (str_compare a b) eqn:Eab; [| |done].
  - apply str_compare_eq in Eab. by subst b.
  - destruct (str_compare b c) eqn:Ebc; [| |done].
    + apply str_compare_eq in Ebc. subst c. by rewrite Eab.
    + by rewrite (str_compare_lt_trans _ _ _ Eab Ebc).
Qed.

Lemma doc_le_total : Total doc_le.
Proof.
  intros x y. unfold doc_le. rewrite !Is_true_true, !doc_leb_spec.
  rewrite (str_compare_antisym (date x.2) (date y.2)).
  rewrite (str_compare_antisym x.1 y.1).
  destruct (str_compare (date x.2) (date y.2)) eqn:Hd; cbn.
  - apply str_compare_eq in Hd.
    destruct (str_compare x.1 y.1); cbn; [left|left|right]; right; done.
  - by left; left.
  - by right; left.
Qed.

Lemma doc_le_trans : Transitive doc_le.
Proof.
  intros x y z. unfold doc_le. rewrite !Is_true_true, !doc_leb_spec.
  intros [Hxy|[Hxy Hixy]] [Hyz|[Hyz Hiyz]].
  - left. by eapply str_compare_lt_trans.
  - left. by rewrite <- Hyz.
  - left. by rewrite Hxy.
  - right. split; [congruence|]. by eapply str_compare_le_trans.
Qed.

Lemma StronglySorted_dates (l : list (JsString * DocData)) :
  StronglySorted doc_le l -> StronglySorted date_le (snd <$> l).
Proof.
  induction 1 as [|x l _ IH Hall]; [constructor|].
  rewrite fmap_cons. constructor; [done|].
  apply Forall_fmap. eapply Forall_impl; [exact Hall|].
  intros y Hxy. unfold doc_le in Hxy. apply Is_true_true, doc_leb_spec in Hxy.
  unfold date_le. cbn. destruct Hxy as [-> |[-> _]]; [done|by rewrite str_compare_refl].
Qed.

Lemma getAllEntries_resolved col :
  getAllEntries None col = Returned (snd <$> merge_sort doc_le (map_to_list col)).
Proof.
  unfold getAllEntries, getDocs. f_equal. apply list_eq. intros i.
  rewrite list_lookup_fmap. change (List.map ?f ?l) with (f <$> l).
  rewrite list_lookup_fmap. destruct (_ !! i) as [[k [u dt r nt]]|]; done.
Qed.

(** X12. [getAllEntries] rethrows the rejection of the fetch; when the
    fetch resolves it returns the data of every stored document, each
    once, in the order of the dates. *)
Theorem getAllEntries_sorted col :
  (forall e, getAllEntries (Some e) col = Threw (Rejected e))
  /\ exists entries,
       getAllEntries None col = Returned entries
       /\ entries ≡ₚ snd <$> map_to_list col
       /\ StronglySorted date_le entries.
Proof.
  split; [done|]. eexists. split; [apply getAllEntries_resolved|]. split.
  - by rewrite merge_sort_Permutation.
  - apply StronglySorted_dates.
    apply (@StronglySorted_merge_sort _ doc_le _ doc_le_trans doc_le_total).
Qed.

(** ** What the exports throw *)

Lemma csv_row_throws entry t :
  csv_row entry = Threw t <-> t = TypeError /\ note_without_includes (note entry).
Proof.
  unfold csv_row, js_or, note_without_includes.
  destruct (ToBoolean (note entry)) eqn:Hb.
  - destruct (note entry) as [| |b|num|s] eqn:Hn.
    all: split; [intros H|intros [-> [_ H]]]; try discriminate H; try done.
    all: try (injection H as <-; done).
    by destruct (H s).
  - split; [done|]. by intros [_ [? _]].
Qed.

Lemma map_outcome_csv_throws entries t :
  map_outcome csv_row entries = Threw t
  <-> t = TypeError /\ Exists (fun entry => note_without_includes (note entry)) entries.
Proof.
  induction entries as [|entry entries IH]; cbn [map_outcome].
  - split; [done|]. intros [_ H]. by apply Exists_nil in H.
  - rewrite Exists_cons. destruct (csv_row entry) as [row|t'] eqn:Hrow.
    + assert (Hno : ~ note_without_includes (note entry)).
      { intros H.
        assert (Hthrow : csv_row entry = Threw TypeError) by (by apply csv_row_throws).
        by rewrite Hthrow in Hrow. }
      destruct (map_outcome csv_row entries) as [rows|t2].
      * split; [done|]. intros [Ht [H|H]]; [done|].
        destruct IH as [_ IH]. by discriminate IH.
      * rewrite IH. split.
        -- intros [-> H]. by split; [|right].
        -- by intros [-> [H|H]].
    + apply csv_row_throws in Hrow as [-> Hrow]. split.
      * intros [= <-]. by split; [|left].
      * by intros [-> _].
Qed.

(** X13. What the exports throw. [exportJSON] throws only the rejection of
    the fetch. [exportCSV] throws the rejection of the fetch, or, when the
    fetch resolves, a TypeError exactly when some stored note is neither
    falsy nor a string; nothing else. *)
Theorem exports_throw resp col t :
  (exportJSON resp col = Threw t <-> exists e, resp = Some e /\ t = Rejected e)
  /\ (exportCSV resp col = Threw t
      <-> (exists e, resp = Some e /\ t = Rejected e)
          \/ (resp = None /\ t = TypeError
              /\ exists k doc, col !! k = Some doc /\ note_without_includes (note doc))).
Proof using Type.
  split.
  - destruct resp as [e|].
    + cbn. split; [intros [= <-]; by exists e|]. by intros (e' & [= <-] & ->).
    + unfold exportJSON. rewrite getAllEntries_resolved. split; [done|].
      by intros (e & ? & _).
  - destruct resp as [e|].
    + cbn. split; [intros [= <-]; left; by exists e|].
      intros [(e' & [= <-] & ->)|[? _]]; done.
    + unfold exportCSV, formatCSV. rewrite getAllEntries_resolved.
      pose proof (map_outcome_csv_throws (snd <$> merge_sort doc_le (map_to_list col)) t)
        as Hthrows.
      destruct (map_outcome csv_row _) as [rows|t'].
      * split; [done|]. intros [(e & ? & _)|(_ & -> & k & doc & Hl & Hnote)]; [done|].
        destruct Hthrows as [_ Hthrows]. discriminate Hthrows. split; [done|].
        apply Exists_exists. exists doc. split; [|done].
        apply list_elem_of_fmap. exists (k, doc). split; [done|].
        rewrite merge_sort_Permutation. by apply elem_of_map_to_list.
      * split.
        -- intros [= ->]. right. destruct Hthrows as [Hthrows _].
           destruct (Hthrows eq_refl) as [-> Hex]. split; [done|]. split; [done|].
           apply Exists_exists in Hex as (doc & Hin & Hnote).
           apply list_elem_of_fmap in Hin as (kd & -> & Hin). destruct kd as [k doc'].
           rewrite merge_sort_Permutation in Hin. apply elem_of_map_to_list in Hin.
           by exists k, doc'.
        -- intros [(e & ? & _)|(_ & -> & k & doc & Hl & Hnote)]; [done|].
           destruct Hthrows as [_ Hthrows].
           enough (H : @Threw (list JsString) t' = Threw TypeError) by (by injection H as ->).
           apply Hthrows. split; [done|].
           apply Exists_exists. exists doc. split; [|done].
           apply list_elem_of_fmap. exists (k, doc). split; [done|].
           rewrite merge_sort_Permutation. by apply elem_of_map_to_list.
Qed.

(** ** The actor *)

(** X14. After a login that succeeds the logged-in user is the actor,
    whatever the SDK reports as its current user: a save is then made under
    the id of that user. *)
Theorem login_then_saveEntry user sdk st d r n :
  isLoggedIn (login (inr user) sdk (auth st)).2 = true
  /\ getCurrentUser (login (inr user) sdk (auth st)).2 = Some user
  /\ firestore (saveEntry d r n None (set_auth (login (inr user) sdk (auth st)).2 st)).2
       !! docKey (uid user) d
     = Some {| userId := uid user; date := d;
               rating := VNum (parseInt r); note := js_or n (VStr []) |}.
Proof using Type.
  split; [done|]. split; [done|].
  erewrite saveEntry_resolved by (cbn; reflexivity).
  cbn [snd firestore]. apply lookup_insert_eq.
Qed.

(** X15. After a logout that succeeds the module has forgotten its user
    and the actor is whoever the SDK still reports: [saveEntry] refuses to
    save exactly when the SDK reports no user. *)
Theorem logout_then_saveEntry sdk st d r n resp :
  getCurrentUser (logout None sdk (auth st)).2 = sdk
  /\ (saveEntry d r n resp (set_auth (logout None sdk (auth st)).2 st)
      = (Threw (JsError (js "Must be logged in to save entries")),
         set_auth (logout None sdk (auth st)).2 st)
      <-> sdk = None).
Proof using Type.
  split; [done|]. split.
  - destruct sdk as [u|]; [|done]. intros H.
    destruct resp as [e|].
    + erewrite saveEntry_rejected in H by (cbn; reflexivity). done.
    + erewrite saveEntry_resolved in H by (cbn; reflexivity). done.
  - intros ->. by apply saveEntry_no_actor.
Qed.

(** ** The controller *)

Lemma renderCalendar_throws_empty isEditable st e tree :
  renderCalendar isEditable st = (Some e, tree) -> tree = [].
Proof.
  unfold renderCalendar. destruct (months_loop _ _ _ _); by intros [= <-].
Qed.

(** What [displayCalendar] leaves when the load resolves. *)
Lemma displayCalendar_loaded userId st container :
  exists caught tree,
    displayCalendar userId None st container
    = (caught, (loadUserEntries userId None st).2, tree)
    /\ (concat (List.map listeners tree) <> [] ->
        exists user, getCurrentUser (auth st) = Some user /\ uid user = userId).
Proof.
  unfold displayCalendar.
  destruct (loadUserEntries userId None st) as [out st'] eqn:Hload.
  assert (Hauth : auth st' = auth st).
  { unfold loadUserEntries in Hload. cbn in Hload. by injection Hload as <- <-. }
  assert (Hout : exists entries, out = Returned entries).
  { unfold loadUserEntries in Hload. cbn in Hload. injection Hload as <- _. by eexists. }
  destruct Hout as [entries ->]. cbn [snd]. rewrite Hauth.
  destruct (getCurrentUser (auth st)) as [user|] eqn:Hu.
  - destruct (bool_decide_reflect (uid user = userId)) as [Heq|Hne].
    + destruct (renderCalendar true st') as [[e|] tree]; eexists _, _; split; try done;
        intros _; by exists user.
    + destruct (renderCalendar false st') as [[e|] tree] eqn:Hr; eexists _, _; split;
        try done; intros Hl; exfalso; apply Hl.
      * by rewrite (renderCalendar_throws_empty _ _ _ _ Hr).
      * by apply (renderCalendar_not_editable st').
  - destruct (renderCalendar false st') as [[e|] tree] eqn:Hr; eexists _, _; split;
      try done; intros Hl; exfalso; apply Hl.
    + by rewrite (renderCalendar_throws_empty _ _ _ _ Hr).
    + by apply (renderCalendar_not_editable st').
Qed.

(** X16. The gate of the controller. When the load of [displayCalendar]
    resolves, the viewed owner is the requested one, and the calendar left
    in the container has a click listener only if the actor is that owner;
    when the load rejects, the rejection is thrown and neither the state
    nor the container changes. *)
Theorem displayCalendar_gate userId st container :
  (forall e, displayCalendar userId (Some e) st container
             = (Some (inl (Rejected e)), st, container))
  /\ forall caught st' tree,
       displayCalendar userId None st container = (caught, st', tree) ->
       viewingUserId st' = Some userId
       /\ (concat (List.map listeners tree) <> [] -> actor_is_viewed st').
Proof using Type.
  split; [done|]. intros caught st' tree Hrun.
  destruct (displayCalendar_loaded userId st container) as (caught' & tree' & Heq & Hgate).
  rewrite Heq in Hrun. injection Hrun as _ <- <-.
  split; [done|]. intros Hl. destruct (Hgate Hl) as (user & Hu & <-).
  by exists user.
Qed.

Lemma js_or_string s : js_or (VStr s) (VStr []) = VStr s.
Proof. by destruct s. Qed.

(** X17. A submitted edit is shown. Over a keyed store, when
    [handleEditSubmit] catches nothing, there was an actor, the calendar
    viewed afterwards is the actor's, every cache entry is owned by the
    actor, and the cache holds at the edited date the entry that was
    submitted: the parsed rating and the trimmed note, under the document
    id of the actor and the date. *)
Theorem handleEditSubmit_shows_entry date ratingValue noteValue resp_save resp_load
    st container st' tree :
  keyed_store (firestore st) ->
  handleEditSubmit date ratingValue noteValue resp_save resp_load st container
  = (None, st', tree) ->
  exists user,
    getCurrentUser (auth st) = Some user
    /\ actor_is_viewed st'
    /\ viewingUserId st' = Some (uid user)
    /\ cache_owned st'
    /\ currentEntries st' !! date
       = Some {| id := docKey (uid user) date;
                 c_rating := VNum (parseInt (VStr ratingValue));
                 c_note := VStr (trim noteValue) |}.
Proof using Type.
  intros Hk Hrun. unfold handleEditSubmit in Hrun.
  destruct (getCurrentUser (auth st)) as [user|] eqn:Hu;
    [|by rewrite (saveEntry_no_actor _ _ _ _ _ Hu) in Hrun].
  destruct resp_save as [e|]; [by rewrite (saveEntry_rejected _ _ _ _ _ _ Hu) in Hrun|].
  pose proof (keyed_store_save date (VStr ratingValue) (VStr (trim noteValue)) None st Hk)
    as Hk1.
  pose proof (load_after_save date (VStr ratingValue) (VStr (trim noteValue)) st user Hk Hu)
    as Hcache.
  destruct (saveEntry date (VStr ratingValue) (VStr (trim noteValue)) None st)
    as [out st1] eqn:Hsave.
  assert (Hret : out = Returned tt /\ auth st1 = auth st).
  { rewrite (saveEntry_resolved _ _ _ _ _ Hu) in Hsave. by injection Hsave as <- <-. }
  destruct Hret as [-> Hauth]. cbn [snd] in Hk1, Hcache. rewrite Hauth, Hu in Hrun.
  destruct resp_load as [e|].
  { unfold displayCalendar, loadUserEntries in Hrun. cbn in Hrun. done. }
  destruct (displayCalendar_loaded (uid user) st1 container) as (caught & tree' & Heq & _).
  rewrite Heq in Hrun. injection Hrun as -> <- <-.
  rewrite js_or_string in Hcache.
  exists user. split; [done|]. split.
  { exists user. split; [by rewrite <- Hauth in Hu|done]. }
  split; [done|]. split; [by apply cache_owned_load|].
  change (currentEntries (loadUserEntries (uid user) None st1).2 !! date = Some
            {| id := docKey (uid user) date;
               c_rating := VNum (parseInt (VStr ratingValue));
               c_note := VStr (trim noteValue) |}).
  rewrite Hcache. apply lookup_insert_eq.
Qed.

Lemma selector_values (actor : option User) (users : list JsString) :
  o_value <$> concat (List.map
     (fun userObj : JsString =>
        if match actor with
           | Some u => negb (bool_decide (userObj = uid u))
           | None => true
           end
        then [{| o_value := userObj; o_text := take 8 userObj ++ js "...";
                 o_selected := false |}]
        else [])
     users)
  = filter (fun u => uid <$> actor <> Some u) users.
Proof.
  induction users as [|v users IH]; [done|].
  cbn [List.map concat]. rewrite fmap_app, IH, filter_cons.
  destruct actor as [a|]; cbn [fmap option_fmap option_map].
  - destruct (bool_decide_reflect (v = uid a)) as [Heq|Hne]; cbn [negb].
    + rewrite decide_False; [done|]. intros H. apply H. by rewrite Heq.
    + rewrite decide_True; [done|]. by intros [= <-].
  - rewrite decide_True; [done|]. done.
Qed.

(** X18. The user selector. When the fetch of the owners rejects,
    [loadUserSelector] leaves the options as they are. When it resolves,
    the options are the placeholder, then the actor if there is one, marked
    as selected, then every other owner of a stored document: after the
    placeholder no value occurs twice, and the values are the actor and
    the owners. *)
Theorem loadUserSelector_options st options :
  (forall e, loadUserSelector (Some e) st options = options)
  /\ exists rest,
       loadUserSelector None st options
       = {| o_value := []; o_text := js "Select a user..."; o_selected := false |} :: rest
       /\ NoDup (o_value <$> rest)
       /\ (forall u, u ∈ o_value <$> rest
                     <-> (exists user, getCurrentUser (auth st) = Some user /\ uid user = u)
                         \/ is_owner (firestore st) u)
       /\ (forall user, getCurrentUser (auth st) = Some user ->
             head rest = Some {| o_value := uid user; o_text := email user ++ js " (You)";
                                 o_selected := true |}).
Proof using Type.
  split; [done|]. unfold loadUserSelector.
  destruct (getAllUsers_resolved (firestore st)) as (users & -> & Hnd & Hiff).
  eexists. split; [reflexivity|].
  rewrite fmap_app, selector_values.
  destruct (getCurrentUser (auth st)) as [actor|] eqn:Hactor.
  - cbn [fmap list_fmap o_value app]. split; [|split].
    + constructor; [|by apply NoDup_filter].
      intros Hin. apply list_elem_of_filter in Hin as [Hne _]. by apply Hne.
    + intros u. rewrite elem_of_cons, list_elem_of_filter, Hiff. split.
      * intros [-> |[_ Hown]]; [left; by exists actor|by right].
      * intros [(user & [= <-] & <-)|Hown]; [by left|].
        destruct (decide (u = uid actor)) as [-> |Hne]; [by left|right].
        split; [|done]. cbn. by intros [= <-].
    + by intros user [= <-].
  - cbn [fmap list_fmap app]. split; [|split].
    + by apply NoDup_filter.
    + intros u. rewrite list_elem_of_filter, Hiff. split.
      * intros [_ Hown]. by right.
      * intros [(user & ? & _)|Hown]; [done|]. split; [done|done].
    + done.
Qed.

Lemma displayCalendar_own st container user :
  getCurrentUser (auth st) = Some user ->
  displayCalendar (uid user) None st container
  = (match (renderCalendar true (loadUserEntries (uid user) None st).2).1 with
     | Some e => Some (inr e)
     | None => None
     end,
     (loadUserEntries (uid user) None st).2,
     (renderCalendar true (loadUserEntries (uid user) None st).2).2).
Proof.
  intros Hu. unfold displayCalendar.
  destruct (loadUserEntries (uid user) None st) as [out st'] eqn:Hload.
  assert (Hauth : auth st' = auth st).
  { unfold loadUserEntries in Hload. cbn in Hload. by injection Hload as <- <-. }
  assert (Hout : exists entries, out = Returned entries).
  { unfold loadUserEntries in Hload. cbn in Hload. injection Hload as <- _. by eexists. }
  destruct Hout as [entries ->]. cbn [snd]. rewrite Hauth, Hu.
  rewrite bool_decide_eq_true_2 by done.
  by destruct (renderCalendar true st') as [[e|] tree].
Qed.

(** X19. Signing in shows the user's own calendar. When the SDK announces
    a user and the load resolves, that user is the actor and the viewed
    owner, and in a regular time zone the calendar in the container, if the
    grid could be built, has the listeners of an editable calendar: one for
    each day of 2026. When the SDK announces that nobody is signed in, the
    container is emptied and the cache and the selector stay as they
    were. *)
Theorem sign_in_shows_own_calendar user sdk resp_users resp_load st container options :
  on_auth_state None sdk resp_users resp_load st container options
  = (set_auth {| currentUser := None; sdk_currentUser := sdk |} st, [], options)
  /\ forall st' tree options',
       on_auth_state (Some user) sdk resp_users None st container options
       = (st', tree, options') ->
       getCurrentUser (auth st') = Some user
       /\ viewingUserId st' = Some (uid user)
       /\ actor_is_viewed st'
       /\ (timezone_regular -> tree <> [] ->
           concat (List.map listeners tree) = day_listeners st').
Proof using Type.
  split; [reflexivity|]. intros st' tree options'.
  unfold on_auth_state, handleAuthStateChange.
  set (st1 := set_auth _ st).
  assert (Hu : getCurrentUser (auth st1) = Some user) by reflexivity.
  rewrite (displayCalendar_own st1 container user Hu).
  destruct (renderCalendar true (loadUserEntries (uid user) None st1).2)
    as [[e|] tree'] eqn:Hr; cbn [fst snd]; intros Heq; injection Heq as <- <- _.
  - split; [reflexivity|]. split; [reflexivity|]. split; [exists user; split; reflexivity|].
    intros _ Hne. by rewrite (renderCalendar_throws_empty _ _ _ _ Hr) in Hne.
  - split; [reflexivity|]. split; [reflexivity|]. split; [exists user; split; reflexivity|].
    intros Htz _. exact (renderCalendar_editable _ _ Htz Hr).
Qed.
End Host.

(** * Instances *)

(** ** The code on the scenarios of the specification *)

Example parseInt_examples :
  parseInt example_big_number_to_string (VStr (js "4")) = JInt 4
  /\ parseInt example_big_number_to_string (VStr (js " 7 stars")) = JInt 7
  /\ parseInt example_big_number_to_string (VStr (js "-0x1F")) = JInt (-31)
  /\ parseInt example_big_number_to_string (VNum (JInt 3)) = JInt 3
  /\ parseInt example_big_number_to_string (VStr (js "")) = JNaN
  /\ parseInt example_big_number_to_string VUndefined = JNaN.
Proof. repeat split; reflexivity. Qed.

(** Numerals beyond 2^53 are rounded to the nearest double, those beyond
    the largest double are infinite, and a zero keeps its sign. *)
Example parseInt_rounds :
  parseInt example_big_number_to_string (VStr (js "9007199254740993"))
  = JInt 9007199254740992
  /\ parseInt example_big_number_to_string (VStr (js "9007199254740995"))
     = JInt 9007199254740996
  /\ parseInt example_big_number_to_string
       (VStr (js "1" ++ concat (replicate 400 (js "0")))) = DInf false
  /\ parseInt example_big_number_to_string
       (VStr (js "-1" ++ concat (replicate 400 (js "0")))) = DInf true
  /\ parseInt example_big_number_to_string (VStr (js "-0")) = DNegZero
  /\ parseInt example_big_number_to_string (VStr (js "0")) = JInt 0.
Proof. repeat split; vm_compute; reflexivity. Qed.

(** The rounding is the binary64 rounding of the Standard Library on the
    samples. *)
Example rounding_checked : forallb rounding_agrees rounding_samples = true.
Proof. vm_compute. reflexivity. Qed.

Example february_2026 :
  getDaysInMonth example_LocalTZA 1 2026 = JInt 28
  /\ getFirstDayOfMonth example_LocalTZA 1 2026 = JInt 0
  /\ getDaysInMonth example_LocalTZA 1 2024 = JInt 29
  /\ getDaysInMonth example_LocalTZA 11 2026 = JInt 31.
Proof. repeat split; vm_compute; reflexivity. Qed.

Example export_scenario_csv :
  formatCSV example_big_number_to_string export_scenario
  = Returned (js "userId,date,rating,note" ++ [newline]
              ++ js "u1,2026-01-01,5," ++ [newline]
              ++ js "u2,2026-01-02,3," ++ [dquote] ++ js "ok, fine" ++ [dquote]).
Proof. vm_compute. reflexivity. Qed.

Example quoted_note_csv :
  csv_row example_big_number_to_string
    {| userId := js "u1"; date := js "2026-01-03"; rating := VNum (JInt 2);
       note := VStr (js "say " ++ [dquote] ++ js "hi" ++ [dquote]) |}
  = Returned (js "u1,2026-01-03,2," ++ [dquote] ++ js "say " ++ [dquote; dquote]
              ++ js "hi" ++ [dquote; dquote] ++ [dquote]).
Proof. vm_compute. reflexivity. Qed.

(** A note that is neither a string nor falsy has no [includes]. *)
Example number_note_csv :
  csv_row example_big_number_to_string
    {| userId := js "u1"; date := js "2026-01-03"; rating := VNum (JInt 2);
       note := VNum (JInt 5) |}
  = Threw TypeError.
Proof. reflexivity. Qed.

Example export_scenario_json :
  formatJSON example_big_number_to_string
    [ {| userId := js "u1"; date := js "2026-01-01";
         rating := VNum (JInt 5); note := VStr [] |} ]
  = js "[" ++ [newline]
    ++ js "  {" ++ [newline]
    ++ js "    " ++ [dquote] ++ js "userId" ++ [dquote] ++ js ": "
       ++ [dquote] ++ js "u1" ++ [dquote] ++ js "," ++ [newline]
    ++ js "    " ++ [dquote] ++ js "date" ++ [dquote] ++ js ": "
       ++ [dquote] ++ js "2026-01-01" ++ [dquote] ++ js "," ++ [newline]
    ++ js "    " ++ [dquote] ++ js "rating" ++ [dquote] ++ js ": 5," ++ [newline]
    ++ js "    " ++ [dquote] ++ js "note" ++ [dquote] ++ js ": "
       ++ [dquote; dquote] ++ [newline]
    ++ js "  }" ++ [newline]
    ++ js "]".
Proof. vm_compute. reflexivity. Qed.

(** ** Hosts and stores for the instances *)

Lemma example_timezone_regular : timezone_regular example_LocalTZA.
Proof.
  split.
  - intros t b. reflexivity.
  - intros d. unfold LocalTime, UTC, example_LocalTZA, Day.
    replace (d * msPerDay - 7200000 + 7200000) with (d * msPerDay) by lia.
    by apply Z.div_mul.
Qed.

Lemma keyed_store_empty : keyed_store ∅.
Proof. intros k doc H. by rewrite lookup_empty in H. Qed.




Lemma keyed_two_owner_store : keyed_store two_owner_store.
Proof.
  intros k doc H. unfold two_owner_store in H.
  apply lookup_insert_Some in H as [[<- <-]|[_ H]]; [reflexivity|].
  apply lookup_insert_Some in H as [[<- <-]|[_ H]]; [reflexivity|].
  by rewrite lookup_empty in H.
Qed.

Lemma loadUserEntries_owner_entries_witness :
  keyed_store (firestore u1_over_two_owners)
  /\ getViewingUserId (loadUserEntries (js "u1") None u1_over_two_owners).2
     = Some (js "u1")
  /\ getCurrentEntries (loadUserEntries (js "u1") None u1_over_two_owners).2
       !! js "2026-01-01"
     = Some {| id := js "u1_2026-01-01"; c_rating := VNum (JInt 5); c_note := VStr [] |}
  /\ getCurrentEntries (loadUserEntries (js "u1") None u1_over_two_owners).2
       !! js "2026-01-02" = None.
Proof.
  destruct (loadUserEntries_owner_entries (js "u1") u1_over_two_owners
              keyed_two_owner_store) as (_ & Hv & Hiff).
  split; [exact keyed_two_owner_store|]. split; [exact Hv|]. split.
  - apply Hiff. eexists _, _. split; [apply lookup_insert_eq|]. done.
  - apply eq_None_not_Some. intros [e He].
    apply Hiff in He as (k & doc & Hl & Hu & Hd & _).
    unfold u1_over_two_owners, two_owner_store in Hl. cbn in Hl.
    apply lookup_insert_Some in Hl as [[_ <-]|[_ Hl]]; [discriminate Hd|].
    apply lookup_insert_Some in Hl as [[_ <-]|[_ Hl]]; [discriminate Hu|].
    by rewrite lookup_empty in Hl.
Defined.

(** The scenario of the specification, with blanks before the rating and a
    unit after it. *)
Lemma saveEntry_reflected_in_cache_witness :
  getCurrentUser (auth u1_logged_in) = Some u1
  /\ (saveEntry example_big_number_to_string (js "2026-03-15") (VStr (js " 4 stars"))
        (VStr (js "Great hike")) None u1_logged_in).1 = Returned tt
  /\ getCurrentEntries
       (saveEntry example_big_number_to_string (js "2026-03-15") (VStr (js " 4 stars"))
          (VStr (js "Great hike")) None u1_logged_in).2 !! js "2026-03-15"
     = Some {| id := js "u1_2026-03-15"; c_rating := VNum (JInt 4);
               c_note := VStr (js "Great hike") |}
  /\ parseInt example_big_number_to_string (VStr (js " 4 stars"))
     = integer_read [] [4%N].
Proof.
  destruct (saveEntry_reflected_in_cache example_big_number_to_string
              (js "2026-03-15") (VStr (js " 4 stars")) (VStr (js "Great hike"))
              u1_logged_in u1 eq_refl) as (Hret & Hcache & Hread & _ & _).
  split; [reflexivity|]. split; [exact Hret|]. split; [exact Hcache|].
  apply (Hread (js " ") [] [4%N] (js " stars")).
  - constructor; [by_decide|constructor].
  - by_decide.
  - discriminate.
  - repeat constructor.
  - reflexivity.
  - split; [cbn; lia|discriminate].
  - reflexivity.
Defined.

(** [u1], viewing their calendar with an entry on 14 February, saves an
    entry for 15 March: the entry of February and the viewed owner stay. *)
Lemma saveEntry_frame_witness :
  js "2026-03-15" <> proto_key
  /\ (saveEntry example_big_number_to_string (js "2026-03-15") (VStr (js "4"))
        (VStr (js "Great hike")) None u1_with_entry).1 = Returned tt
  /\ (forall d', d' <> js "2026-03-15" ->
        getCurrentEntries
          (saveEntry example_big_number_to_string (js "2026-03-15") (VStr (js "4"))
             (VStr (js "Great hike")) None u1_with_entry).2 !! d'
        = getCurrentEntries u1_with_entry !! d')
  /\ getCurrentEntries
       (saveEntry example_big_number_to_string (js "2026-03-15") (VStr (js "4"))
          (VStr (js "Great hike")) None u1_with_entry).2 !! js "2026-02-14"
     = Some {| id := js "u1_2026-02-14"; c_rating := VNum (JInt 3);
               c_note := VStr (js "a long walk by the sea") |}
  /\ getViewingUserId
       (saveEntry example_big_number_to_string (js "2026-03-15") (VStr (js "4"))
          (VStr (js "Great hike")) None u1_with_entry).2
     = Some (js "u1").
Proof.
  assert (Hkey : js "2026-03-15" <> proto_key) by by_decide.
  destruct (saveEntry_frame example_big_number_to_string (js "2026-03-15")
              (VStr (js "4")) (VStr (js "Great hike")) None u1_with_entry
              Hkey eq_refl) as [Hothers Hview].
  split; [exact Hkey|]. split; [reflexivity|]. split; [exact Hothers|]. split.
  - rewrite Hothers by by_decide. reflexivity.
  - exact Hview.
Defined.

Lemma exportCSV_rows_witness :
  Forall (fun e => exists n, note e = VStr n) export_scenario
  /\ exists rows,
       formatCSV example_big_number_to_string export_scenario
         = Returned (js "userId,date,rating,note"
                     ++ concat ((fun r => newline :: r) <$> rows))
       /\ Forall2 (csv_row_of example_big_number_to_string) export_scenario rows.
Proof.
  assert (H : Forall (fun e => exists n, note e = VStr n) export_scenario).
  { repeat constructor; eexists; reflexivity. }
  split; [exact H|].
  destruct (exportCSV_rows example_big_number_to_string export_scenario H)
    as (rows & Hf & Hrows & _).
  exists rows. split; [exact Hf|exact Hrows].
Defined.

Lemma cache_owned_when_gated_witness :
  initial u1_logged_in /\ keyed_store (firestore u1_logged_in)
  /\ cache_owned
       (saveEntry example_big_number_to_string (js "2026-03-15") (VStr (js "4"))
          (VStr (js "Great hike")) None
          (loadUserEntries (js "u1") None u1_logged_in).2).2.
Proof.
  assert (Hi : initial u1_logged_in) by (split; reflexivity).
  split; [exact Hi|]. split; [exact keyed_store_empty|].
  apply (cache_owned_when_gated example_big_number_to_string
           u1_logged_in _ Hi keyed_store_empty).
  eapply rtc_l; [apply gated_load|].
  eapply rtc_l; [|apply rtc_refl].
  apply gated_save; [|reflexivity].
  exists u1. split; reflexivity.
Defined.

(** C8 on the code: [u1] loads the calendar of [u2] and then saves an
    entry; the cache, which shows [u2], holds the entry under the document
    id of [u1]. *)
Lemma foreign_entry_in_viewed_cache :
  getViewingUserId
    (saveEntry example_big_number_to_string (js "2026-03-15") (VStr (js "4"))
       (VStr (js "Great hike")) None
       (loadUserEntries (js "u2") None u1_logged_in).2).2
  = Some (js "u2")
  /\ getCurrentEntries
       (saveEntry example_big_number_to_string (js "2026-03-15") (VStr (js "4"))
          (VStr (js "Great hike")) None
          (loadUserEntries (js "u2") None u1_logged_in).2).2 !! js "2026-03-15"
     = Some {| id := js "u1_2026-03-15"; c_rating := VNum (JInt 4);
               c_note := VStr (js "Great hike") |}
  /\ ~ cache_owned
        (saveEntry example_big_number_to_string (js "2026-03-15") (VStr (js "4"))
           (VStr (js "Great hike")) None
           (loadUserEntries (js "u2") None u1_logged_in).2).2.
Proof.
  split; [reflexivity|]. split; [vm_compute; reflexivity|].
  intros Hown.
  destruct (Hown (js "2026-03-15")
              {| id := js "u1_2026-03-15"; c_rating := VNum (JInt 4);
                 c_note := VStr (js "Great hike") |}) as (owner & Hv & Hid).
  - vm_compute. reflexivity.
  - cbn in Hv. injection Hv as <-. vm_compute in Hid. discriminate Hid.
Qed.

(** The same entry lands in the cache of another owner when a load settles
    during the await of the save: [u1] calls [saveEntry] while viewing their
    own calendar, the load of [u2] resolves, then the save goes on. *)
Example save_overlapping_load :
  actor_is_viewed u1_with_entry
  /\ exists p,
       saveEntry_begin example_big_number_to_string (js "2026-03-15") (VStr (js "4"))
         (VStr (js "Great hike")) u1_with_entry = inr p
       /\ getViewingUserId
            (saveEntry_end p None (loadUserEntries (js "u2") None u1_with_entry).2).2
          = Some (js "u2")
       /\ getCurrentEntries
            (saveEntry_end p None (loadUserEntries (js "u2") None u1_with_entry).2).2
            !! js "2026-03-15"
          = Some {| id := js "u1_2026-03-15"; c_rating := VNum (JInt 4);
                    c_note := VStr (js "Great hike") |}.
Proof.
  split; [exists u1; split; reflexivity|].
  eexists. split; [reflexivity|]. split; [reflexivity|]. vm_compute. reflexivity.
Qed.

(** The invariant of C8 fails over the operations in any order. *)
Lemma cache_owned_fails_without_gate :
  ~ (forall big st0 st,
       initial st0 -> keyed_store (firestore st0) ->
       rtc (step big) st0 st -> cache_owned st).
Proof.
  intros H.
  set (st1 := (loadUserEntries (js "u2") None u1_logged_in).2).
  set (st2 := (saveEntry example_big_number_to_string (js "2026-03-15")
                 (VStr (js "4")) (VStr (js "Great hike")) None st1).2).
  assert (Hr : rtc (step example_big_number_to_string) u1_logged_in st2).
  { eapply rtc_l; [apply step_load|].
    eapply rtc_l; [|apply rtc_refl].
    apply (step_save example_big_number_to_string st1). reflexivity. }
  specialize (H example_big_number_to_string u1_logged_in st2
                ltac:(split; reflexivity) keyed_store_empty Hr
                (js "2026-03-15")
                {| id := js "u1_2026-03-15"; c_rating := VNum (JInt 4);
                   c_note := VStr (js "Great hike") |}).
  destruct H as (owner & Hv & Hid).
  - subst st2. unfold saveEntry. cbn. apply lookup_insert_eq.
  - cbn in Hv. injection Hv as <-. vm_compute in Hid. discriminate Hid.
Qed.

Lemma json_round_trip_witness :
  Forall entry_faithful export_scenario
  /\ JSON_parse (formatJSON example_big_number_to_string export_scenario)
     = Parsed (DArr (List.map entry_object export_scenario)) [].
Proof.
  assert (H : Forall entry_faithful export_scenario).
  { repeat constructor; reflexivity. }
  split; [exact H|].
  exact (proj1 (json_round_trip example_big_number_to_string export_scenario H)).
Defined.

(** A rating without digits is stored as NaN and exported as such an entry. *)
Lemma saveEntry_stores_NaN :
  getAllEntries None
    (firestore (saveEntry example_big_number_to_string (js "2026-01-01")
                  (VStr []) (VStr []) None u1_logged_in).2)
  = Returned [nan_entry].
Proof. vm_compute. reflexivity. Qed.

(** C5 as stated fails: NaN is written as [null] and read as [null]. *)
Lemma json_round_trip_fails_on_NaN :
  ~ (forall big entries,
       JSON_parse (formatJSON big entries)
       = Parsed (DArr (List.map entry_object entries)) []).
Proof.
  intros H. specialize (H example_big_number_to_string [nan_entry]).
  vm_compute in H. discriminate H.
Qed.

(** ** Instances of the properties of the other modules *)

Lemma formatDate_iso_witness :
  formatDate example_big_number_to_string example_LocalTZA
    (new_Date example_LocalTZA 2026 1 14)
  = decimal_Z 2026 ++ js "-" ++ two_digits (1 + 1) ++ js "-" ++ two_digits 14.
Proof.
  apply (formatDate_iso example_big_number_to_string example_LocalTZA 2026 1 14).
  - exact example_timezone_regular.
  - lia.
  - lia.
  - change (gregorian_days_in_month 2026 1) with 28. lia.
Defined.

Lemma formatDate_injective_witness : 2026 = 2026 /\ 11 = 11 /\ 31 = 31.
Proof.
  apply (formatDate_injective example_big_number_to_string example_LocalTZA
           2026 11 31 2026 11 31).
  - exact example_timezone_regular.
  - lia.
  - lia.
  - change (gregorian_days_in_month 2026 11) with 31. lia.
  - lia.
  - lia.
  - change (gregorian_days_in_month 2026 11) with 31. lia.
  - reflexivity.
Defined.

(** February 2026 starts on a Sunday and has four full weeks. *)
Lemma renderMonth_grid_witness :
  exists card header names weeks cells trailing,
    renderMonth example_big_number_to_string example_LocalTZA
      example_StringToIntegerOrInfinity example_max_string_length 1 true u1_with_entry
    = inr card
    /\ card = Div [js "card"; js "mb-4"] [] None
                  [header; Div [js "card-body"; js "p-2"] [] None (names :: weeks)]
    /\ Forall full_week weeks
    /\ Forall2 (fun d c =>
                  day_cell example_big_number_to_string example_LocalTZA
                    example_StringToIntegerOrInfinity example_max_string_length
                    1 d true u1_with_entry = inr c)
               (seqZ 1 (gregorian_days_in_month YEAR 1)) cells
    /\ concat (el_children <$> weeks)
       = replicate (Z.to_nat (zeller_weekday YEAR 1 1)) empty_cell
         ++ cells ++ replicate trailing empty_cell
    /\ (trailing < 7)%nat.
Proof.
  destruct (renderMonth example_big_number_to_string example_LocalTZA
              example_StringToIntegerOrInfinity example_max_string_length 1 true
              u1_with_entry) as [e|card] eqn:Hrun.
  - vm_compute in Hrun. discriminate Hrun.
  - destruct (renderMonth_grid example_big_number_to_string example_LocalTZA
                example_StringToIntegerOrInfinity example_max_string_length 1 true
                u1_with_entry card example_timezone_regular ltac:(lia) Hrun)
      as (header & names & weeks & cells & trailing & H).
    exists card, header, names, weeks, cells, trailing. split; [reflexivity|exact H].
Defined.

Lemma presentable_u1_with_entry d e :
  currentEntries u1_with_entry !! d = Some e -> presentable example_max_string_length e.
Proof.
  intros H. unfold u1_with_entry in H. cbn [currentEntries] in H.
  apply lookup_insert_Some in H as [[_ <-]|[_ H]]; [|by rewrite lookup_empty in H].
  split.
  - right. exists 3. split; [reflexivity|]. split; [by split|].
    unfold example_max_string_length. lia.
  - right. by eexists.
Qed.

Lemma renderCalendar_presentable_witness :
  exists cols,
    renderCalendar example_big_number_to_string example_LocalTZA
      example_StringToIntegerOrInfinity example_max_string_length true u1_with_entry
    = (None, [Div [js "row"] [] None cols])
    /\ length cols = 12%nat.
Proof.
  apply (renderCalendar_presentable example_big_number_to_string example_LocalTZA
           example_StringToIntegerOrInfinity example_max_string_length true u1_with_entry).
  exact presentable_u1_with_entry.
Defined.

(** A rating of -4 saved for 14 February. *)
Lemma negative_rating_breaks_render_witness :
  exists err,
    renderCalendar example_big_number_to_string example_LocalTZA
      example_StringToIntegerOrInfinity example_max_string_length true
      (saveEntry example_big_number_to_string (iso_date YEAR 1 14)
         (VStr (js "-4")) (VStr []) None u1_logged_in).2
    = (Some err, []).
Proof.
  apply (negative_rating_breaks_render example_big_number_to_string example_LocalTZA
           example_StringToIntegerOrInfinity example_max_string_length
           1 14 (VStr (js "-4")) (VStr []) (-4) None u1_logged_in _ true).
  - exact example_timezone_regular.
  - lia.
  - change (gregorian_days_in_month YEAR 1) with 28. lia.
  - reflexivity.
  - lia.
  - reflexivity.
Defined.

Lemma renderCalendar_listeners_witness :
  concat (List.map listeners
            (renderCalendar example_big_number_to_string example_LocalTZA
               example_StringToIntegerOrInfinity example_max_string_length true
               u1_with_entry).2)
  = day_listeners u1_with_entry.
Proof.
  apply (renderCalendar_listeners example_big_number_to_string example_LocalTZA
           example_StringToIntegerOrInfinity example_max_string_length true u1_with_entry).
  - intros _. exact example_timezone_regular.
  - vm_compute. reflexivity.
Defined.

(** [u1] loads their calendar and saves an entry. *)
Lemma cache_synced_when_gated_witness :
  initial (saveEntry example_big_number_to_string (js "2026-03-01") (VStr (js "4"))
             (VStr (js "spring")) None
             (loadUserEntries (js "u1") None u1_logged_in).2).2
  \/ cache_synced (saveEntry example_big_number_to_string (js "2026-03-01")
                     (VStr (js "4")) (VStr (js "spring")) None
                     (loadUserEntries (js "u1") None u1_logged_in).2).2.
Proof.
  apply (cache_synced_when_gated example_big_number_to_string u1_logged_in).
  - split; reflexivity.
  - exact keyed_store_empty.
  - apply (rtc_l _ _ (loadUserEntries (js "u1") None u1_logged_in).2).
    + apply gated_load.
    + apply rtc_once. apply gated_save.
      * exists u1. split; reflexivity.
      * reflexivity.
Defined.

Lemma saveEntry_last_write_wins_witness :
  saveEntry example_big_number_to_string (js "2026-03-01") (VStr (js "5")) (VStr (js "better"))
    None
    (saveEntry example_big_number_to_string (js "2026-03-01") (VStr (js "2"))
       (VStr (js "rain")) None u1_logged_in).2
  = saveEntry example_big_number_to_string (js "2026-03-01") (VStr (js "5"))
      (VStr (js "better")) None u1_logged_in.
Proof.
  apply (saveEntry_last_write_wins example_big_number_to_string).
  reflexivity.
Defined.

Lemma saveEntry_keeps_other_owners_witness :
  firestore (saveEntry example_big_number_to_string (js "2026-01-02") (VStr (js "1"))
               (VStr (js "mine")) None u1_over_two_owners).2
    !! docKey (js "u2") (js "2026-01-02")
  = Some {| userId := js "u2"; date := js "2026-01-02";
            rating := VNum (JInt 3); note := VStr (js "ok, fine") |}.
Proof.
  apply (saveEntry_keeps_other_owners example_big_number_to_string (js "2026-01-02")
           (VStr (js "1")) (VStr (js "mine")) None u1_over_two_owners u1).
  - exact keyed_two_owner_store.
  - reflexivity.
  - apply (bool_decide_unpack _). vm_compute. exact I.
  - apply (bool_decide_unpack _). vm_compute. exact I.
  - vm_compute. reflexivity.
  - apply (bool_decide_unpack _). vm_compute. exact I.
Defined.

(** The rating text 3.7 is stored as 3. *)
Lemma saveEntry_rating_leading_numeral_witness :
  currentEntries
    (saveEntry example_big_number_to_string (js "2026-03-01")
       (VStr (decimal_Z 3 ++ 46%N :: js "7")) (VStr (js "spring")) None u1_logged_in).2
    !! js "2026-03-01"
  = Some {| id := docKey (uid u1) (js "2026-03-01"); c_rating := VNum (JInt 3);
            c_note := js_or (VStr (js "spring")) (VStr []) |}.
Proof.
  apply (saveEntry_rating_leading_numeral example_big_number_to_string (js "2026-03-01")
           3 46%N (js "7") (VStr (js "spring")) u1_logged_in u1).
  - reflexivity.
  - reflexivity.
  - reflexivity.
  - lia.
  - lia.
Defined.

(** [u1] submits four stars and a note with blanks around it. *)
Lemma handleEditSubmit_shows_entry_witness :
  exists user,
    getCurrentUser (auth u1_over_two_owners) = Some user
    /\ actor_is_viewed
         (handleEditSubmit example_big_number_to_string example_LocalTZA
            example_StringToIntegerOrInfinity example_max_string_length
            (js "2026-02-14") (js "4") (js "  fine ") None None u1_over_two_owners []).1.2
    /\ viewingUserId
         (handleEditSubmit example_big_number_to_string example_LocalTZA
            example_StringToIntegerOrInfinity example_max_string_length
            (js "2026-02-14") (js "4") (js "  fine ") None None u1_over_two_owners []).1.2
       = Some (uid user)
    /\ cache_owned
         (handleEditSubmit example_big_number_to_string example_LocalTZA
            example_StringToIntegerOrInfinity example_max_string_length
            (js "2026-02-14") (js "4") (js "  fine ") None None u1_over_two_owners []).1.2
    /\ currentEntries
         (handleEditSubmit example_big_number_to_string example_LocalTZA
            example_StringToIntegerOrInfinity example_max_string_length
            (js "2026-02-14") (js "4") (js "  fine ") None None u1_over_two_owners []).1.2
         !! js "2026-02-14"
       = Some {| id := docKey (uid user) (js "2026-02-14");
                 c_rating := VNum (parseInt example_big_number_to_string (VStr (js "4")));
                 c_note := VStr (trim (js "  fine ")) |}.
Proof.
  apply (handleEditSubmit_shows_entry example_big_number_to_string example_LocalTZA
           example_StringToIntegerOrInfinity example_max_string_length
           (js "2026-02-14") (js "4") (js "  fine ") None None u1_over_two_owners []
           _
           (handleEditSubmit example_big_number_to_string example_LocalTZA
              example_StringToIntegerOrInfinity example_max_string_length
              (js "2026-02-14") (js "4") (js "  fine ") None None u1_over_two_owners []).2).
  - exact keyed_two_owner_store.
  - vm_compute. reflexivity.
Defined.

(** ** The other modules on scenarios *)

(** The weeks of the months of 2026: every row has seven cells. *)
Example weeks_of_2026 :
  List.map
    (fun month =>
       match renderMonth example_big_number_to_string example_LocalTZA
               example_StringToIntegerOrInfinity example_max_string_length
               month false u1_with_entry with
       | inr (Div _ _ _ [_; Div _ _ _ (_ :: weeks)]) =>
           List.map (fun w => length (el_children w)) weeks
       | _ => []
       end)
    (seqZ 0 12)
  = [[7; 7; 7; 7; 7]; [7; 7; 7; 7]; [7; 7; 7; 7; 7]; [7; 7; 7; 7; 7];
     [7; 7; 7; 7; 7; 7]; [7; 7; 7; 7; 7]; [7; 7; 7; 7; 7]; [7; 7; 7; 7; 7; 7];
     [7; 7; 7; 7; 7]; [7; 7; 7; 7; 7]; [7; 7; 7; 7; 7]; [7; 7; 7; 7; 7]]%nat.
Proof. vm_compute. reflexivity. Qed.

(** The cell of a day with an entry: three stars, the note cut after ten
    characters, and a listener with the date and the entry. *)
Example cell_of_14_february :
  day_cell example_big_number_to_string example_LocalTZA
    example_StringToIntegerOrInfinity example_max_string_length 1 14 true u1_with_entry
  = inr (Div [js "col"] [] None
           [Div [js "day-cell"; js "p-1"; js "border"; js "rounded"; js "text-center";
                 js "rating-3"; js "editable"]
              [(js "dataset.date", js "2026-02-14"); (js "style.cursor", js "pointer")]
              (Some (js "2026-02-14",
                     Some {| id := js "u1_2026-02-14"; c_rating := VNum (JInt 3);
                             c_note := VStr (js "a long walk by the sea") |}))
              [Div [js "fw-bold"; js "small"] [(js "textContent", js "14")] None [];
               Div [js "rating-stars"; js "small"]
                 [(js "textContent", star_glyph ++ star_glyph ++ star_glyph)] None [];
               Div [js "text-muted"; js "small"; js "text-truncate"]
                 [(js "style.fontSize", js "0.65rem");
                  (js "textContent", js "a long wal");
                  (js "title", js "a long walk by the sea")] None []]]).
Proof. vm_compute. reflexivity. Qed.

(** Document ids are ambiguous when a date has an underscore in it: the
    save of owner [a] for the date [b_c] replaces the document of owner
    [a_b] for the date [c]. *)
Example docKey_collision :
  firestore
    (saveEntry example_big_number_to_string (js "b_c") (VStr (js "1")) (VStr []) None
       {| auth := {| currentUser := Some {| uid := js "a"; email := js "a@example.org" |};
                     sdk_currentUser := None |};
          firestore := <[docKey (js "a_b") (js "c") :=
                           {| userId := js "a_b"; date := js "c";
                              rating := VNum (JInt 5); note := VStr [] |}]> ∅;
          currentEntries := ∅; viewingUserId := None |}).2
    !! docKey (js "a_b") (js "c")
  = Some {| userId := js "a"; date := js "b_c"; rating := VNum (JInt 1); note := VStr [] |}.
Proof. vm_compute. reflexivity. Qed.

(** The selector for [u1] over the store of two owners. *)
Example selector_of_u1 :
  loadUserSelector None u1_over_two_owners []
  = [ {| o_value := []; o_text := js "Select a user..."; o_selected := false |};
      {| o_value := js "u1"; o_text := js "u1@example.org (You)"; o_selected := true |};
      {| o_value := js "u2"; o_text := js "u2..."; o_selected := false |} ].
Proof. vm_compute. reflexivity. Qed.
